(** * Pagination engine of tiptap-pages: a shallow embedding and its properties

    The development follows the TypeScript sources of the page extension:
    - [core.ts]       : the text-break binary search ([binarySearchTextBreak]);
    - [types.ts]      : [PageOptions], [PageState];
    - [computed.ts]   : the split strategies, [SplitContext] and
                        [PageComputedContext] (dedupe, merge, split, run);
    - [page-extension.ts] : option validation in [onBeforeCreate].

    JavaScript numbers that hold indices, lengths and document positions are
    integers and are modelled by [Z].  Pixel measures are modelled by the
    type [number] below: [NaN], an infinity or a finite value, which is a
    rational.  Sums, which the overflow test and the accumulated height
    are made of, are rounded to the nearest double as IEEE 754
    prescribes; differences and products are taken exactly.  Every
    comparison with [NaN] is false, as in JavaScript. *)

From Stdlib Require Import ZArith QArith Lia Bool List Ascii String.
From stdpp Require Import base option list strings gmap.

Local Open Scope Z_scope.

(** ** JavaScript numbers used as measures

    A JavaScript number is an IEEE 754 double: [NaN], one of the two
    infinities, or a finite value.  A finite double is a rational number,
    and a rational that is no double stands for no JavaScript number.  The
    two zeros are one value here: no operation of the engine tells them
    apart. *)

Inductive number : Type :=
| NaN
| Fin (q : Q)
| Inf (negative : bool).

(** *** Rounding to a double

    [binary64 q] is the double nearest to the rational [q], as every
    arithmetic operation of IEEE 754 delivers it (round to nearest, ties
    to even): with [2^e <= |q| < 2^(e+1)], the doubles around [q] are the
    multiples of [2^k], [k = max (e - 52) (-1074)]; [|q| / 2^k] is rounded
    to the nearest integer [m], the even one of two that are equally near;
    the result is [m * 2^k] with the sign of [q], or the infinity of
    that sign when [m * 2^k] reaches [2^1024]. *)

(** [floor (log2 (a / d))] for positive [a] and [d]. *)
Definition floorLog2 (a d : Z) : Z :=
  let l := Z.log2 a - Z.log2 d in
  if (if l <? 0 then d <=? a * 2 ^ (- l) else d * 2 ^ l <=? a)
  then l else l - 1.

(** The integer nearest to [n / d] for a positive [d]; of two that are
    equally near, the even one. *)
Definition roundHalfEven (n d : Z) : Z :=
  let q := n / d in
  match 2 * (n mod d) ?= d with
  | Lt => q
  | Gt => q + 1
  | Eq => if Z.even q then q else q + 1
  end.

Definition binary64 (q : Q) : number :=
  let n := Qnum q in
  let d := Zpos (Qden q) in
  if n =? 0 then Fin 0
  else
    let a := Z.abs n in
    let k := Z.max (floorLog2 a d - 52) (-1074) in
    let m :=
      if k <? 0 then roundHalfEven (a * 2 ^ (- k)) d
      else roundHalfEven a (d * 2 ^ k) in
    if (0 <=? k) && (2 ^ 1024 <=? m * 2 ^ k) then Inf (n <? 0)
    else
      let v :=
        if k <? 0 then Qmake m (Z.to_pos (2 ^ (- k)))
        else inject_Z (m * 2 ^ k) in
      Fin (Qred (if n <? 0 then - v else v)).

(** [a + b]: the exact sum rounded to a double; an infinity absorbs a
    finite number, and the sum of the two opposite infinities is [NaN]. *)
Definition num_add (a b : number) : number :=
  match a, b with
  | Fin x, Fin y => binary64 (x + y)
  | Inf s, Fin _ => Inf s
  | Fin _, Inf s => Inf s
  | Inf s, Inf t => if Bool.eqb s t then Inf s else NaN
  | _, _ => NaN
  end.

(** [a - b].  The difference of two finite numbers is taken exactly and
    not rounded: it is what JavaScript computes whenever the exact
    difference is a double, as it is for the whole numbers of pixels the
    page options are given in. *)
Definition num_sub (a b : number) : number :=
  match a, b with
  | Fin x, Fin y => Fin (x - y)%Q
  | Inf s, Fin _ => Inf s
  | Fin _, Inf s => Inf (negb s)
  | Inf s, Inf t => if Bool.eqb s t then NaN else Inf s
  | _, _ => NaN
  end.

(** [a <= b] and [a > b] as JavaScript evaluates them. *)
Definition num_le (a b : number) : bool :=
  match a, b with
  | NaN, _ | _, NaN => false
  | Fin x, Fin y => Qle_bool x y
  | Inf true, _ => true
  | _, Inf false => true
  | _, _ => false
  end.

Definition num_gt (a b : number) : bool :=
  match a, b with
  | NaN, _ | _, NaN => false
  | _, _ => negb (num_le a b)
  end.

Definition num_ge (a b : number) : bool := num_le b a.

(** The mathematical reading of [a > b]: both sides are numbers and the
    left one is strictly greater. *)
Inductive Gt_number : number -> number -> Prop :=
| Gt_fin (x y : Q) : (y < x)%Q -> Gt_number (Fin x) (Fin y)
| Gt_inf_fin (y : Q) : Gt_number (Inf false) (Fin y)
| Gt_fin_inf (x : Q) : Gt_number (Fin x) (Inf true)
| Gt_inf_inf : Gt_number (Inf false) (Inf true).

Definition of_Z (z : Z) : number := Fin (inject_Z z).

(** ** JavaScript strings

    A string is a sequence of code units; [String.string] plays that role. *)

Definition len (s : string) : Z := Z.of_nat (String.length s).

(** [s.slice(b, e)], with JavaScript's treatment of negative and
    out-of-range indices. *)
Definition clamp_index (n : Z) (i : Z) : Z :=
  if i <? 0 then Z.max (n + i) 0 else Z.min i n.

Definition slice (s : string) (b e : Z) : string :=
  let from := clamp_index (len s) b in
  let to := clamp_index (len s) e in
  String.substring (Z.to_nat from) (Z.to_nat (Z.max (to - from) 0)) s.

(** [s.lastIndexOf(c)] for a one-character needle: the greatest index
    holding [c], or [-1]. *)
Fixpoint lastIndexOf_from (i : Z) (s : string) (c : ascii) (acc : Z) : Z :=
  match s with
  | EmptyString => acc
  | String a s' =>
      lastIndexOf_from (i + 1) s' c (if Ascii.eqb a c then i else acc)
  end.

Definition lastIndexOf (s : string) (c : ascii) : Z :=
  lastIndexOf_from 0 s c (-1).

(** [s.includes(t)]: [t] occurs in [s] as a contiguous substring. *)
Fixpoint includes (s t : string) : bool :=
  String.prefix t s ||
  match s with
  | EmptyString => false
  | String _ s' => includes s' t
  end.

Definition space : ascii := " "%char.

(** The code unit at index [i], if any. *)
Definition charAt (s : string) (i : Z) : option ascii :=
  if i <? 0 then None else String.get (Z.to_nat i) s.

(** ** core.ts: the text-break search *)

Section TextBreak.

(** [createAndCalculateHeight(node, [...content.slice(0, indexInContent),
    schema.text(candidate, marks)], splitContext)]: during one search the
    node, the preceding content and the marks are fixed, so the measured
    height is a function of the candidate text. *)
Variable createAndCalculateHeight : string -> number.
Variable fullText : string.
Variable heightLimit : number.

(** One evaluation of the [while (low <= high)] loop per unit of fuel.
    [None] is returned only when the fuel runs out. *)
Fixpoint searchLoop (fuel : nat) (low high validBreak : Z) : option Z :=
  match fuel with
  | O => None
  | S fuel' =>
      if low <=? high then
        let mid := (low + high) / 2 in
        let candidate := slice fullText 0 mid in
        let lastSpaceIndex := lastIndexOf candidate space in
        if (lastSpaceIndex <? 0) && negb (7 <? len candidate) then Some 0
        else
          let lastSpaceIndex :=
            if lastSpaceIndex <? 0 then len candidate else lastSpaceIndex in
          let candidate := slice candidate 0 lastSpaceIndex in
          if (len candidate =? 0) && negb (1 <? mid) then Some 0
          else
            let candidate :=
              if len candidate =? 0 then slice fullText 0 1 else candidate in
            let candidateHeight := createAndCalculateHeight candidate in
            if num_le candidateHeight heightLimit then
              searchLoop fuel' (mid + 1) high
                (if 0 <? lastSpaceIndex then lastSpaceIndex
                 else len candidate)
            else
              searchLoop fuel' low (mid - 1) validBreak
      else Some validBreak
  end.

Definition binarySearchTextBreak : option Z :=
  searchLoop (S (String.length fullText)) 1 (len fullText) 0.

End TextBreak.

(** ** JavaScript values held in options and node attributes *)

Inductive JsValue : Type :=
| JUndefined
| JNull
| JBool (b : bool)
| JNum (n : number)
| JStr (s : string)
| JObj.

Inductive JsType : Type :=
| TUndefined | TObject | TBoolean | TNumber | TString.

Definition typeof (v : JsValue) : JsType :=
  match v with
  | JUndefined => TUndefined
  | JNull => TObject
  | JBool _ => TBoolean
  | JNum _ => TNumber
  | JStr _ => TString
  | JObj => TObject
  end.

(** Truthiness: [false], [0], [NaN], the empty string, [null] and
    [undefined] are falsy. *)
Definition truthy (v : JsValue) : bool :=
  match v with
  | JUndefined | JNull => false
  | JBool b => b
  | JNum NaN => false
  | JNum (Fin q) => negb (Qeq_bool q 0)
  | JNum (Inf _) => true
  | JStr s => negb (String.eqb s "")
  | JObj => true
  end.

(** [v === w] on primitive values. *)
Definition strict_eq (v w : JsValue) : bool :=
  match v, w with
  | JUndefined, JUndefined => true
  | JNull, JNull => true
  | JBool a, JBool b => Bool.eqb a b
  | JNum (Fin a), JNum (Fin b) => Qeq_bool a b
  | JNum (Inf a), JNum (Inf b) => Bool.eqb a b
  | JStr a, JStr b => String.eqb a b
  | _, _ => false
  end.

(** [v + 1] for the values an attribute can hold. *)
Definition js_succ (v : JsValue) : JsValue :=
  match v with
  | JNum n => JNum (num_add n (of_Z 1))
  | JNull => JNum (of_Z 1)
  | JBool b => JNum (of_Z (if b then 2 else 1))
  | JStr s => JStr (String.append s "1")
  | JUndefined | JObj => JNum NaN
  end.

#[global] Instance Q_eq_dec : EqDecision Q.
Proof. solve_decision. Defined.
#[global] Instance number_eq_dec : EqDecision number.
Proof. solve_decision. Defined.
#[global] Instance JsValue_eq_dec : EqDecision JsValue.
Proof. solve_decision. Defined.

(** ** Outcomes of effectful code

    A call either returns, throws, or -- for a loop of the model that is
    run with fuel -- exhausts its fuel.  The theorems on the loops show
    that the fuel they are started with is never exhausted. *)

Inductive Outcome (A : Type) : Type :=
| Done (a : A)
| Thrown
| OutOfFuel.
Arguments Done {A} a.
Arguments Thrown {A}.
Arguments OutOfFuel {A}.

#[global] Instance Outcome_ret : MRet Outcome := fun A a => Done a.
#[global] Instance Outcome_bind : MBind Outcome :=
  fun A B f m =>
    match m with
    | Done a => f a
    | Thrown => Thrown
    | OutOfFuel => OutOfFuel
    end.

#[global] Instance Outcome_fmap : FMap Outcome :=
  fun A B f m =>
    match m with
    | Done a => Done (f a)
    | Thrown => Thrown
    | OutOfFuel => OutOfFuel
    end.

(** A missing value where the source dereferences it is a [TypeError] or
    [RangeError]. *)
Definition orThrow {A : Type} (o : option A) : Outcome A :=
  match o with
  | Some a => Done a
  | None => Thrown
  end.

(** ** node-names.ts *)

Definition PARAGRAPH : string := "paragraph".
Definition PAGE : string := "page".
Definition HEADING : string := "heading".
Definition BULLETLIST : string := "bulletList".
Definition ORDEREDLIST : string := "orderedList".
Definition LISTITEM : string := "listItem".
Definition HARDBREAK : string := "hardBreak".
Definition TRANSIENT_TEXT : string := "transientText".
Definition CASSIE_BLOCK : string := "Node".
Definition EXTEND : string := "Extend".
Definition CASSIE_BLOCK_EXTEND : string := String.append CASSIE_BLOCK EXTEND.
Definition TEXT : string := "text".
Definition DOC : string := "doc".

(** ** The document tree of the host editor (prosemirror-model)

    Only what the pagination code consults is modelled: node types with
    their name and leaf flag, attributes as a map from attribute names to
    values, children, the text of text nodes, sizes, positions, the
    [descendants] traversal and position resolution. *)

Record NodeType : Type := mkNodeType {
  name : string;
  isLeaf : bool
}.

#[global] Instance NodeType_eq_dec : EqDecision NodeType.
Proof. solve_decision. Defined.

#[warnings="-register-all"] Inductive Node : Type :=
| mkNode (type : NodeType) (attrs : gmap string JsValue)
         (content : list Node) (text : string).

Definition type (n : Node) : NodeType :=
  match n with mkNode t _ _ _ => t end.
Definition attrs (n : Node) : gmap string JsValue :=
  match n with mkNode _ a _ _ => a end.
Definition content (n : Node) : list Node :=
  match n with mkNode _ _ c _ => c end.
Definition text (n : Node) : string :=
  match n with mkNode _ _ _ s => s end.

Definition isText (n : Node) : bool := String.eqb (name (type n)) TEXT.

(** [node.attrs.key]: a missing key reads as [undefined]. *)
Definition attr (n : Node) (key : string) : JsValue :=
  default JUndefined (attrs n !! key).

(** [nodeSize]: the length of the text for a text node, 1 for another
    leaf, and the content size plus the two boundary tokens otherwise. *)
Fixpoint nodeSize (n : Node) : Z :=
  match n with
  | mkNode t _ c s =>
      if String.eqb (name t) TEXT then len s
      else if isLeaf t then 1
      else 2 + (fix sizes (l : list Node) : Z :=
                  match l with
                  | [] => 0
                  | x :: l' => nodeSize x + sizes l'
                  end) c
  end.

(** [fragment.size] *)
Fixpoint fragmentSize (l : list Node) : Z :=
  match l with
  | [] => 0
  | x :: l' => nodeSize x + fragmentSize l'
  end.

Definition contentSize (n : Node) : Z := fragmentSize (content n).

(** [node.textContent]: the text of the text nodes below, in order. *)
Fixpoint textContent (n : Node) : string :=
  match n with
  | mkNode t _ c s =>
      if String.eqb (name t) TEXT then s
      else (fix texts (l : list Node) : string :=
              match l with
              | [] => EmptyString
              | x :: l' => String.append (textContent x) (texts l')
              end) c
  end.

Definition childCount (n : Node) : Z := Z.of_nat (List.length (content n)).
Definition firstChild (n : Node) : option Node := head (content n).
Definition lastChild (n : Node) : option Node := last (content n).
(** [node.child(i)] *)
Definition child (n : Node) (i : Z) : option Node :=
  if i <? 0 then None else content n !! Z.to_nat i.

(** [node.copy(content)]: same type and attributes, new content. *)
Definition copy (n : Node) (c : list Node) : Node :=
  mkNode (type n) (attrs n) c (text n).

(** [node.descendants(f)], that is [nodesBetween(0, content.size, f)]: a
    depth-first pre-order walk.  The callback receives the node, its
    position, its parent and its index, threads a state of type [S], and
    answers whether the children are entered (anything but [false]); they
    are entered only if the content of the node has a size.  (The bounds
    [from] and [to] of the source loop select every child here, as no node
    of a document has size 0: a text node is never empty.) *)
Section Descendants.
Context {S : Type}.
Variable f : S -> Node -> Z -> Node -> Z -> S * bool.

(** The loop over the children of [parent]; [enter] walks the content of
    a child. *)
Definition visitChildren (enter : Node -> Z -> S -> S) (parent : Node)
    (nodeStart : Z) : list Node -> Z -> Z -> S -> S :=
  fix loop (cs : list Node) (i pos : Z) (st : S) : S :=
    match cs with
    | [] => st
    | c :: cs' =>
        let '(st1, descend) := f st c (nodeStart + pos) parent i in
        let st2 :=
          if descend && negb (contentSize c =? 0)
          then enter c (nodeStart + pos + 1) st1
          else st1 in
        loop cs' (i + 1) (pos + nodeSize c) st2
    end.

Fixpoint nodesBetween (parent : Node) (nodeStart : Z) (st : S) : S :=
  visitChildren nodesBetween parent nodeStart (content parent) 0 0 st.

Definition descendants (doc : Node) (st : S) : S := nodesBetween doc 0 st.
End Descendants.

(** [doc.resolve(pos)].  The resolved path holds, for every depth, the
    ancestor node, the index into it and the position before the child at
    that index (the [path] array of a [ResolvedPos], three entries per
    depth). *)
Definition PathEntry : Type := Node * Z * Z.

(** [findIndex] of the content of [node], followed by the step into the
    child found; [descend] resolves inside that child.  The end of the
    list is reached only for an offset beyond the content, which the
    range check of [resolve] excludes. *)
Definition findIndexIn (descend : Node -> Z -> Z -> list PathEntry)
    (node : Node) (parentOffset start : Z)
  : list Node -> Z -> Z -> list PathEntry :=
  fix findIndex (cs : list Node) (i curPos : Z) : list PathEntry :=
    match cs with
    | [] => [(node, i, start + curPos)]
    | c :: cs' =>
        let end_ := curPos + nodeSize c in
        if end_ >=? parentOffset then
          if end_ =? parentOffset then [(node, i + 1, start + end_)]
          else
            (node, i, start + curPos) ::
            (if isText c then []
             else descend c (parentOffset - curPos - 1) (start + curPos + 1))
        else findIndex cs' (i + 1) end_
    end.

Fixpoint resolveFrom (node : Node) (parentOffset start : Z)
  : list PathEntry :=
  if parentOffset =? 0 then [(node, 0, start)]
  else findIndexIn resolveFrom node parentOffset start (content node) 0 0.

Record ResolvedPos : Type := mkResolvedPos {
  rpos : Z;
  path : list PathEntry
}.

(** [None] models the [RangeError] of a position outside the document. *)
Definition resolve (doc : Node) (pos : Z) : option ResolvedPos :=
  if (0 <=? pos) && (pos <=? contentSize doc)
  then Some (mkResolvedPos pos (resolveFrom doc pos 0))
  else None.

(** Array indexing with a JavaScript index: out of range reads as
    [undefined]. *)
Definition at_index {A : Type} (l : list A) (i : Z) : option A :=
  if i <? 0 then None else l !! Z.to_nat i.

(** [$pos.depth] *)
Definition depthOf (r : ResolvedPos) : Z :=
  Z.of_nat (List.length (path r)) - 1.

(** [resolveDepth]: a negative depth counts back from the depth of the
    position. *)
Definition resolveDepth (r : ResolvedPos) (d : Z) : Z :=
  if d <? 0 then depthOf r + d else d.

(** [$pos.node(d)]; an entry beyond the path reads as [undefined]. *)
Definition nodeAt (r : ResolvedPos) (d : Z) : option Node :=
  (fun e : PathEntry => e.1.1) <$> at_index (path r) (resolveDepth r d).

(** [$pos.start(d)]: the position where the content of the ancestor at
    depth [d] begins. *)
Definition startAt (r : ResolvedPos) (d : Z) : option Z :=
  let d := resolveDepth r d in
  if d =? 0 then Some 0
  else (fun e : PathEntry => e.2 + 1) <$> at_index (path r) (d - 1).

(** [$pos.before(d)]: the position before the ancestor at depth [d];
    there is none for the top-level node. *)
Definition beforeAt (r : ResolvedPos) (d : Z) : option Z :=
  let d := resolveDepth r d in
  if d =? 0 then None
  else if d =? depthOf r + 1 then Some (rpos r)
  else (fun e : PathEntry => e.2) <$> at_index (path r) (d - 1).

(** Node objects are compared by reference in the source ([===] and
    [!==]).  The model compares their structure.  The two comparisons
    agree on one and the same object and on two objects of different
    structure; they part on two distinct objects of equal structure (two
    pages, paragraphs or list items of the same type, attributes and
    content), which the source tells apart and the model takes for one.
    Every statement about a function that compares nodes therefore
    carries the condition under which the two agree: the nodes compared
    are the same child of the same parent, or differ in structure. *)
Fixpoint Node_eqb (a b : Node) : bool :=
  match a, b with
  | mkNode t1 a1 c1 s1, mkNode t2 a2 c2 s2 =>
      bool_decide (t1 = t2) && bool_decide (a1 = a2) && String.eqb s1 s2 &&
      (fix all2 (l1 l2 : list Node) : bool :=
         match l1, l2 with
         | [], [] => true
         | x :: l1', y :: l2' => Node_eqb x y && all2 l1' l2'
         | _, _ => false
         end) c1 c2
  end.

Definition optNode_eqb (a b : option Node) : bool :=
  match a, b with
  | Some x, Some y => Node_eqb x y
  | None, None => true
  | _, _ => false
  end.

(** ** computed.ts: the split context *)

Record SplitInfo : Type := mkSplitInfo {
  split_pos : Z;
  split_depth : Z
}.

(** The private fields of the class; the schema and the attribute bag it
    also carries play no role in the strategies. *)
Record SplitContext : Type := mkSplitContext {
  ctx_doc : Node;
  accumulatedHeight : number;
  pageBoundaryOf : option SplitInfo;
  ctx_height : number;
  paragraphDefaultHeight : number
}.

(** [new SplitContext(schema, doc, height, paragraphDefaultHeight)] *)
Definition newSplitContext (doc : Node) (height defaultHeight : number)
  : SplitContext :=
  mkSplitContext doc (of_Z 0) None height defaultHeight.

Definition getDoc (c : SplitContext) : Node := ctx_doc c.
Definition getHeight (c : SplitContext) : number := ctx_height c.
Definition getAccumulatedHeight (c : SplitContext) : number :=
  accumulatedHeight c.
Definition getDefaultHeight (c : SplitContext) : number :=
  paragraphDefaultHeight c.

Definition isOverflow (c : SplitContext) (height : number) : bool :=
  num_gt (num_add (accumulatedHeight c) height) (ctx_height c).

Definition isOverflowTest (c : SplitContext) (height : number) : bool :=
  let totalHeight := num_add (accumulatedHeight c) height in
  num_gt totalHeight (ctx_height c) &&
  num_ge (num_sub totalHeight (ctx_height c)) (paragraphDefaultHeight c).

Definition addHeight (c : SplitContext) (height : number) : SplitContext :=
  mkSplitContext (ctx_doc c) (num_add (accumulatedHeight c) height)
    (pageBoundaryOf c) (ctx_height c) (paragraphDefaultHeight c).

Definition setBoundary (c : SplitContext) (pos depth : Z) : SplitContext :=
  mkSplitContext (ctx_doc c) (accumulatedHeight c)
    (Some (mkSplitInfo pos depth)) (ctx_height c) (paragraphDefaultHeight c).

Definition pageBoundary (c : SplitContext) : option SplitInfo :=
  pageBoundaryOf c.

(** [splitResolve(pos)]: the resolved path cut into chunks of three.  A
    path of the model is already the list of its triples, so the chunks
    are its entries; [chunk[2]] is the third component of an entry.
    [None] models the [RangeError] of [resolve]. *)
Definition splitResolve (c : SplitContext) (pos : Z)
  : option (list PathEntry) :=
  path <$> resolve (ctx_doc c) pos.

Definition lastPage (c : SplitContext) : option Node := lastChild (ctx_doc c).

(** ** computed.ts: the split strategies, one per node kind

    The rendered element of a node is opaque to the engine; the measures
    read from it are parameters. *)
Section Strategies.

Variable Dom : Type.
Variable getDomHeight : Dom -> number.
Variable getDomPaddingAndMargin : Dom -> number.
Variable getContentSpacing : Dom -> number.
(** [getBreakPos(node, dom, splitContext)]: an offset or [null]. *)
Variable getBreakPos : Node -> Dom -> SplitContext -> option Z.

(** A strategy returns the updated context and whether the children are
    to be visited; [None] is a thrown exception. *)
Definition ComputedFn : Type :=
  SplitContext -> Node -> Z -> option Node -> Dom ->
  option (SplitContext * bool).

(** [parent?.firstChild === node].  The structural test answers as the
    source does when [node] is the first child of [parent] itself, or
    differs in structure from that first child; for a later child that is
    a twin of the first one the source answers [false] and the model
    [true]. *)
Definition isFirstChildOf (parent : option Node) (node : Node) : bool :=
  match parent with
  | None => false
  | Some p => optNode_eqb (firstChild p) (Some node)
  end.

Definition sameListCalculation : ComputedFn :=
  fun splitContext _node _pos _parent dom =>
    let pHeight := getDomHeight dom in
    if isOverflow splitContext pHeight then Some (splitContext, true)
    else Some (addHeight splitContext pHeight, false).

Definition sameItemCalculation : ComputedFn :=
  fun splitContext node pos parent dom =>
    chunks ← splitResolve splitContext pos;
    let pHeight := getDomHeight dom in
    if negb (isOverflow splitContext pHeight)
    then Some (addHeight splitContext pHeight, false)
    else if num_gt pHeight (getHeight splitContext)
    then Some (addHeight splitContext (getDomPaddingAndMargin dom), true)
    else
      let n := Z.of_nat (List.length chunks) in
      let first := isFirstChildOf parent node in
      let depth := if first then n - 2 else n - 1 in
      let boundaryPos :=
        match at_index chunks (n - 2) with
        | Some chunk =>
            if first && negb (chunk.2 =? 0) then chunk.2 else pos
        | None => pos
        end in
      Some (setBoundary splitContext boundaryPos depth, false).

Definition headingComputed : ComputedFn :=
  fun splitContext node pos _parent dom =>
    let pHeight := getDomHeight dom in
    if negb (isOverflow splitContext pHeight)
    then Some (addHeight splitContext pHeight, false)
    else
      chunks ← splitResolve splitContext pos;
      let n := Z.of_nat (List.length chunks) in
      let point :=
        if num_gt pHeight (getHeight splitContext)
        then getBreakPos node dom splitContext else None in
      match point with
      | Some p =>
          if p =? 0 then Some (setBoundary splitContext pos (n - 1), false)
          else Some (setBoundary splitContext (pos + p) n, false)
      | None => Some (setBoundary splitContext pos (n - 1), false)
      end.

Definition paragraphComputed : ComputedFn :=
  fun splitContext node pos parent dom =>
    let pHeight := getDomHeight dom in
    if negb (isOverflow splitContext pHeight)
    then Some (addHeight splitContext pHeight, false)
    else
      chunks ← splitResolve splitContext pos;
      let n := Z.of_nat (List.length chunks) in
      (* Try to split if paragraph exceeds default height *)
      let point :=
        if num_gt pHeight (getDefaultHeight splitContext)
        then getBreakPos node dom splitContext else None in
      (* Set boundary based on position in parent *)
      let fallback :=
        if isFirstChildOf parent node then
          match at_index chunks (n - 2) with
          | Some chunk =>
              if negb (chunk.2 =? 0)
              then setBoundary splitContext chunk.2 (n - 2)
              else splitContext
          | None => splitContext
          end
        else setBoundary splitContext pos (n - 1) in
      match point with
      | Some p =>
          if negb (p =? 0)
          then Some (setBoundary splitContext (pos + p) n, false)
          else Some (fallback, false)
      | None => Some (fallback, false)
      end.

Definition transientTextComputed : ComputedFn :=
  fun splitContext _node _pos _parent dom =>
    let pHeight := getDomHeight dom in
    let overflow := isOverflow splitContext pHeight in
    Some (addHeight splitContext
            (if overflow then getContentSpacing dom else pHeight),
          overflow).

Definition cassieBlockExtendComputed : ComputedFn :=
  fun splitContext _node _pos _parent _dom =>
    Some (addHeight splitContext (of_Z 8), true).

Definition pageComputed : ComputedFn :=
  fun splitContext node _pos _parent _dom =>
    Some (splitContext, optNode_eqb (Some node) (lastPage splitContext)).

(** [defaultNodesComputed]: the dispatch table, keyed by node kind. *)
Definition defaultNodesComputed : gmap string ComputedFn :=
  <[ORDEREDLIST := sameListCalculation]>
  (<[BULLETLIST := sameListCalculation]>
  (<[LISTITEM := sameItemCalculation]>
  (<[HEADING := headingComputed]>
  (<[PARAGRAPH := paragraphComputed]>
  (<[TRANSIENT_TEXT := transientTextComputed]>
  (<[CASSIE_BLOCK_EXTEND := cassieBlockExtendComputed]>
  (<[PAGE := pageComputed]> ∅))))))).

End Strategies.

(** ** types.ts: page options and page state *)

Record MarginConfig : Type := mkMarginConfig {
  margin_unit : string;
  margin_value : number
}.

Record PageMargins : Type := mkPageMargins {
  margin_top : MarginConfig;
  margin_bottom : MarginConfig;
  margin_left : MarginConfig;
  margin_right : MarginConfig
}.

Record ParagraphSpacingConfig : Type := mkParagraphSpacingConfig {
  spacing_before : MarginConfig;
  spacing_after : MarginConfig
}.

Record PageLayoutConfig : Type := mkPageLayoutConfig {
  margins : option PageMargins;
  paragraphSpacing : option ParagraphSpacingConfig
}.

Inductive PageNumberPosition : Type := PositionTop | PositionBottom.
Inductive PageNumberAlignment : Type := AlignLeft | AlignCenter | AlignRight.

Record PageNumberConfig : Type := mkPageNumberConfig {
  show : bool;
  showCount : bool;
  showOnFirstPage : bool;
  position : option PageNumberPosition;
  alignment : option PageNumberAlignment
}.

(** [bodyHeight] and [bodyWidth] are declared as numbers, but the values
    handed over at run time are unconstrained, which is why
    [onBeforeCreate] validates them: they are kept as raw values. *)
Record PageOptions : Type := mkPageOptions {
  bodyHeight : JsValue;
  bodyWidth : JsValue;
  bodyPadding : option number;
  headerHeight : option number;
  footerHeight : option number;
  pageLayout : option PageLayoutConfig;
  pageNumber : option PageNumberConfig
}.

Definition half_inch : MarginConfig := mkMarginConfig "INCHES" (Fin (1 # 2)).
Definition six_points : MarginConfig := mkMarginConfig "PTS" (of_Z 6).

Definition DEFAULT_PAGE_OPTIONS : PageOptions := {|
  bodyHeight := JUndefined;
  bodyWidth := JUndefined;
  bodyPadding := Some (of_Z 0);
  headerHeight := Some (of_Z 30);
  footerHeight := Some (of_Z 30);
  pageLayout := Some {|
    margins := Some (mkPageMargins half_inch half_inch half_inch half_inch);
    paragraphSpacing := Some (mkParagraphSpacingConfig six_points six_points)
  |};
  pageNumber := Some (mkPageNumberConfig false false false None None)
|}.

(** A transaction of the host editor: the current document, the steps
    applied so far, and the metadata flags attached by the caller.  The
    source reads the flags with a cast to [boolean]; they are modelled as
    booleans, and a missing (or nullish) flag is an absent key. *)
Record Transaction : Type := mkTransaction {
  tr_doc : Node;
  tr_steps : Z;
  tr_meta : gmap string bool
}.

Definition getMeta (tr : Transaction) (key : string) : option bool :=
  tr_meta tr !! key.

Record PageState : Type := mkPageState {
  bodyOptions : PageOptions;
  deleting : bool;
  inserting : bool;
  splitPage : bool
}.

(** [PageState.transform(tr)] *)
Definition transform (s : PageState) (tr : Transaction) : PageState :=
  let splitPage := default false (getMeta tr "splitPage") in
  let inserting := default false (getMeta tr "inserting") in
  let deleting := default false (getMeta tr "deleting") in
  mkPageState (bodyOptions s) deleting inserting splitPage.

(** ** page-extension.ts: merging and validating the options *)

Definition deepMerge (defaults userOptions : PageOptions) : PageOptions :=
  let layout :=
    match pageLayout userOptions with
    | Some ul =>
        let dl := pageLayout defaults in
        Some {|
          margins :=
            Some (default
                    (default (mkPageMargins half_inch half_inch
                                            half_inch half_inch)
                             (dl ≫= margins))
                    (margins ul));
          paragraphSpacing :=
            Some (default
                    (default (mkParagraphSpacingConfig six_points six_points)
                             (dl ≫= paragraphSpacing))
                    (paragraphSpacing ul))
        |}
    | None => pageLayout defaults
    end in
  let pnumber :=
    match pageNumber userOptions with
    | Some un =>
        let dn := pageNumber defaults in
        Some {|
          show := show un;
          showCount := showCount un;
          showOnFirstPage := showOnFirstPage un;
          position :=
            match position un with
            | Some p => Some p
            | None => dn ≫= position
            end;
          alignment :=
            match alignment un with
            | Some a => Some a
            | None => dn ≫= alignment
            end
        |}
    | None => pageNumber defaults
    end in
  let pick {A} (u d : option A) : option A :=
    match u with Some x => Some x | None => d end in
  {|
    bodyHeight :=
      match bodyHeight userOptions with
      | JUndefined => bodyHeight defaults
      | v => v
      end;
    bodyWidth :=
      match bodyWidth userOptions with
      | JUndefined => bodyWidth defaults
      | v => v
      end;
    bodyPadding := pick (bodyPadding userOptions) (bodyPadding defaults);
    headerHeight := pick (headerHeight userOptions) (headerHeight defaults);
    footerHeight := pick (footerHeight userOptions) (footerHeight defaults);
    pageLayout := layout;
    pageNumber := pnumber
  |}.

(** The four configuration errors thrown by [onBeforeCreate], in the
    order they are tested. *)
Inductive ConfigError : Type :=
| BodyHeightRequired
| BodyWidthRequired
| BodyHeightNotPositive
| BodyWidthNotPositive.

Definition isNullish (v : JsValue) : bool :=
  match v with
  | JUndefined | JNull => true
  | _ => false
  end.

(** [typeof v !== 'number' || v <= 0] *)
Definition notPositiveNumber (v : JsValue) : bool :=
  match v with
  | JNum n => num_le n (of_Z 0)
  | _ => true
  end.

(** [onBeforeCreate]: either an error is thrown, or the extension goes on
    with the merged options (from which the measuring frame is built). *)
Definition onBeforeCreate (options : PageOptions)
  : ConfigError + PageOptions :=
  let bodyHeight := bodyHeight options in
  let bodyWidth := bodyWidth options in
  if isNullish bodyHeight then inl BodyHeightRequired
  else if isNullish bodyWidth then inl BodyWidthRequired
  else if notPositiveNumber bodyHeight then inl BodyHeightNotPositive
  else if notPositiveNumber bodyWidth then inl BodyWidthNotPositive
  else inr (deepMerge DEFAULT_PAGE_OPTIONS options).

(** ** computed.ts: PageComputedContext *)

(** Keys of a JavaScript [Map] are arbitrary values. *)
#[global] Instance number_countable : Countable number.
Proof.
  refine (inj_countable'
            (fun n => match n with
                      | NaN => None
                      | Fin q => Some (inl (Qnum q, Qden q))
                      | Inf s => Some (inr s)
                      end)
            (fun o => match o with
                      | None => NaN
                      | Some (inl (a, b)) => Fin (a # b)
                      | Some (inr s) => Inf s
                      end)
            _).
  intros [|[a b]|s]; reflexivity.
Defined.

#[global] Instance JsValue_countable : Countable JsValue.
Proof.
  refine (inj_countable'
            (fun v => match v with
                      | JUndefined => inl (inl 0%nat)
                      | JNull => inl (inl 1%nat)
                      | JObj => inl (inl 2%nat)
                      | JBool b => inl (inr b)
                      | JNum n => inr (inl n)
                      | JStr s => inr (inr s)
                      end)
            (fun e => match e with
                      | inl (inl 0%nat) => JUndefined
                      | inl (inl 1%nat) => JNull
                      | inl (inl _) => JObj
                      | inl (inr b) => JBool b
                      | inr (inl n) => JNum n
                      | inr (inr s) => JStr s
                      end)
            _).
  intros []; reflexivity.
Defined.

(** *** removeElementsWithDuplicateId *)

Record NodeData : Type := mkNodeData {
  nd_node : Node;
  nd_pos : Z
}.

Inductive Operation : Type :=
| OpDelete (from to : Z)
| OpChangeId (from : Z).

Definition op_from (o : Operation) : Z :=
  match o with
  | OpDelete from _ => from
  | OpChangeId from => from
  end.

(** The callback handed to [doc.descendants]: the state is the id map and
    the operations pushed so far. *)
Definition dedupeVisit (st : gmap JsValue NodeData * list Operation)
    (node : Node) (pos : Z) (_parent : Node) (_index : Z)
  : (gmap JsValue NodeData * list Operation) * bool :=
  let '(idMap, operations) := st in
  let id := attr node "id" in
  if negb (truthy id) || String.eqb (name (type node)) TEXT then (st, false)
  else
    match idMap !! id with
    | Some oldNodeData =>
        let newNodeData := mkNodeData node pos in
        let '(deleteNode, preserveNode) :=
          if nodeSize (nd_node oldNodeData) >? nodeSize (nd_node newNodeData)
          then (oldNodeData, newNodeData)
          else (newNodeData, oldNodeData) in
        let shouldDelete :=
          includes (textContent (nd_node preserveNode))
                   (textContent (nd_node deleteNode)) &&
          (0 <? childCount (nd_node deleteNode)) in
        let operation :=
          if shouldDelete
          then OpDelete (nd_pos deleteNode + 1)
                        (nd_pos deleteNode + nodeSize (nd_node deleteNode) + 1)
          else OpChangeId (nd_pos deleteNode) in
        ((<[id := preserveNode]> idMap, operations ++ [operation]), false)
    | None =>
        ((<[id := mkNodeData node pos]> idMap, operations), true)
    end.

(** [operations.sort((a, b) => a.from - b.from)]: a stable sort, here by
    insertion from the right, an operation going before the ones already
    placed that start at the same position or later. *)
Fixpoint insertByFrom (o : Operation) (l : list Operation) : list Operation :=
  match l with
  | [] => [o]
  | x :: l' =>
      if op_from o <=? op_from x then o :: l else x :: insertByFrom o l'
  end.

Definition sortByFrom (l : list Operation) : list Operation :=
  foldr insertByFrom [] l.

(** The operations decided by the scan of the document, before they are
    replayed on the transaction. *)
Definition duplicateIdOperations (doc : Node) : list Operation :=
  sortByFrom (descendants dedupeVisit doc (∅, [])).2.

(** *** mergeDefaultDocument *)

(** [includes] on the type name of an optional node: [undefined] when the
    node is missing, which is falsy. *)
Definition typeNameIncludes (n : option Node) (s : string) : bool :=
  match n with
  | Some x => includes (name (type x)) s
  | None => false
  end.

(** [node?.attrs?.extend], tested for truthiness. *)
Definition extendFlag (n : option Node) : bool :=
  match n with
  | Some x => truthy (attr x "extend")
  | None => false
  end.

(** The depth chosen by one evaluation of the loop body.  The test
    [lastChild !== firstChild] fails in the source only on a document of
    a single page (or none); the structural test also fails on a document
    of several pages whose first and last page are twins. *)
Definition mergeDepth (doc : Node) : Z :=
  if negb (optNode_eqb (lastChild doc) (firstChild doc)) then
    let prePage := child doc (childCount doc - 2) in
    let lastPage := lastChild doc in
    let canMergeDeep :=
      (bool_decide (type <$> (lastPage ≫= firstChild) =
                    type <$> (prePage ≫= lastChild))
       || typeNameIncludes (lastPage ≫= firstChild) EXTEND)
      && extendFlag (lastPage ≫= firstChild) in
    if canMergeDeep then 2 else 1
  else 1.

(** [tr.join(pos, depth)] for the joins this loop issues: [pos] lies
    between two children of the document, and one or two levels are
    joined.  Joining removes the closing tokens before [pos] and the
    opening tokens after it, so the right node's content continues the
    left node, which keeps its own type and attributes.  [None] is the
    exception raised when the tokens are not there.  Two things ProseMirror
    does on a join are left out: adjacent text nodes with the same marks
    stay two nodes here where ProseMirror makes them one, and the joined
    content is not checked against the schema, so that a join ProseMirror
    would refuse for its content returns a node here. *)
Definition isBranch (n : Node) : bool :=
  negb (isText n) && negb (isLeaf (type n)).

Definition joinNodes (depth : Z) (l r : Node) : option Node :=
  if negb (isBranch l && isBranch r) then None
  else if depth =? 1 then Some (copy l (content l ++ content r))
  else if depth =? 2 then
    match lastChild l, content r with
    | Some ll, rf :: rest =>
        if isBranch ll && isBranch rf
        then Some (copy l (removelast (content l)
                           ++ [copy ll (content ll ++ content rf)] ++ rest))
        else None
    | _, _ => None
    end
  else None.

Fixpoint joinChildren (cs : list Node) (pos depth : Z) : option (list Node) :=
  match cs with
  | l :: ((r :: rest) as cs') =>
      if pos =? nodeSize l then
        j ← joinNodes depth l r; Some (j :: rest)
      else if pos <? nodeSize l then None
      else tl ← joinChildren cs' (pos - nodeSize l) depth; Some (l :: tl)
  | _ => None
  end.

Definition join (tr : Transaction) (pos depth : Z) : option Transaction :=
  cs ← joinChildren (content (tr_doc tr)) pos depth;
  Some (mkTransaction (copy (tr_doc tr) cs) (tr_steps tr + 1) (tr_meta tr)).

(** One evaluation of the [while] loop: [None] when the loop condition
    fails; otherwise the chosen depth and the outcome of the join. *)
Definition mergeStep (count : Z) (tr : Transaction)
  : option (Z * option Transaction) :=
  if childCount (tr_doc tr) >? count then
    let nodeSize :=
      match lastChild (tr_doc tr) with
      | Some p => nodeSize p
      | None => 0
      end in
    let depth := mergeDepth (tr_doc tr) in
    Some (depth, join tr (contentSize (tr_doc tr) - nodeSize) depth)
  else None.

(** The loop, with one unit of fuel per evaluation of its body. *)
Fixpoint mergeLoop (fuel : nat) (count : Z) (tr : Transaction)
  : Outcome Transaction :=
  match fuel with
  | O => OutOfFuel
  | S fuel' =>
      match mergeStep count tr with
      | None => Done tr
      | Some (_, None) => Thrown
      | Some (_, Some tr') => mergeLoop fuel' count tr'
      end
  end.

Definition mergeDefaultDocument (count : Z) (tr : Transaction)
  : Outcome Transaction :=
  mergeLoop (S (List.length (content (tr_doc tr)))) count tr.

(** ** Node constructors used in the examples *)

Definition textType : NodeType := mkNodeType TEXT true.
Definition blockType (nm : string) : NodeType := mkNodeType nm false.

Definition textNode (s : string) : Node := mkNode textType ∅ [] s.

(** A block with the global attributes [id] and [extend]. *)
Definition block (nm : string) (id : JsValue) (extend : bool)
    (cs : list Node) : Node :=
  mkNode (blockType nm) (<["id" := id]> {["extend" := JBool extend]}) cs "".

Definition paragraph (id : JsValue) (s : string) : Node :=
  block PARAGRAPH id false (if String.eqb s "" then [] else [textNode s]).

Definition pageNode (id : JsValue) (number : Z) (cs : list Node) : Node :=
  mkNode (blockType PAGE)
         (<["id" := id]> {["pageNumber" := JNum (of_Z number)]}) cs "".

Definition docNode (pages : list Node) : Node :=
  mkNode (blockType DOC) ∅ pages "".

(** *** calculateOrderedListStart *)

Record ParentNode : Type := mkParentNode {
  pn_pos : Z;
  pn_start : Z;
  pn_depth : Z;
  pn_node : Node
}.

(** Modelled from the spec: the loop of [findParentNodeClosestToPos]
    (see below), from depth [i] upwards for [steps] levels. *)
Fixpoint closestFrom (r : ResolvedPos) (predicate : Node -> bool)
    (steps : nat) (i : Z) : option ParentNode :=
  match steps with
  | O => None
  | S steps' =>
      match nodeAt r i, beforeAt r i, startAt r i with
      | Some node, Some before, Some start =>
          if predicate node then Some (mkParentNode before start i node)
          else closestFrom r predicate steps' (i - 1)
      | _, _, _ => closestFrom r predicate steps' (i - 1)
      end
  end.

(** Modelled from the spec: [findParentNodeClosestToPos] of [utils/node]
    is not among the sources.  It is the helper that finds "the ancestor
    being split": walking from the depth of the position up to depth 1, it
    returns the first (innermost) ancestor that satisfies the predicate,
    with the position before it, the position where its content starts
    and its depth; there is no result when no ancestor qualifies. *)
Definition findParentNodeClosestToPos (r : ResolvedPos)
    (predicate : Node -> bool) : option ParentNode :=
  closestFrom r predicate (Z.to_nat (depthOf r)) (depthOf r).

Definition isNamed (nm : string) (n : Node) : bool :=
  String.eqb (name (type n)) nm.

(** The inner [for] loop of the counting callbacks: is some ancestor of
    the resolved position, from its depth up to depth 1, an ordered
    list? *)
Fixpoint orderedListAbove (r : ResolvedPos) (steps : nat) (d : Z) : bool :=
  match steps with
  | O => false
  | S steps' =>
      match nodeAt r d with
      | Some n =>
          if isNamed ORDEREDLIST n then true
          else orderedListAbove r steps' (d - 1)
      | None => orderedListAbove r steps' (d - 1)
      end
  end.

(** The callback of the two counting traversals: [lower] is [None] for
    the count "from the beginning" and the start of the sequence
    otherwise.  The state is the running count, or a thrown exception. *)
Definition countVisit (doc : Node) (lower : option Z) (splitPos : Z)
    (st : Outcome Z) (node : Node) (pos : Z) (_parent : Node) (_index : Z)
  : Outcome Z * bool :=
  match st with
  | Done totalItemCount =>
      if isNamed LISTITEM node
         && match lower with Some currentPos => pos >=? currentPos | None => true end
         && (pos <? splitPos)
      then
        match resolve doc pos with
        | Some itemPos =>
            if orderedListAbove itemPos (Z.to_nat (depthOf itemPos))
                 (depthOf itemPos)
            then (Done (totalItemCount + 1), true)
            else (st, true)
        | None => (Thrown, true)
        end
      else (st, true)
  | _ => (st, true)
  end.

(** The [while] loop that walks back to the start of the sequence: as
    long as the position before [currentPos] lies directly inside an
    ordered list, move to the start of that list. *)
Fixpoint sequenceStart (fuel : nat) (doc : Node) (currentPos : Z)
  : Outcome Z :=
  match fuel with
  | O => OutOfFuel
  | S fuel' =>
      if currentPos >? 0 then
        r ← orThrow (resolve doc (currentPos - 1));
        n ← orThrow (nodeAt r (depthOf r));
        if isNamed ORDEREDLIST n then
          s ← orThrow (startAt r (depthOf r));
          sequenceStart fuel' doc s
        else Done currentPos
      else Done currentPos
  end.

Definition calculateOrderedListStart (doc : Node) (_listNode : Node)
    (splitPos : Z) : Outcome Z :=
  r ← orThrow (resolve doc splitPos);
  match findParentNodeClosestToPos r (isNamed ORDEREDLIST) with
  | None => Done 1
  | Some parentOrderedList =>
      let isPageSplit :=
        strict_eq (attr (pn_node parentOrderedList) "extend") (JBool true) in
      totalItemCount ←
        (if isPageSplit then
           descendants (countVisit doc None splitPos) doc (Done 0)
         else
           currentPos ← sequenceStart
                          (S (Z.to_nat (pn_start parentOrderedList))) doc
                          (pn_start parentOrderedList);
           descendants (countVisit doc (Some currentPos) splitPos) doc
             (Done 0));
      Done (totalItemCount + 1)
  end.

(** *** splitPage *)

(** The schema, as far as [splitPage] consults it: the node types by
    name.  [type.create] and [type.createAndFill] build a node of the type
    with the attributes and content given (content that already fits is
    not filled further, and the model does not check content
    expressions). *)
Definition Schema : Type := gmap string NodeType.

Definition create (t : NodeType) (a : gmap string JsValue)
    (c : list Node) : Node :=
  mkNode t a c "".

(** [Object.assign({}, a, b)]: the entries of [b] override those of [a]. *)
Definition assign (a b : gmap string JsValue) : gmap string JsValue := b ∪ a.

Section SplitPage.

(** [getId()] draws fresh identifiers; the supply is threaded as a
    counter into an enumeration of the identifiers drawn. *)
Variable freshId : nat -> string.

Definition getId (supply : nat) : JsValue * nat :=
  (JStr (freshId supply), S supply).

(** The node that reopens the ancestor [n] on the "after" side, for the
    content [after] gathered so far. *)
Definition reopenedNode (schema : Schema) (doc : Node) (pos : Z)
    (n : Node) (after : list Node) (supply : nat)
  : Outcome (option Node * nat) :=
  let na := copy n after in
  match schema !! String.append (name (type n)) EXTEND with
  | Some extendType =>
      let '(id, supply) := getId supply in
      let attr := assign (attrs n) {["id" := id]} in
      Done (Some (create extendType attr after), supply)
  | None =>
      if truthy (attr na "id") then
        let extend : gmap string JsValue :=
          if strict_eq (attr na "extend") (JBool false)
          then {["extend" := JBool true]} else ∅ in
        extend ←
          (if isNamed ORDEREDLIST n then
             startNumber ← calculateOrderedListStart doc n pos;
             Done (<["start" := JNum (of_Z startNumber)]> extend)
           else Done extend);
        let '(id, supply) := getId supply in
        let attr := assign (attrs n) (<["id" := id]> extend) in
        Done ((fun t => create t attr after) <$> schema !! name (type n),
              supply)
      else Done (Some na, supply)
  end.

(** The fragments built by the [for] loop, innermost level first:
    [steps] levels remain, [d] is the depth of the ancestor handled and
    [i] the index into [typesAfter]. *)
Fixpoint splitLevels (schema : Schema) (doc : Node) (r : ResolvedPos)
    (pos : Z) (typesAfter : list (option NodeType))
    (steps : nat) (d i : Z) (before after : list Node) (supply : nat)
  : Outcome (list Node * list Node * nat) :=
  match steps with
  | O => Done (before, after, supply)
  | S steps' =>
      n ← orThrow (nodeAt r d);
      let before := [copy n before] in
      let typeAfter := mjoin (at_index typesAfter i) in
      '(na, supply) ← reopenedNode schema doc pos n after supply;
      let '(after, supply) :=
        match typeAfter with
        | Some t =>
            let '(id, supply) := getId supply in
            let pageNumber :=
              match na with
              | Some x => js_succ (attr x "pageNumber")
              | None => JNum NaN
              end in
            ([create t (<["id" := id]> {["pageNumber" := pageNumber]}) after],
             supply)
        | None => (option_list na, supply)
        end in
      splitLevels schema doc r pos typesAfter steps' (d - 1) (i - 1)
        before after supply
  end.

(** The replace step issued by [splitPage]: the slice
    [before.append(after)], open by [depth] on both sides, inserted at
    [pos]. *)
Record SplitStep : Type := mkSplitStep {
  step_pos : Z;
  step_before : list Node;
  step_after : list Node;
  step_depth : Z
}.

Definition splitPageStep (schema : Schema) (doc : Node) (pos depth : Z)
    (typesAfter : list (option NodeType)) (supply : nat)
  : Outcome (SplitStep * nat) :=
  r ← orThrow (resolve doc pos);
  '(before, after, supply) ←
    splitLevels schema doc r pos typesAfter (Z.to_nat depth)
      (depthOf r) (depth - 1) [] [] supply;
  Done (mkSplitStep pos before after depth, supply).

End SplitPage.

(** *** run *)

Record Selection : Type := mkSelection {
  sel_from : Z;
  sel_head : Z
}.

Record EditorState : Type := mkEditorState {
  state_doc : Node;
  selection : Selection;
  schema : Schema
}.

(** [state.tr]: a fresh transaction on the document of the state. *)
Definition state_tr (state : EditorState) : Transaction :=
  mkTransaction (state_doc state) 0 ∅.

(** [fragment.findIndex(pos).index]: the index of the child that contains
    or starts at the position ([None] outside of the fragment). *)
Fixpoint findIndexFrom (cs : list Node) (pos i curPos : Z) : option Z :=
  match cs with
  | [] => None
  | c :: cs' =>
      let end_ := curPos + nodeSize c in
      if end_ >=? pos then
        if end_ =? pos then Some (i + 1) else Some i
      else findIndexFrom cs' pos (i + 1) end_
  end.

Definition findIndex (cs : list Node) (pos : Z) : option Z :=
  if pos =? 0 then Some 0
  else if pos =? fragmentSize cs then Some (Z.of_nat (List.length cs))
  else if (pos >? fragmentSize cs) || (pos <? 0) then None
  else findIndexFrom cs pos 0 0.

(** [tr.insert(pos, node)] for a position on a boundary between children
    where the node is allowed: the node becomes a child there.  [pos] is
    relative to the start of the content of [parent]. *)
Definition placeIn (inside : Node -> Z -> Node -> option Node) (pos : Z)
    (new : Node) : list Node -> Z -> option (list Node) :=
  fix place (cs : list Node) (curPos : Z) : option (list Node) :=
    match cs with
    | [] => None
    | c :: cs' =>
        let end_ := curPos + nodeSize c in
        if end_ =? pos then Some (c :: new :: cs')
        else if pos <? end_ then
          if isText c then None
          else c' ← inside c (pos - curPos - 1) new; Some (c' :: cs')
        else tl ← place cs' end_; Some (c :: tl)
    end.

Fixpoint insertInto (parent : Node) (pos : Z) (new : Node) : option Node :=
  if pos =? 0 then Some (copy parent (new :: content parent))
  else copy parent <$> placeIn insertInto pos new (content parent) 0.

Definition insert (tr : Transaction) (pos : Z) (node : Node)
  : Outcome Transaction :=
  doc ← orThrow (insertInto (tr_doc tr) pos node);
  Done (mkTransaction doc (tr_steps tr + 1) (tr_meta tr)).

(** [!doc.firstChild?.content.size] and [doc.firstChild?.content.size] *)
Definition firstPageEmpty (doc : Node) : bool :=
  match firstChild doc with
  | Some p => contentSize p =? 0
  | None => true
  end.

Definition firstPageHasContent (doc : Node) : bool :=
  match firstChild doc with
  | Some p => negb (contentSize p =? 0)
  | None => false
  end.

Section Run.

(** Collaborators of [run] that act through the host editor or through
    measurements of the rendered page: the replay of one dedupe
    operation on the transaction ([tr.mapping.map], [tr.deleteRange],
    [tr.setNodeAttribute] with a fresh id), the split loop
    [splitDocument], and the repair pass [checkNodeAndFix]. *)
Variable replayOperation : Transaction -> Operation -> Transaction.
Variable splitDocument : Transaction -> Outcome Transaction.
Variable checkNodeAndFix : Transaction -> Outcome Transaction.
(** [type.createAndFill()]: the node the schema makes of the type, with
    the default attributes of the type and the content the type requires,
    or [null] when no such content exists; it throws when an attribute of
    the type has no default.  The attributes and the content rules of a
    type belong to the schema of the host editor. *)
Variable createAndFill : NodeType -> Outcome (option Node).

Definition removeElementsWithDuplicateId (tr : Transaction) : Transaction :=
  foldl replayOperation tr (duplicateIdOperations (tr_doc tr)).

Definition mergeDocument (state : EditorState) (tr : Transaction)
  : Outcome Transaction :=
  i ← orThrow (findIndex (content (tr_doc tr)) (sel_head (selection state)));
  mergeDefaultDocument (i + 1) tr.

Definition computed (state : EditorState) (tr : Transaction)
  : Outcome Transaction :=
  s ← orThrow (findIndex (content (tr_doc tr)) (sel_from (selection state)));
  c ← orThrow (findIndex (content (tr_doc tr)) (sel_head (selection state)));
  let startNumber := s + 1 in
  let curNumber := c + 1 in
  tr ← (if (childCount (tr_doc tr) >? 1)
           && (negb (childCount (tr_doc tr) =? curNumber)
               || negb (curNumber =? startNumber))
        then mergeDocument state tr else Done tr);
  splitDocument tr.

Definition initComputed (tr : Transaction) : Outcome Transaction :=
  tr ← mergeDefaultDocument 1 tr;
  splitDocument tr.

(** [selection.$head.node(1) === doc.lastChild].  The head of a
    selection is held resolved in the document of its state; a head
    outside of the document has no node at depth 1.  The comparison is
    structural: a head in an earlier page that is a twin of the last page
    counts as a head in the last page. *)
Definition headInLastPage (state : EditorState) : bool :=
  match resolve (state_doc state) (sel_head (selection state)) with
  | Some r =>
      match nodeAt r 1, lastChild (state_doc state) with
      | Some a, Some b => Node_eqb a b
      | _, _ => false
      end
  | None => false
  end.

Definition run (pageState : PageState) (state prevState : EditorState)
  : Outcome Transaction :=
  let tr := removeElementsWithDuplicateId (state_tr state) in
  if splitPage pageState then initComputed tr
  else
    if negb (inserting pageState) && deleting pageState
       && headInLastPage state && (tr_steps tr =? 0)
    then Done tr
    else
      tr ← (if inserting pageState || deleting pageState
            then tr ← computed state tr; checkNodeAndFix tr
            else Done tr);
      (* If transaction returns an empty page, add a paragraph *)
      if firstPageEmpty (tr_doc tr)
         && firstPageHasContent (state_doc prevState)
      then
        match schema state !! PARAGRAPH with
        | Some t =>
            paragraph ← createAndFill t;
            match paragraph with
            | Some p => insert tr (contentSize (tr_doc tr) - 1) p
            | None => Done tr
            end
        | None => Done tr
        end
      else Done tr.

End Run.

(** * Vocabulary of the statements and sample inputs *)

(** The mathematical reading of [a <= b]. *)
Inductive Le_number : number -> number -> Prop :=
| Le_fin (x y : Q) : (x <= y)%Q -> Le_number (Fin x) (Fin y)
| Le_ninf_fin (y : Q) : Le_number (Inf true) (Fin y)
| Le_fin_inf (x : Q) : Le_number (Fin x) (Inf false)
| Le_ninf_inf (t : bool) : Le_number (Inf true) (Inf t)
| Le_inf_pinf (s : bool) : Le_number (Inf s) (Inf false).

(** The sum of two numbers as IEEE 754 defines it: the exact sum of two
    finite numbers rounded to the nearest double; an infinity absorbs a
    finite number; the two opposite infinities and every sum with [NaN]
    give [NaN]. *)
Inductive IeeeSum : number -> number -> number -> Prop :=
| Sum_fin (x y : Q) : IeeeSum (Fin x) (Fin y) (binary64 (x + y))
| Sum_inf_fin (s : bool) (y : Q) : IeeeSum (Inf s) (Fin y) (Inf s)
| Sum_fin_inf (x : Q) (s : bool) : IeeeSum (Fin x) (Inf s) (Inf s)
| Sum_inf_inf (s : bool) : IeeeSum (Inf s) (Inf s) (Inf s)
| Sum_inf_opposite (s : bool) : IeeeSum (Inf s) (Inf (negb s)) NaN
| Sum_nan_left (b : number) : IeeeSum NaN b NaN
| Sum_nan_right (a : number) : IeeeSum a NaN NaN.

(** The exact sum of two rationals is a double: adding them rounds
    nothing away. *)
Definition exactSum (x y : Q) : Prop :=
  exists s, binary64 (x + y) = Fin s /\ (s == x + y)%Q.

(** The double nearest to the decimal fraction [n / d]. *)
Definition decimal (n : Z) (d : positive) : number := binary64 (n # d).

(** A dimension is rejected when it is missing, when it is not of type
    number, or when it is a number less than or equal to zero. *)
Definition invalidDimension (v : JsValue) : Prop :=
  v = JUndefined \/ v = JNull \/ typeof v <> TNumber
  \/ exists n, v = JNum n /\ Le_number n (of_Z 0).

Definition positiveDimension (v : JsValue) : Prop :=
  exists n, v = JNum n /\ Gt_number n (of_Z 0).

Definition a4Options : PageOptions :=
  mkPageOptions (JNum (of_Z 1056)) (JNum (of_Z 816)) None None None None None.


(** No code unit of the string is a space. *)
Definition noSpaceIn (s : string) : Prop :=
  forall i : nat, String.get i s <> Some space.

(** The shapes a break offset returned by the search can have: no break;
    the index of a space of the text (the cut falls right before it); the
    offset 1 right after a leading space; or the end of a prefix of more
    than 7 code units that holds no space at all. *)
Definition breakShape (fullText : string) (r : Z) : Prop :=
  r = 0
  \/ (0 < r < len fullText /\ charAt fullText r = Some space)
  \/ (r = 1 /\ charAt fullText 0 = Some space)
  \/ (7 < r <= len fullText /\ noSpaceIn (slice fullText 0 r)).

(** The offset lies at a space boundary: a space is right after or right
    before the cut. *)
Definition atSpaceBoundary (fullText : string) (r : Z) : Prop :=
  charAt fullText r = Some space \/ charAt fullText (r - 1) = Some space.

(** The first and the last page of the document are one and the same
    only when the document has a single page: no page stands at both
    ends, be it one node held twice or two equal copies.  For such a
    document the comparison of the two by structure, which the model
    makes, and their comparison by reference, which the code makes, agree
    with "the document has more than one page". *)
Definition distinctEnds (doc : Node) : Prop :=
  1 < childCount doc -> firstChild doc <> lastChild doc.

(** The condition under which the merge loop joins two levels deep: the
    document has more than one page (the last page is not the first one),
    the first child of the last page carries a truthy [extend] attribute,
    and that child either has the type of the last child of the previous
    page or a type whose name contains "Extend". *)
Definition mergesDeep (doc : Node) : Prop :=
  1 < childCount doc
  /\ exists lastPage first,
       lastChild doc = Some lastPage
       /\ firstChild lastPage = Some first
       /\ truthy (attr first "extend") = true
       /\ (type <$> (child doc (childCount doc - 2) ≫= lastChild)
             = Some (type first)
           \/ includes (name (type first)) EXTEND = true).

(** The condition as the claim words it: the first child of the last page
    and the last child of the previous page are of the same kind, and the
    former carries the [extend] flag. *)
Definition sameKindAndExtend (doc : Node) : Prop :=
  exists lastPage first prevLast,
    lastChild doc = Some lastPage
    /\ firstChild lastPage = Some first
    /\ child doc (childCount doc - 2) ≫= lastChild = Some prevLast
    /\ type first = type prevLast
    /\ truthy (attr first "extend") = true.

(** Three pages; the last one opens with a continuation block of kind
    "NodeExtend", while the page before it ends with a block of kind
    "Node". *)
Definition threePages : Node :=
  docNode
    [pageNode (JStr "p1") 1 [paragraph (JStr "a") "Hello"];
     pageNode (JStr "p2") 2
       [block PARAGRAPH (JStr "b") true [textNode "world"];
        block CASSIE_BLOCK (JStr "c") false [paragraph (JStr "c1") "x"]];
     pageNode (JStr "p3") 3
       [block CASSIE_BLOCK_EXTEND (JStr "d") true [paragraph (JStr "e") "zz"];
        paragraph (JStr "f") "y"]].

(** The arguments the walk calls a strategy with: the position, resolved
    as [r], points at [node], the child with index [i] of [parent], and
    the children of [parent] are pairwise different.  A child is then told
    from its siblings by its structure as it is by reference, and it is
    the first child exactly when its index is 0. *)
Definition childAt (r : ResolvedPos) (parent : option Node) (node : Node)
    (i : Z) : Prop :=
  exists p start,
    parent = Some p
    /\ last (path r) = Some (p, i, start)
    /\ child p i = Some node
    /\ NoDup (content p).

(** The paragraph strategy takes no interior break: the paragraph is not
    taller than a default line, or the search for a break position finds
    none. *)
Definition noInteriorBreak (pHeight : number) (c : SplitContext)
    (point : option Z) : Prop :=
  num_gt pHeight (getDefaultHeight c) = false
  \/ point = None \/ point = Some 0.

(** A rendered element is represented by its measured height in the
    samples; no break position is ever found (as for a paragraph made
    tall by an inline element rather than by lines of text). *)
Definition sampleHeight (dom : number) : number := dom.
Definition sampleNoBreak (_ : Node) (_ : number) (_ : SplitContext)
  : option Z := None.

Definition tallParagraph : Node := paragraph (JStr "tall") "Figure".

(** A single page that opens with the tall paragraph, and a document
    whose second page does. *)
Definition onePage : Node :=
  docNode [pageNode (JStr "p1") 1 [tallParagraph]].

Definition twoPages : Node :=
  docNode [pageNode (JStr "p1") 1 [paragraph (JStr "a") "Hello"];
           pageNode (JStr "p2") 2 [tallParagraph; paragraph (JStr "b") "x"]].

(** Two paragraphs that share the id "X", with the texts of the spec
    example. *)
Definition helloParagraph : Node := paragraph (JStr "X") "Hello".
Definition helloWorldParagraph : Node := paragraph (JStr "X") "Hello world".

Definition sharedIdPage : Node :=
  docNode [pageNode (JStr "p1") 1 [helloParagraph; helloWorldParagraph]].

(** An exact duplicate: the same paragraph twice. *)
Definition duplicatePage : Node :=
  docNode [pageNode (JStr "p1") 1 [helloParagraph; helloParagraph]].

(** Sample editor states: after the edit the first page is empty and the
    head of the selection sits in the paragraph of the second, last page;
    before the edit the first page held a paragraph. *)
Definition sampleSchema : Schema :=
  <[PARAGRAPH := blockType PARAGRAPH]> {[PAGE := blockType PAGE]}.

Definition emptyFirstPage : Node :=
  docNode [pageNode (JStr "p1") 1 [];
           pageNode (JStr "p2") 2 [paragraph (JStr "b") "a"]].

Definition filledFirstPage : Node :=
  docNode [pageNode (JStr "p1") 1 [paragraph (JStr "a") "x"];
           pageNode (JStr "p2") 2 [paragraph (JStr "b") "a"]].

Definition stateAfterEdit : EditorState :=
  mkEditorState emptyFirstPage (mkSelection 4 4) sampleSchema.

Definition stateBeforeEdit : EditorState :=
  mkEditorState filledFirstPage (mkSelection 7 7) sampleSchema.

(** A single page emptied by the edit. *)
Definition emptiedPage : Node := docNode [pageNode (JStr "p1") 1 []].

Definition stateEmptied : EditorState :=
  mkEditorState emptiedPage (mkSelection 1 1) sampleSchema.

(** [createAndFill] for a schema whose block types carry the attributes
    [id] and [extend], with the defaults [null] and [false], and need no
    content. *)
Definition filledWithDefaults (t : NodeType) : Outcome (option Node) :=
  Done (Some (mkNode t (<["id" := JNull]> {["extend" := JBool false]}) [] "")).

(** Collaborators that leave the transaction alone, for the runs that do
    not depend on them. *)
Definition idleReplay (tr : Transaction) (_ : Operation) : Transaction := tr.
Definition idlePass (tr : Transaction) : Outcome Transaction := Done tr.

(** Sample lists.  A list item holds one paragraph. *)
Definition listItem (id : string) (s : string) : Node :=
  block LISTITEM (JStr id) false
    [paragraph (JStr (String.append id "-p")) s].

Definition orderedList (id : string) (extend : bool) (items : list Node)
  : Node :=
  block ORDEREDLIST (JStr id) extend items.

Definition listSchema : Schema :=
  <[ORDEREDLIST := blockType ORDEREDLIST]>
  (<[LISTITEM := blockType LISTITEM]>
  (<[PARAGRAPH := blockType PARAGRAPH]> {[PAGE := blockType PAGE]})).

(** One page with one flat list of three items. *)
Definition flatList : Node := 
  orderedList "L" false [listItem "i1" "a"; listItem "i2" "b"; listItem "i3" "c"].

Definition flatListPage : Node := docNode [pageNode (JStr "p1") 1 [flatList]].

(** Page 1 holds the list A, a paragraph, and the first fragment of the
    list B; page 2 holds the continuation of B, flagged [extend]. *)
Definition listA : Node := orderedList "A" false [listItem "a1" "a"].
Definition listB : Node := orderedList "B" false [listItem "b1" "b"].
Definition listB2 : Node :=
  orderedList "B2" true [listItem "b2" "c"; listItem "b3" "d"].

Definition continuedList : Node :=
  docNode [pageNode (JStr "p1") 1 [listA; paragraph (JStr "x") "x"; listB];
           pageNode (JStr "p2") 2 [listB2]].

(** A list whose first item holds a nested list. *)
Definition nestedList : Node :=
  orderedList "A" false
    [block LISTITEM (JStr "a1") false
       [paragraph (JStr "a1-p") "a";
        orderedList "N" false [listItem "n1" "n"; listItem "n2" "m"]];
     listItem "a2" "b"; listItem "a3" "c"].

Definition nestedListPage : Node := docNode [pageNode (JStr "p1") 1 [nestedList]].

Definition sampleIds (n : nat) : string :=
  String.append "id" (String (Ascii.ascii_of_nat (48 + n)) EmptyString).

(** ** The nodes of a document with their ancestors

    A declarative reading of the tree, independent of [resolve]: every
    node below [parent] that the [descendants] walk reaches, with its
    ancestors (innermost first, the root last) and its position. *)
Definition Positioned : Type := list Node * Node * Z.

Definition childrenWithAncestors
    (below : list Node -> Node -> Z -> list Positioned)
    (ancestors : list Node) (parent : Node) (nodeStart : Z)
  : list Node -> Z -> list Positioned :=
  fix loop (cs : list Node) (pos : Z) : list Positioned :=
    match cs with
    | [] => []
    | c :: cs' =>
        (parent :: ancestors, c, nodeStart + pos) ::
        (if negb (contentSize c =? 0)
         then below (parent :: ancestors) c (nodeStart + pos + 1)
         else [])
        ++ loop cs' (pos + nodeSize c)
    end.

Fixpoint nodesWithAncestors (ancestors : list Node) (parent : Node)
    (nodeStart : Z) : list Positioned :=
  childrenWithAncestors nodesWithAncestors ancestors parent nodeStart
    (content parent) 0.

(** A node that has content is a branch: neither a text node nor a
    leaf. *)
Fixpoint wellFormed (n : Node) : bool :=
  match n with
  | mkNode t a c s =>
      (match c with [] => true | _ => negb (String.eqb (name t) TEXT) && negb (isLeaf t) end)
      && forallb wellFormed c
  end.

(** The list items counted for the start number of a reopened ordered
    list: those that lie below an ordered list (some ancestor other than
    the document is one), start before the cut and, when a lower bound is
    given, not before it. *)
Definition countedItem (lower : option Z) (splitPos : Z) (x : Positioned)
  : bool :=
  isNamed LISTITEM x.1.2
  && match lower with Some from => x.2 >=? from | None => true end
  && (x.2 <? splitPos)
  && existsb (isNamed ORDEREDLIST) (removelast x.1.1).

Definition listItemsBefore (doc : Node) (lower : option Z) (splitPos : Z)
  : Z :=
  Z.of_nat (List.length
              (List.filter (countedItem lower splitPos)
                           (nodesWithAncestors [] doc 0))).

(** One step of a walk over the positioned nodes, for a callback [g] that
    looks at the node and its position only. *)
Definition walkStep {S : Type} (g : S -> Node -> Z -> S) (st : S)
    (x : Positioned) : S :=
  g st x.1.2 x.2.

(** The nodes along a resolved path, the root first. *)
Definition pathNodes (p : list PathEntry) : list Node :=
  (fun e : PathEntry => e.1.1) <$> p.

(** What is known of a positioned node [x] found below [parent], whose
    content starts at [nodeStart]. *)
Definition resolvesBelow (parent : Node) (ancestors : list Node)
    (nodeStart : Z) (x : Positioned) : Prop :=
  exists chain,
    x.1.1 = chain ++ ancestors
    /\ 0 <= x.2 - nodeStart <= contentSize parent
    /\ forall start,
         pathNodes (resolveFrom parent (x.2 - nodeStart) start) = rev chain.


(** The offsets held in a resolved path lie between [lo] and [hi], and
    every entry but the last one lies strictly before [hi]. *)
Definition pathWithin (lo hi : Z) (p : list PathEntry) : Prop :=
  Forall (fun e : PathEntry => lo <= e.2 <= hi) p
  /\ Forall (fun e : PathEntry => e.2 + 1 <= hi) (removelast p).

(** The start of the sequence found by the walk back from the start of
    the enclosing list. *)
Definition sequenceOrigin (doc : Node) (start : Z) : Z :=
  match sequenceStart (S (Z.to_nat start)) doc start with
  | Done s => s
  | _ => start
  end.

(** The start number the code computes for a cut at [splitPos], resolved
    as [r]: 1 when no ordered list encloses the cut; otherwise one more
    than the number of list items below an ordered list that start before
    the cut -- counted from the beginning of the document when the
    innermost enclosing ordered list is flagged [extend], and from the
    start of its sequence otherwise. *)
Definition expectedStart (doc : Node) (r : ResolvedPos) (splitPos : Z) : Z :=
  match findParentNodeClosestToPos r (isNamed ORDEREDLIST) with
  | None => 1
  | Some list =>
      listItemsBefore doc
        (if strict_eq (attr (pn_node list) "extend") (JBool true)
         then None
         else Some (sequenceOrigin doc (pn_start list)))
        splitPos
      + 1
  end.

(** A node of the document as the scan records it: the node and its
    position, found among the positioned nodes of the document. *)
Definition nodeOf (doc : Node) (d : NodeData) : Prop :=
  exists ancestors,
    (ancestors, nd_node d, nd_pos d) ∈ nodesWithAncestors [] doc 0.

(** The operation the dedupe step issues on [deleteNode] when
    [preserveNode] is kept. *)
Definition operationOn (deleteNode preserveNode : NodeData) : Operation :=
  if includes (textContent (nd_node preserveNode))
              (textContent (nd_node deleteNode))
     && (0 <? childCount (nd_node deleteNode))
  then OpDelete (nd_pos deleteNode + 1)
                (nd_pos deleteNode + nodeSize (nd_node deleteNode) + 1)
  else OpChangeId (nd_pos deleteNode).

(** An operation of the dedupe step comes from two nodes of the document
    that share an id, the one operated on being at least as large as the
    one kept. *)
Definition pairedOperation (doc : Node) (op : Operation) : Prop :=
  exists deleteNode preserveNode,
    nodeOf doc deleteNode
    /\ nodeOf doc preserveNode
    /\ attr (nd_node deleteNode) "id" = attr (nd_node preserveNode) "id"
    /\ truthy (attr (nd_node deleteNode) "id") = true
    /\ isText (nd_node deleteNode) = false
    /\ isText (nd_node preserveNode) = false
    /\ nodeSize (nd_node preserveNode) <= nodeSize (nd_node deleteNode)
    /\ op = operationOn deleteNode preserveNode.

(** The invariant of the scan: the registered nodes are non-text nodes of
    the document filed under their id, and the operations pushed so far
    are paired. *)
Definition dedupeInvariant (doc : Node)
    (st : gmap JsValue NodeData * list Operation) : Prop :=
  (forall id d,
      st.1 !! id = Some d ->
      nodeOf doc d /\ attr (nd_node d) "id" = id
      /\ truthy id = true /\ isText (nd_node d) = false)
  /\ Forall (pairedOperation doc) st.2.

(** The page of [sharedIdPage]. *)
Definition sharedIdPageNode : Node :=
  pageNode (JStr "p1") 1 [helloParagraph; helloWorldParagraph].

(** * Further parts of the engine *)

(** ** computed.ts: checkNodeAndFix

    The repair pass walks the document and remembers the first paragraph
    flagged [extend]; for every later one it maps the position through the
    transaction and, if the remembered block is not a paragraph, removes
    the two tokens around that position.  The position mapping and the
    application of a replace step belong to the host editor and are
    parameters. *)
Section CheckNodeAndFix.

(** [tr.mapping.map(pos)] *)
Variable mapPos : Transaction -> Z -> Z.
(** [tr.step(new ReplaceStep(from, to, Slice.empty))]; a step that does
    not apply throws. *)
Variable replaceStep : Transaction -> Z -> Z -> Outcome Transaction.

(** [node.type === schema.nodes[PARAGRAPH]] *)
Definition isParagraphOf (schema : Schema) (node : Node) : bool :=
  bool_decide (schema !! PARAGRAPH = Some (type node)).

(** The callback of the walk: the state is [beforeBlock] and the
    transaction, or a thrown exception. *)
Definition fixVisit (schema : Schema)
    (st : Outcome (option Node * Transaction))
    (node : Node) (pos : Z) (_parent : Node) (_index : Z)
  : Outcome (option Node * Transaction) * bool :=
  match st with
  | Done (beforeBlock, tr) =>
      if isParagraphOf schema node
         && strict_eq (attr node "extend") (JBool true)
      then
        match beforeBlock with
        | None => (Done (Some node, tr), true)
        | Some b =>
            let mappedPos := mapPos tr pos in
            if negb (isParagraphOf schema b)
            then (tr' ← replaceStep tr (mappedPos - 1) (mappedPos + 1);
                  Done (beforeBlock, tr'),
                  false)
            else (st, false)
        end
      else (st, true)
  | _ => (st, false)
  end.

Definition checkNodeAndFix (schema : Schema) (tr : Transaction)
  : Outcome Transaction :=
  snd <$> descendants (fixVisit schema) (tr_doc tr) (Done (None, tr)).

End CheckNodeAndFix.

(** ** computed.ts: getNodeHeight

    One measuring pass over the last page.  The rendered element of a
    node ([document.querySelector] on its id or, failing that, the element
    rendered aside by [getAbsentHtmlH]) is a parameter, and so are the
    pagination height [getBodyHeight(bodyOptions)] and the default line
    height [getDefault()] the split context is created with.  (The id
    that [getAbsentHtmlH] writes into a node that has none is not
    modelled.) *)
Section GetNodeHeight.

Variable Dom : Type.
Variable domOf : Node -> Dom.
Variable nodesComputed : gmap string (ComputedFn Dom).

(** The callback of the walk: the state is the split context, or a
    thrown exception -- a node kind without an entry in [nodesComputed]
    makes the call [nodesComputed[node.type.name](...)] throw. *)
Definition measureVisit (lastNode : option Node)
    (st : Outcome SplitContext)
    (node : Node) (pos : Z) (parentNode : Node) (_index : Z)
  : Outcome SplitContext * bool :=
  match st with
  | Done splitContext =>
      if negb (optNode_eqb lastNode (Some node))
         && String.eqb (name (type parentNode)) DOC
      then (st, false)
      else
        match pageBoundary splitContext with
        | None =>
            match nodesComputed !! name (type node) with
            | Some computed =>
                match computed splitContext node pos (Some parentNode)
                               (domOf node) with
                | Some (splitContext', descend) =>
                    (Done splitContext', descend)
                | None => (Thrown, false)
                end
            | None => (Thrown, false)
            end
        | Some _ => (st, false)
        end
  | _ => (st, false)
  end.

Definition getNodeHeight (doc : Node) (height defaultHeight : number)
  : Outcome (option SplitInfo) :=
  pageBoundary
    <$> descendants (measureVisit (lastChild doc)) doc
          (Done (newSplitContext doc height defaultHeight)).

End GetNodeHeight.

(** ** core.ts: the break position inside a paragraph

    [getBreakPos] and [calculateNodeOverflowHeightAndPoint].  What is read
    from the rendered element and from the measuring frame is a
    parameter: the bottom and top margins of the element, whether it is
    the first child of its parent element, its width, the width of the
    content of the node laid out on one line, and
    [createAndCalculateHeight(node, content, splitContext)], the height of
    a copy of [node] holding [content]. *)
Section BreakPos.

Variable Dom : Type.
Variable marginBottom : Dom -> number.
Variable marginTop : Dom -> number.
Variable isFirstDomChild : Dom -> bool.
Variable offsetWidth : Dom -> number.
Variable wordWidth : Node -> number.
Variable createAndCalculateHeight : Node -> list Node -> number.

(** [schema.text(s, lastChild.marks)]: a text node like [lastChild] (marks
    are not part of the model) with the text [s]. *)
Definition schemaText (lastChild : Node) (s : string) : Node :=
  mkNode (type lastChild) (attrs lastChild) [] s.

(** [a === 0] *)
Definition num_is_zero (a : number) : bool :=
  match a with
  | Fin q => Qeq_bool q 0
  | _ => false
  end.

(** The height still available on the page for the node. *)
Definition availableHeight (dom : Dom) (splitContext : SplitContext)
  : number :=
  let height :=
    if num_is_zero (getAccumulatedHeight splitContext)
    then getHeight splitContext
    else num_sub (getHeight splitContext)
                 (getAccumulatedHeight splitContext) in
  let height := num_sub height (marginBottom dom) in
  if isFirstDomChild dom then num_sub height (marginTop dom) else height.

(** The [for] loop over the children in reverse order: [k] iterations
    remain, the next one handles the child at index [k - 1].  [content] is
    the working copy of the children and [point] the break point found so
    far, an index with a length.  [Thrown] stands for the failure of an
    access beyond the working copy, [OutOfFuel] for a text search that ran
    out of fuel; neither occurs. *)
Fixpoint overflowLoop (node : Node) (height : number) (k : nat)
    (content : list Node) (point : option (Z * Z))
  : Outcome (option (Z * Z)) :=
  match k with
  | O => Done point
  | S i =>
      match content !! i with
      | None => Thrown
      | Some lastChild =>
          if isText lastChild then
            let text := text lastChild in
            match binarySearchTextBreak
                    (fun candidate =>
                       createAndCalculateHeight node
                         (take i content ++ [schemaText lastChild candidate]))
                    text height with
            | None => OutOfFuel
            | Some breakIndex =>
                if breakIndex >? 0 then
                  let partialText := slice text 0 breakIndex in
                  let htmlNodeHeight :=
                    createAndCalculateHeight node
                      (take i content ++ [schemaText lastChild partialText]) in
                  let point := Some (Z.of_nat i, breakIndex) in
                  let content :=
                    <[i := schemaText lastChild partialText]> content in
                  if num_gt height htmlNodeHeight then Done point
                  else overflowLoop node height i content point
                else overflowLoop node height i content point
            end
          else
            let htmlNodeHeight :=
              createAndCalculateHeight node (take i content ++ [lastChild]) in
            if num_gt height htmlNodeHeight then Done (Some (Z.of_nat i, 0))
            else overflowLoop node height i content point
      end
  end.

(** The callback of the final walk: the state is [isFlag] and [index]. *)
Definition pointVisit (point : option (Z * Z)) (st : bool * Z)
    (_node : Node) (pos : Z) (_parent : Node) (i : Z)
  : (bool * Z) * bool :=
  let '(isFlag, index) := st in
  if negb isFlag then (st, false)
  else
    match point with
    | Some (pointIndex, calculateLength) =>
        if i =? pointIndex
        then ((false, pos + calculateLength + 1), true)
        else (st, true)
    | None => (st, true)
    end.

Definition calculateNodeOverflowHeightAndPoint (node : Node) (dom : Dom)
    (splitContext : SplitContext) : Outcome Z :=
  let height := availableHeight dom splitContext in
  point ← overflowLoop node height (List.length (content node))
            (content node) None;
  Done (descendants (pointVisit point) node (true, 0)).2.

(** [getBreakPos(cnode, dom, splitContext)], for an element that is
    there: an offset into the node, or [null]. *)
Definition getBreakPos (cnode : Node) (dom : Dom)
    (splitContext : SplitContext) : Outcome (option Z) :=
  let width := offsetWidth dom in
  if num_ge width (wordWidth cnode) then Done None
  else
    index ← calculateNodeOverflowHeightAndPoint cnode dom splitContext;
    Done (if index =? 0 then None else Some index).

End BreakPos.

(** ** core.ts: the room for content on a page *)

(** [a * b].  The product of two finite numbers is taken exactly and not
    rounded, like the difference; an infinity times zero is [NaN]. *)
Definition num_mul (a b : number) : number :=
  match a, b with
  | Fin x, Fin y => Fin (x * y)%Q
  | Inf s, Fin y | Fin y, Inf s =>
      if Qeq_bool y 0 then NaN else Inf (xorb s (Qle_bool y 0))
  | Inf s, Inf t => Inf (xorb s t)
  | _, _ => NaN
  end.

(** The options read here have passed [onBeforeCreate], which lets only
    numbers through as dimensions; a dimension of another type (which
    JavaScript would coerce) is outside of the model. *)
Definition numericValue (v : JsValue) : option number :=
  match v with
  | JNum n => Some n
  | _ => None
  end.

(** [pageNumber?.show && pageNumber?.position === position] *)
Definition shownAt (pn : option PageNumberConfig)
    (where_ : PageNumberPosition) : bool :=
  match pn with
  | Some c =>
      show c &&
      match position c, where_ with
      | Some PositionTop, PositionTop => true
      | Some PositionBottom, PositionBottom => true
      | _, _ => false
      end
  | None => false
  end.

Definition getBodyHeight (options : PageOptions) : option number :=
  let pageLayout := pageLayout options in
  let pageNumber := pageNumber options in
  let headerHeight :=
    if shownAt pageNumber PositionTop
    then default (of_Z 30) (headerHeight options) else of_Z 0 in
  let footerHeight :=
    if shownAt pageNumber PositionBottom
    then default (of_Z 30) (footerHeight options) else of_Z 0 in
  let marginHeight :=
    match pageLayout ≫= margins with
    | Some m =>
        num_mul (num_add (margin_value (margin_top m))
                         (margin_value (margin_bottom m)))
                (of_Z 96)
    | None => of_Z 96
    end in
  bodyHeight ← numericValue (bodyHeight options);
  Some (num_sub (num_sub bodyHeight marginHeight)
                (num_add headerHeight footerHeight)).


(** ** computed.ts: splitDocument

    The split loop: measure the last page and, as long as the pass
    returns a boundary, split there with a page type on the "after"
    side.  [getNodeType(PAGE, schema)] throws when the schema has no page
    type.  The application of the replace step built by [splitPage]
    belongs to the host editor and is a parameter.  The loop of the
    source has no bound; the model counts its rounds down from [fuel]. *)
Section SplitDocument.

Variable Dom : Type.
Variable domOf : Node -> Dom.
Variable nodesComputed : gmap string (ComputedFn Dom).
Variable freshId : nat -> string.
(** [tr.step(new ReplaceStep(pos, pos, new Slice(before.append(after),
    depth, depth)))]; a step that does not apply throws. *)
Variable applyStep : Transaction -> SplitStep -> Outcome Transaction.

Fixpoint splitDocument (fuel : nat) (schema : Schema)
    (height defaultHeight : number) (tr : Transaction) (supply : nat)
  : Outcome (Transaction * nat) :=
  match fuel with
  | O => OutOfFuel
  | S fuel' =>
      splitInfo ←
        getNodeHeight Dom domOf nodesComputed (tr_doc tr) height
          defaultHeight;
      match splitInfo with
      | None => Done (tr, supply)
      | Some info =>
          t ← orThrow (schema !! PAGE);
          '(step, supply) ←
            splitPageStep freshId schema (tr_doc tr) (split_pos info)
              (split_depth info) [Some t] supply;
          tr ← applyStep tr step;
          splitDocument fuel' schema height defaultHeight tr supply
      end
  end.

End SplitDocument.

(** ** src/page/page-extension.ts: the text-break search without the guard

    The copy of the search under [src/page] differs from the one of the
    demo in two places.  It has no guard against an empty candidate: when
    the last space of the prefix is its first code unit, the candidate is
    handed to [schema.text] as it is, and ProseMirror refuses an empty
    text node with a RangeError before anything is measured.  And the
    break offset recorded for a fitting candidate is always the index of
    the last space. *)
Module Earlier.
Section TextBreak.

Variable createAndCalculateHeight : string -> number.
Variable fullText : string.
Variable heightLimit : number.

Fixpoint searchLoop (fuel : nat) (low high validBreak : Z) : Outcome Z :=
  match fuel with
  | O => OutOfFuel
  | S fuel' =>
      if low <=? high then
        let mid := (low + high) / 2 in
        let candidate := slice fullText 0 mid in
        let lastSpaceIndex := lastIndexOf candidate space in
        if (lastSpaceIndex <? 0) && negb (7 <? len candidate) then Done 0
        else
          let lastSpaceIndex :=
            if lastSpaceIndex <? 0 then len candidate else lastSpaceIndex in
          let candidate := slice candidate 0 lastSpaceIndex in
          (* splitContex.schema.text(candidate, marks) *)
          if len candidate =? 0 then Thrown
          else
            let candidateHeight := createAndCalculateHeight candidate in
            if num_le candidateHeight heightLimit then
              searchLoop fuel' (mid + 1) high lastSpaceIndex
            else
              searchLoop fuel' low (mid - 1) validBreak
      else Done validBreak
  end.

Definition binarySearchTextBreak : Outcome Z :=
  searchLoop (S (String.length fullText)) 1 (len fullText) 0.

End TextBreak.
End Earlier.

(** * Vocabulary and samples of the further statements *)


(** The prefix of the text cut at [v] fits the height limit, as measured
    by the search. *)
Definition fittedBreak (createAndCalculateHeight : string -> number)
    (fullText : string) (heightLimit : number) (v : Z) : Prop :=
  0 < v <= len fullText
  /\ num_le (createAndCalculateHeight (slice fullText 0 v)) heightLimit
     = true.

(** The node kinds that have a split strategy. *)
Definition strategyKinds : list string :=
  [ORDEREDLIST; BULLETLIST; LISTITEM; HEADING; PARAGRAPH; TRANSIENT_TEXT;
   CASSIE_BLOCK_EXTEND; PAGE].

(** The block kinds whose strategy, for a node that fits, only adds the
    height of the node. *)
Definition blockKinds : list string :=
  [ORDEREDLIST; BULLETLIST; HEADING; PARAGRAPH; TRANSIENT_TEXT].

(** [doc] is a document whose last page is [last], a page with content;
    the pages before it differ from it. *)
Definition lastPageOf (doc : Node) (pages : list Node) (last : Node) : Prop :=
  content doc = pages ++ [last]
  /\ name (type doc) = DOC
  /\ name (type last) = PAGE
  /\ contentSize last <> 0
  /\ Forall (fun p => p <> last) pages.

(** The sum of measured heights, as the split context accumulates it. *)
Definition totalHeight (heights : list number) : number :=
  foldl num_add (of_Z 0) heights.

(** The heights [hs], added one after the other to the accumulated
    height [acc] the way the engine adds them -- every sum rounded to a
    double -- stay at most [height]. *)
Fixpoint fitInTurn (acc height : number) (hs : list number) : Prop :=
  match hs with
  | [] => True
  | h :: hs' =>
      num_le (num_add acc h) height = true
      /\ fitInTurn (num_add acc h) height hs'
  end.

(** The blocks [cs] fit a page of height [height]: each is of a block
    kind, and their measured heights, added in turn from 0, stay at most
    [height]. *)
Definition blocksFit {Dom : Type} (getDomHeight : Dom -> number)
    (domOf : Node -> Dom) (cs : list Node) (height : number) : Prop :=
  Forall (fun c => name (type c) ∈ blockKinds) cs
  /\ fitInTurn (of_Z 0) height ((fun c => getDomHeight (domOf c)) <$> cs).

(** A state of the measuring pass that no later visit changes: an
    exception was thrown, or the boundary is set. *)
Definition settled (st : Outcome SplitContext) : Prop :=
  match st with
  | Done c => pageBoundary c <> None
  | _ => True
  end.

(** Sample measures: the rendered element of a node is represented by the
    node itself, a block is 100 pixels high per code unit of its text,
    padding and spacing are zero and no interior break is ever found. *)
Definition sampleBlockHeight (n : Node) : number :=
  of_Z (100 * len (textContent n)).
Definition sampleZero (_ : Node) : number := of_Z 0.
Definition sampleNoPoint (_ : Node) (_ : Node) (_ : SplitContext)
  : option Z := None.

Definition sampleTable : gmap string (ComputedFn Node) :=
  defaultNodesComputed Node sampleBlockHeight sampleZero sampleZero
    sampleNoPoint.

(** A second page with three paragraphs, of heights 100, 600 and 100. *)
Definition threeBlocksPage : Node :=
  pageNode (JStr "p2") 2
    [paragraph (JStr "b") "x"; paragraph (JStr "c") "Figure";
     paragraph (JStr "d") "y"].

Definition threeBlocks : Node :=
  docNode [pageNode (JStr "p1") 1 [paragraph (JStr "a") "Hello"];
           threeBlocksPage].

(** A second page with four paragraphs, measured 174.6, 167.5, 37.3 and
    48.6 pixels: the heights are the doubles nearest to these decimal
    fractions. *)
Definition fractionalPage : Node :=
  pageNode (JStr "p2") 2
    [paragraph (JStr "b") "a"; paragraph (JStr "c") "b";
     paragraph (JStr "d") "c"; paragraph (JStr "e") "d"].

Definition fractionalBlocks : Node :=
  docNode [pageNode (JStr "p1") 1 [paragraph (JStr "a") "Hello"];
           fractionalPage].

Definition fractionalHeight (n : Node) : number :=
  let t := textContent n in
  if String.eqb t "a" then decimal 1746 10
  else if String.eqb t "b" then decimal 1675 10
  else if String.eqb t "c" then decimal 373 10
  else decimal 486 10.

(** A second page that holds a paragraph and a block of a kind without a
    strategy. *)
Definition quotePage : Node :=
  pageNode (JStr "p2") 2
    [paragraph (JStr "b") "x";
     block "blockquote" (JStr "q") false [paragraph (JStr "c") "y"]].

Definition quoteDoc : Node :=
  docNode [pageNode (JStr "p1") 1 [paragraph (JStr "a") "Hello"]; quotePage].

(** A break point of the loop over the children of a node whose children
    are [original]: the index of a child with a length, which is 0 for a
    child that is not a text and a positive offset into the text
    otherwise. *)
Definition pointOk (original : list Node) (point : option (Z * Z)) : Prop :=
  match point with
  | None => True
  | Some (i, r) =>
      0 <= i
      /\ exists c,
           original !! Z.to_nat i = Some c
           /\ if isText c then 0 < r <= len (text c) else r = 0
  end.

(** [p] is an offset into [cnode] that points into one of its children:
    right before a child that is not a text, or into a text child, after
    at least one and at most all of its code units. *)
Definition breakPointAt (cnode : Node) (p : Z) : Prop :=
  exists (i : nat) (c : Node) (r : Z),
    content cnode !! i = Some c
    /\ p = fragmentSize (take i (content cnode)) + r + 1
    /\ if isText c then 0 < r <= len (text c) else r = 0.

(** Sample measures for the break position: the rendered element is
    represented by its width, margins are zero, the content of a node
    laid out on one line is as wide as its text is long, and a copy of a
    node is as high as its content is long. *)
Definition sampleMargin (_ : number) : number := of_Z 0.
Definition sampleNotFirst (_ : number) : bool := false.
Definition sampleWidth (dom : number) : number := dom.
Definition sampleWordWidth (n : Node) : number := of_Z (len (textContent n)).
Definition sampleContentHeight (_ : Node) (content : list Node) : number :=
  of_Z (fragmentSize content).

Definition fooBarParagraph : Node :=
  paragraph (JStr "a") "hello world foo bar".

(** The text of a sequence of nodes. *)
Definition textsOf (l : list Node) : string :=
  foldr (fun x acc => String.append (textContent x) acc) EmptyString l.

(** The three pages, with the head of the selection in the second one. *)
Definition stateInSecondPage : EditorState :=
  mkEditorState threePages (mkSelection 12 12) sampleSchema.

(** A node that the dedupe scan considers: it carries an id and is not a
    text. *)
Definition identified (n : Node) : bool :=
  truthy (attr n "id") && negb (isText n).

(** The ids of the considered nodes among [xs], in order. *)
Definition idsAmong (xs : list Positioned) : list JsValue :=
  foldr (fun x acc =>
           if identified x.1.2 then attr x.1.2 "id" :: acc else acc)
        [] xs.

(** No two nodes of the document that carry an id share it. *)
Definition distinctIds (doc : Node) : Prop :=
  NoDup (idsAmong (nodesWithAncestors [] doc 0)).

(** The kinds whose strategy measures the rendered element of the node
    against the room left on the page. *)
Definition measuredKinds : list string :=
  [ORDEREDLIST; BULLETLIST; LISTITEM; HEADING; PARAGRAPH; TRANSIENT_TEXT].

(** The boundary the list-item strategy sets for an item at [pos],
    resolved as [r]: in front of the item, or -- for the first item of its
    parent -- one level up, in front of the parent when the position
    before it is not 0. *)
Definition itemBoundary (first : bool) (pos : Z) (r : ResolvedPos)
  : SplitInfo :=
  if first then
    mkSplitInfo
      match beforeAt r (depthOf r) with
      | Some before => if before =? 0 then pos else before
      | None => pos
      end
      (depthOf r - 1)
  else mkSplitInfo pos (depthOf r).

(** The boundary the heading strategy sets for an overflowing heading at
    [pos], resolved as [r]: at the interior break [point] when the
    heading is taller than a page and a break is found, in front of the
    heading otherwise. *)
Definition headingBoundary (tall : bool) (point : option Z) (pos : Z)
    (r : ResolvedPos) : SplitInfo :=
  match (if tall then point else None) with
  | Some p => if p =? 0 then mkSplitInfo pos (depthOf r)
              else mkSplitInfo (pos + p) (depthOf r + 1)
  | None => mkSplitInfo pos (depthOf r)
  end.

(** A page that holds a paragraph and a heading. *)
Definition titleHeading : Node :=
  block HEADING (JStr "h") false [textNode "Title"].

Definition headingDoc : Node :=
  docNode [pageNode (JStr "p1") 1 [paragraph (JStr "a") "Hello"; titleHeading]].

(** The second item of the flat list. *)
Definition secondItem : Node := listItem "i2" "b".


(** Every optional setting is present. *)
Definition completeOptions (o : PageOptions) : Prop :=
  is_Some (bodyPadding o)
  /\ is_Some (headerHeight o)
  /\ is_Some (footerHeight o)
  /\ is_Some (pageNumber o)
  /\ exists layout,
       pageLayout o = Some layout
       /\ is_Some (margins layout)
       /\ is_Some (paragraphSpacing layout).

(** The settings given by the user are the ones in force. *)
Definition keepsSettingsOf (user merged : PageOptions) : Prop :=
  (bodyHeight user <> JUndefined -> bodyHeight merged = bodyHeight user)
  /\ (bodyWidth user <> JUndefined -> bodyWidth merged = bodyWidth user)
  /\ (is_Some (bodyPadding user) -> bodyPadding merged = bodyPadding user)
  /\ (is_Some (headerHeight user) -> headerHeight merged = headerHeight user)
  /\ (is_Some (footerHeight user) -> footerHeight merged = footerHeight user)
  /\ (forall layout m,
        pageLayout user = Some layout -> margins layout = Some m ->
        pageLayout merged ≫= margins = Some m)
  /\ (forall layout s,
        pageLayout user = Some layout -> paragraphSpacing layout = Some s ->
        pageLayout merged ≫= paragraphSpacing = Some s)
  /\ (forall n,
        pageNumber user = Some n ->
        exists n',
          pageNumber merged = Some n'
          /\ show n' = show n
          /\ showCount n' = showCount n
          /\ showOnFirstPage n' = showOnFirstPage n
          /\ (is_Some (position n) -> position n' = position n)
          /\ (is_Some (alignment n) -> alignment n' = alignment n)).

(** The options with other header and footer heights. *)
Definition withHeader (o : PageOptions) (h : option number) : PageOptions :=
  mkPageOptions (bodyHeight o) (bodyWidth o) (bodyPadding o) h
    (footerHeight o) (pageLayout o) (pageNumber o).

Definition withFooter (o : PageOptions) (f : option number) : PageOptions :=
  mkPageOptions (bodyHeight o) (bodyWidth o) (bodyPadding o)
    (headerHeight o) f (pageLayout o) (pageNumber o).

(** The nodes in reach of the dedupe scan, which looks below a node only
    when the node carries an id and is no text node: the positioned nodes
    all of whose ancestors below the document are of that kind. *)
Fixpoint nodesInReach (ancestors : list Node) (parent : Node)
    (nodeStart : Z) : list Positioned :=
  childrenWithAncestors
    (fun ancestors c start =>
       if identified c then nodesInReach ancestors c start else [])
    ancestors parent nodeStart (content parent) 0.

(** A page whose block quote carries no id and holds two paragraphs with
    the same id. *)
Definition hiddenDuplicates : Node :=
  docNode [pageNode (JStr "p1") 1
             [mkNode (blockType "blockquote") ∅
                [helloParagraph; helloWorldParagraph] ""]].

(** A document whose second page opens with a paragraph of 800 pixels,
    and a stand-in for the editor on the step of a split of depth 0: an
    empty slice put on an empty range replaces nothing, so the step is
    counted and the document kept.  Every other step is refused. *)
Definition tallSecondPage : Node :=
  docNode [pageNode (JStr "p1") 1 [paragraph (JStr "a") "Hello"];
           pageNode (JStr "p2") 2 [paragraph (JStr "b") "Figures!"]].

Definition emptyStepEditor (tr : Transaction) (step : SplitStep)
  : Outcome Transaction :=
  match step_before step, step_after step with
  | [], [] =>
      if step_depth step =? 0
      then Done (mkTransaction (tr_doc tr) (tr_steps tr + 1) (tr_meta tr))
      else Thrown
  | _, _ => Thrown
  end.

(** An editor that refuses every step. *)
Definition refusingEditor (_ : Transaction) (_ : SplitStep)
  : Outcome Transaction :=
  Thrown.

(** [threeBlocks] with the selection in its last page. *)
Definition stateInThreeBlocks : EditorState :=
  mkEditorState threeBlocks (mkSelection 12 12) sampleSchema.

(** A document of one page, the page of three paragraphs. *)
Definition singleBlocksPage : Node := docNode [threeBlocksPage].

(** * Properties *)

(** ** Measures *)

Lemma num_gt_Gt (a b : number) : num_gt a b = true <-> Gt_number a b.
Proof.
  split.
  - destruct a as [|x|[|]], b as [|y|[|]]; simpl; try discriminate;
      intros H; try constructor.
    apply Qnot_le_lt. intros Hle.
    apply Qle_bool_iff in Hle. rewrite Hle in H. discriminate.
  - intros [x y Hlt|y|x|]; simpl; try reflexivity.
    destruct (Qle_bool x y) eqn:E; [|reflexivity].
    apply Qle_bool_iff in E. exfalso. exact (Qlt_not_le _ _ Hlt E).
Qed.

Lemma num_le_Le (a b : number) : num_le a b = true <-> Le_number a b.
Proof.
  split.
  - destruct a as [|x|[|]], b as [|y|[|]]; simpl; try discriminate;
      intros H; constructor.
    by apply Qle_bool_iff.
  - intros [x y Hle|y|x|[|]|[|]]; simpl; try reflexivity.
    by apply Qle_bool_iff.
Qed.

Lemma Gt_not_Le (a b : number) : Gt_number a b -> ~ Le_number a b.
Proof.
  intros Hgt Hle. apply num_gt_Gt in Hgt. apply num_le_Le in Hle.
  destruct a as [|x|[|]], b as [|y|[|]]; simpl in *; try discriminate.
  by rewrite Hle in Hgt.
Qed.

(** ** Rounding *)

Lemma floorLog2_integer (a : Z) : 0 < a -> floorLog2 a 1 = Z.log2 a.
Proof.
  intros Ha. unfold floorLog2. change (Z.log2 1) with 0.
  rewrite Z.sub_0_r.
  pose proof (Z.log2_nonneg a) as Hl.
  replace (Z.log2 a <? 0) with false by (symmetry; apply Z.ltb_ge; lia).
  rewrite Z.mul_1_l.
  destruct (Z.log2_spec a Ha) as [Hlow _].
  by replace (2 ^ Z.log2 a <=? a) with true by (symmetry; by apply Z.leb_le).
Qed.

Lemma roundHalfEven_multiple (m d : Z) : 0 < d -> roundHalfEven (m * d) d = m.
Proof.
  intros Hd. unfold roundHalfEven.
  rewrite Z.div_mul by lia. rewrite Z.mod_mul by lia.
  replace (2 * 0 ?= d) with Lt by (symmetry; apply Z.compare_lt_iff; lia).
  reflexivity.
Qed.

Lemma Qred_integer (v : Q) (z : Z) : (v == inject_Z z)%Q -> Qred v = inject_Z z.
Proof.
  intros H. rewrite (Qred_complete _ _ H).
  unfold Qred, inject_Z.
  pose proof (Z.ggcd_gcd z 1) as Hg.
  pose proof (Z.ggcd_correct_divisors z 1) as Hd.
  destruct (Z.ggcd z 1) as [g [aa bb]]. cbn [fst snd] in *.
  rewrite Z.gcd_1_r in Hg. subst g. destruct Hd as [Ha Hb].
  replace aa with z by lia. replace bb with 1 by lia. reflexivity.
Qed.

(** Integers up to [2^53] in magnitude are doubles: rounding leaves them
    as they are. *)
Lemma binary64_integer (z : Z) :
  Z.abs z <= 2 ^ 53 -> binary64 (inject_Z z) = Fin (inject_Z z).
Proof.
  intros Hz. unfold binary64. cbn [Qnum Qden inject_Z].
  destruct (z =? 0) eqn:E0; [apply Z.eqb_eq in E0; by subst|].
  apply Z.eqb_neq in E0.
  assert (Ha : 0 < Z.abs z) by lia.
  rewrite (floorLog2_integer _ Ha).
  pose proof (Z.log2_nonneg (Z.abs z)) as Hl0.
  assert (Hl : Z.log2 (Z.abs z) <= 53).
  { change 53 with (Z.log2 (2 ^ 53)). by apply Z.log2_le_mono. }
  destruct (Z.log2_spec _ Ha) as [Hlow Hup].
  remember (Z.log2 (Z.abs z)) as e eqn:Ee. clear Ee.
  replace (Z.max (e - 52) (-1074)) with (e - 52) by lia.
  assert (Hsign : (if z <? 0 then - inject_Z (Z.abs z) else inject_Z (Z.abs z))
                  == inject_Z z).
  { destruct (z <? 0) eqn:Es.
    - apply Z.ltb_lt in Es. rewrite Z.abs_neq by lia.
      unfold Qeq, Qopp, inject_Z. cbn. lia.
    - apply Z.ltb_ge in Es. by rewrite Z.abs_eq by lia. }
  destruct (e - 52 <? 0) eqn:Ek.
  - apply Z.ltb_lt in Ek.
    replace (0 <=? e - 52) with false by (symmetry; apply Z.leb_gt; lia).
    cbn [andb]. rewrite Z.mul_comm.
    replace (2 ^ (- (e - 52)) * Z.abs z) with (2 ^ (- (e - 52)) * Z.abs z * 1)
      by lia.
    rewrite roundHalfEven_multiple by lia.
    f_equal. apply Qred_integer. rewrite <- Hsign.
    assert (Hp : 0 < 2 ^ (- (e - 52))) by (apply Z.pow_pos_nonneg; lia).
    assert (Hv : Qmake (2 ^ (- (e - 52)) * Z.abs z)
                       (Z.to_pos (2 ^ (- (e - 52))))
                 == inject_Z (Z.abs z)).
    { unfold Qeq, inject_Z. cbn [Qnum Qden].
      rewrite Z2Pos.id by exact Hp. lia. }
    destruct (z <? 0); by rewrite Hv.
  - apply Z.ltb_ge in Ek.
    assert (He : e = 52 \/ e = 53) by lia.
    assert (Hbig : 2 ^ 53 < 2 ^ 1024) by (by apply Z.pow_lt_mono_r).
    assert (Hm : roundHalfEven (Z.abs z) (1 * 2 ^ (e - 52)) * 2 ^ (e - 52)
                 = Z.abs z).
    { destruct He as [-> | ->].
      - change (1 * 2 ^ (52 - 52)) with 1. change (2 ^ (52 - 52)) with 1.
        replace (Z.abs z) with (Z.abs z * 1) at 1 by lia.
        rewrite roundHalfEven_multiple by lia. lia.
      - assert (H : Z.abs z = 2 ^ 53) by lia.
        rewrite H. reflexivity. }
    rewrite Hm.
    replace (2 ^ 1024 <=? Z.abs z) with false
      by (symmetry; apply Z.leb_gt; lia).
    rewrite andb_false_r. f_equal. by apply Qred_integer.
Qed.

(** ** C9: the overflow test of the split context *)

Lemma num_add_sum (a b : number) : IeeeSum a b (num_add a b).
Proof.
  destruct a as [|x|s], b as [|y|t]; cbn [num_add]; try constructor.
  destruct s, t; cbn [Bool.eqb]; constructor.
Qed.

Lemma sum_num_add (a b s : number) : IeeeSum a b s -> s = num_add a b.
Proof.
  intros [x y|t y|x t|t|t|b'|a']; cbn [num_add]; try reflexivity.
  - by rewrite Bool.eqb_reflx.
  - by destruct t.
  - by destruct a'.
Qed.

(** Whole numbers up to [2^53] in magnitude add up without rounding. *)
Lemma exactSum_integers (a b : Z) :
  Z.abs (a + b) <= 2 ^ 53 -> exactSum (inject_Z a) (inject_Z b).
Proof.
  intros H. exists (inject_Z (a + b)). rewrite <- inject_Z_plus.
  split; [by apply binary64_integer|reflexivity].
Qed.

Lemma isOverflow_exact (c : SplitContext) (h : number) (a b l : Q) :
  getAccumulatedHeight c = Fin a ->
  h = Fin b ->
  getHeight c = Fin l ->
  exactSum a b ->
  isOverflow c h = true <-> (l < a + b)%Q.
Proof.
  unfold isOverflow, getAccumulatedHeight, getHeight.
  intros -> -> -> (s & Hs & Heq). cbn [num_add]. rewrite Hs.
  rewrite num_gt_Gt. split.
  - intros Hgt. inversion Hgt; subst. by rewrite <- Heq.
  - intros Hlt. constructor. by rewrite Heq.
Qed.

(** C9.  For every split context and every candidate height [h],
    [isOverflow h] answers true if and only if the accumulated height plus
    [h] is strictly greater than the pagination height (the budget).  The
    sum is the one JavaScript computes: the exact sum rounded to the
    nearest double, with the infinities and [NaN] as IEEE 754 has them.
    Whenever the exact sum of the two heights is itself a double, the
    test is the comparison of that exact sum with the budget; it is so in
    particular for whole numbers of pixels, up to [2^53] in magnitude,
    where the test is the comparison of integers. *)
Theorem isOverflow_iff (c : SplitContext) (h : number) :
  (isOverflow c h = true <->
   exists s,
     IeeeSum (getAccumulatedHeight c) h s /\ Gt_number s (getHeight c))
  /\ (forall a b l : Q,
        getAccumulatedHeight c = Fin a ->
        h = Fin b ->
        getHeight c = Fin l ->
        exactSum a b ->
        (isOverflow c h = true <-> (l < a + b)%Q))
  /\ (forall a b l : Z,
        getAccumulatedHeight c = of_Z a ->
        h = of_Z b ->
        getHeight c = of_Z l ->
        Z.abs (a + b) <= 2 ^ 53 ->
        (isOverflow c h = true <-> l < a + b)).
Proof.
  split; [|split].
  - unfold isOverflow, getAccumulatedHeight, getHeight.
    rewrite num_gt_Gt. split.
    + intros H. eexists. split; [apply num_add_sum|exact H].
    + intros (s & Hs & Hgt). by rewrite <- (sum_num_add _ _ _ Hs).
  - intros a b l. apply isOverflow_exact.
  - intros a b l Ha Hh Hl Hsum.
    rewrite (isOverflow_exact c h (inject_Z a) (inject_Z b) (inject_Z l)
               Ha Hh Hl (exactSum_integers a b Hsum)).
    rewrite <- inject_Z_plus. by rewrite <- Zlt_Qlt.
Qed.

(** 400 pixels are accumulated on a page of 500: a block of 101 pixels
    overflows, and 500 < 400 + 101. *)
Lemma isOverflow_iff_witness :
  isOverflow (mkSplitContext (docNode []) (of_Z 400) None (of_Z 500) (of_Z 20))
    (of_Z 101) = true
  <-> 500 < 400 + 101.
Proof.
  apply (proj2 (proj2 (isOverflow_iff
                         (mkSplitContext (docNode []) (of_Z 400) None
                            (of_Z 500) (of_Z 20))
                         (of_Z 101))) 400 101 500 eq_refl eq_refl eq_refl).
  vm_compute. discriminate.
Defined.

Example isOverflow_at_budget :
  isOverflow (mkSplitContext (docNode []) (of_Z 400) None (of_Z 500) (of_Z 20))
             (of_Z 100) = false
  /\ isOverflow (mkSplitContext (docNode []) (of_Z 400) None (of_Z 500) (of_Z 20))
                (of_Z 101) = true.
Proof. split; vm_compute; reflexivity. Qed.

(** Where the sum is rounded, the test follows the rounded sum.  The
    doubles nearest to 400.1 and 99.9 add up to a little more than 500
    exactly and to 500 as doubles: the block is taken to fit a page of
    500.  The same happens with [2^53] and 1. *)
Example isOverflow_rounded_sum :
  (exists a b,
     decimal 4001 10 = Fin a /\ decimal 999 10 = Fin b /\ (500 < a + b)%Q)
  /\ isOverflow (mkSplitContext (docNode []) (decimal 4001 10) None (of_Z 500)
                   (of_Z 20))
       (decimal 999 10) = false
  /\ isOverflow (mkSplitContext (docNode []) (of_Z (2 ^ 53)) None
                   (of_Z (2 ^ 53)) (of_Z 20))
       (of_Z 1) = false.
Proof.
  split; [|split; vm_compute; reflexivity].
  eexists _, _. split; [vm_compute; reflexivity|].
  split; [vm_compute; reflexivity|]. vm_compute. reflexivity.
Qed.

(** Heights that each round differently add up differently: 174.6,
    167.5, 37.3 and 48.6 are 428 in all, but accumulated as doubles they
    come to the next double above 428. *)
Example accumulated_sum_rounds :
  foldl num_add (of_Z 0)
    [decimal 1746 10; decimal 1675 10; decimal 373 10; decimal 486 10]
  = Fin ((428 * 2 ^ 44 + 1) # 2 ^ 44).
Proof. vm_compute. reflexivity. Qed.

(** ** C10: the page state keeps its options across transactions *)

(** C10.  For every page state [s] and transaction [tr], [transform]
    returns a state with the very [bodyOptions] of [s], whatever the
    metadata of the transaction; the flags [deleting], [inserting] and
    [splitPage] are read from the metadata of [tr] alone and are false
    when the key is absent. *)
Theorem transform_frame (s : PageState) (tr : Transaction) :
  bodyOptions (transform s tr) = bodyOptions s
  /\ deleting (transform s tr) =
       match tr_meta tr !! "deleting" with Some b => b | None => false end
  /\ inserting (transform s tr) =
       match tr_meta tr !! "inserting" with Some b => b | None => false end
  /\ splitPage (transform s tr) =
       match tr_meta tr !! "splitPage" with Some b => b | None => false end.
Proof.
  unfold transform, getMeta; simpl.
  repeat split;
    match goal with |- context [tr_meta tr !! ?k] =>
      destruct (tr_meta tr !! k); reflexivity end.
Qed.

(** The old flags of the state play no role. *)
Lemma transform_forgets_flags (o : PageOptions) (d i sp d' i' sp' : bool)
    (tr : Transaction) :
  transform (mkPageState o d i sp) tr = transform (mkPageState o d' i' sp') tr.
Proof. reflexivity. Qed.

Example transform_no_meta (o : PageOptions) (doc : Node) :
  transform (mkPageState o true true true) (mkTransaction doc 0 ∅)
  = mkPageState o false false false.
Proof. reflexivity. Qed.

Example transform_inserting (o : PageOptions) (doc : Node) :
  transform (mkPageState o true false true)
            (mkTransaction doc 0 {["inserting" := true]})
  = mkPageState o false true false.
Proof. reflexivity. Qed.

(** ** C7: validation of the page dimensions *)

Lemma isNullish_iff (v : JsValue) :
  isNullish v = true <-> v = JUndefined \/ v = JNull.
Proof.
  destruct v; simpl; split; intros H; try discriminate; try tauto;
    destruct H as [H|H]; discriminate.
Qed.

Lemma notPositiveNumber_iff (v : JsValue) :
  notPositiveNumber v = true <->
  typeof v <> TNumber \/ exists n, v = JNum n /\ Le_number n (of_Z 0).
Proof.
  destruct v; simpl; split; intros H;
    try (left; discriminate); try reflexivity.
  - right. exists n. split; [reflexivity|]. by apply num_le_Le.
  - destruct H as [H|(m & Hm & Hle)]; [congruence|].
    inversion Hm; subst. by apply num_le_Le.
Qed.

Lemma invalidDimension_iff (v : JsValue) :
  invalidDimension v <-> isNullish v || notPositiveNumber v = true.
Proof.
  unfold invalidDimension.
  rewrite orb_true_iff, isNullish_iff, notPositiveNumber_iff. tauto.
Qed.

Lemma positive_not_invalid (v : JsValue) :
  positiveDimension v -> ~ invalidDimension v.
Proof.
  intros (n & -> & Hgt) [H|[H|[H|(m & Hm & Hle)]]];
    try discriminate; try (by apply H).
  inversion Hm; subst. exact (Gt_not_Le _ _ Hgt Hle).
Qed.

(** C7.  [onBeforeCreate] throws a configuration error exactly when
    [bodyHeight] or [bodyWidth] is missing (undefined or null), is not a
    number, or is less than or equal to zero; when both dimensions are
    positive numbers it does not throw and goes on with the merged
    options, which carry the two dimensions unchanged. *)
Theorem onBeforeCreate_throws_iff (options : PageOptions) :
  ((exists e, onBeforeCreate options = inl e) <->
   invalidDimension (bodyHeight options) \/
   invalidDimension (bodyWidth options))
  /\ (positiveDimension (bodyHeight options) /\
      positiveDimension (bodyWidth options) ->
      exists merged,
        onBeforeCreate options = inr merged
        /\ bodyHeight merged = bodyHeight options
        /\ bodyWidth merged = bodyWidth options).
Proof.
  assert (Hiff : (exists e, onBeforeCreate options = inl e) <->
                 invalidDimension (bodyHeight options) \/
                 invalidDimension (bodyWidth options)).
  { rewrite !invalidDimension_iff. unfold onBeforeCreate.
    destruct (isNullish (bodyHeight options)) eqn:Hh;
      [split; [intros _; left; reflexivity | intros _; eauto]|].
    destruct (isNullish (bodyWidth options)) eqn:Hw;
      [split; [intros _; right; reflexivity | intros _; eauto]|].
    destruct (notPositiveNumber (bodyHeight options)) eqn:Hh';
      [split; [intros _; left; reflexivity | intros _; eauto]|].
    destruct (notPositiveNumber (bodyWidth options)) eqn:Hw';
      [split; [intros _; right; reflexivity | intros _; eauto]|].
    simpl. split; [intros [e He]; discriminate | intros [H|H]; discriminate]. }
  split; [exact Hiff|].
  intros [Hh Hw].
  destruct (onBeforeCreate options) as [e|merged] eqn:E.
  - exfalso. destruct (proj1 Hiff (ex_intro _ e eq_refl)) as [H|H].
    + exact (positive_not_invalid _ Hh H).
    + exact (positive_not_invalid _ Hw H).
  - exists merged. split; [reflexivity|].
    unfold onBeforeCreate in E.
    destruct (isNullish (bodyHeight options)); [discriminate|].
    destruct (isNullish (bodyWidth options)); [discriminate|].
    destruct (notPositiveNumber (bodyHeight options)); [discriminate|].
    destruct (notPositiveNumber (bodyWidth options)); [discriminate|].
    inversion E; subst merged; clear E.
    destruct Hh as (n & Hn & _), Hw as (m & Hm & _).
    unfold deepMerge; simpl. rewrite Hn, Hm. split; reflexivity.
Qed.

Lemma onBeforeCreate_throws_iff_witness :
  exists merged,
    onBeforeCreate a4Options = inr merged
    /\ bodyHeight merged = bodyHeight a4Options
    /\ bodyWidth merged = bodyWidth a4Options.
Proof.
  apply (proj2 (onBeforeCreate_throws_iff a4Options)).
  split; (eexists; split; [reflexivity|]); constructor; reflexivity.
Defined.

Example onBeforeCreate_missing_height :
  onBeforeCreate (mkPageOptions JUndefined (JNum (of_Z 816)) None None None None None)
  = inl BodyHeightRequired.
Proof. reflexivity. Qed.

Example onBeforeCreate_zero_width :
  onBeforeCreate (mkPageOptions (JNum (of_Z 1056)) (JNum (of_Z 0)) None None None None None)
  = inl BodyWidthNotPositive.
Proof. reflexivity. Qed.

Example onBeforeCreate_string_height :
  onBeforeCreate (mkPageOptions (JStr "1056") (JNum (of_Z 816)) None None None None None)
  = inl BodyHeightNotPositive.
Proof. reflexivity. Qed.

(** [NaN] is of type number and is not less than or equal to zero. *)
Example onBeforeCreate_NaN_height :
  exists merged,
    onBeforeCreate
      (mkPageOptions (JNum NaN) (JNum (of_Z 816)) None None None None None)
    = inr merged.
Proof. eexists. reflexivity. Qed.

(** ** Strings *)

Lemma length_substring_0 (s : string) (n : nat) :
  String.length (String.substring 0 n s) = Nat.min n (String.length s).
Proof.
  revert n. induction s as [|a s IH]; intros [|n]; simpl; auto.
Qed.

Lemma get_substring_0 (s : string) (n i : nat) :
  (i < n)%nat -> String.get i (String.substring 0 n s) = String.get i s.
Proof.
  revert n i. induction s as [|a s IH]; intros [|n] [|i] H; simpl;
    try reflexivity; try lia.
  apply IH. lia.
Qed.

Lemma substring_0_all (s : string) (n : nat) :
  (String.length s <= n)%nat -> String.substring 0 n s = s.
Proof.
  revert n. induction s as [|a s IH]; intros [|n] H; simpl in *;
    try reflexivity; try lia.
  f_equal. apply IH. lia.
Qed.

Lemma len_nonneg (s : string) : 0 <= len s.
Proof. unfold len. lia. Qed.

Lemma slice_0_substring (s : string) (m : Z) :
  0 <= m -> slice s 0 m = String.substring 0 (Z.to_nat (Z.min m (len s))) s.
Proof.
  intros Hm. unfold slice, clamp_index.
  pose proof (len_nonneg s).
  replace (0 <? 0) with false by reflexivity.
  destruct (m <? 0) eqn:E; [lia|].
  rewrite (Z.min_l 0 (len s)) by lia. simpl Z.to_nat at 1.
  f_equal. lia.
Qed.

Lemma len_slice_0 (s : string) (m : Z) :
  0 <= m <= len s -> len (slice s 0 m) = m.
Proof.
  intros Hm. rewrite slice_0_substring by lia.
  unfold len in *. rewrite length_substring_0. lia.
Qed.

Lemma charAt_slice_0 (s : string) (m i : Z) :
  0 <= i < m -> m <= len s -> charAt (slice s 0 m) i = charAt s i.
Proof.
  intros Hi Hm. rewrite slice_0_substring by lia.
  unfold charAt. destruct (i <? 0) eqn:E; [lia|].
  apply get_substring_0. lia.
Qed.

Lemma slice_0_len (s : string) : slice s 0 (len s) = s.
Proof.
  rewrite slice_0_substring by apply len_nonneg.
  apply substring_0_all. unfold len. lia.
Qed.

Lemma lastIndexOf_from_spec (s : string) (c : ascii) (i acc : Z) :
  (lastIndexOf_from i s c acc = acc /\
   forall k : nat, String.get k s <> Some c)
  \/ (i <= lastIndexOf_from i s c acc < i + len s /\
      String.get (Z.to_nat (lastIndexOf_from i s c acc - i)) s = Some c).
Proof.
  revert i acc. induction s as [|a s IH]; intros i acc.
  - left. split; [reflexivity|]. intros k. destruct k; discriminate.
  - cbn [lastIndexOf_from].
    assert (Hlen : len (String a s) = len s + 1)
      by (unfold len; simpl String.length; lia).
    destruct (IH (i + 1) (if Ascii.eqb a c then i else acc))
      as [[Heq Hno]|[Hr Hget]].
    + rewrite Heq. destruct (Ascii.eqb a c) eqn:E.
      * right. apply Ascii.eqb_eq in E. subst a.
        pose proof (len_nonneg s).
        split; [lia|]. replace (i - i) with 0 by lia. reflexivity.
      * left. split; [reflexivity|].
        intros [|k]; simpl; [|apply Hno].
        intros Hk. inversion Hk; subst. rewrite Ascii.eqb_refl in E.
        discriminate.
    + right. split; [lia|].
      set (r := lastIndexOf_from (i + 1) s c _) in *.
      replace (Z.to_nat (r - i)) with (S (Z.to_nat (r - (i + 1)))) by lia.
      exact Hget.
Qed.

Lemma lastIndexOf_spec (s : string) (c : ascii) :
  (lastIndexOf s c = -1 /\ forall k : nat, String.get k s <> Some c)
  \/ (0 <= lastIndexOf s c < len s /\ charAt s (lastIndexOf s c) = Some c).
Proof.
  unfold lastIndexOf.
  destruct (lastIndexOf_from_spec s c 0 (-1)) as [H|[Hr Hget]];
    [left; exact H|right].
  split; [lia|]. unfold charAt.
  destruct (_ <? 0) eqn:E; [lia|].
  rewrite Z.sub_0_r in Hget. exact Hget.
Qed.

(** ** The text-break search *)

Section TextBreakFacts.

Variable createAndCalculateHeight : string -> number.
Variable fullText : string.
Variable heightLimit : number.

Local Abbreviation loop :=
  (searchLoop createAndCalculateHeight fullText heightLimit).

Lemma slice_0_idem (s : string) (m : Z) :
  0 <= m <= len s -> slice (slice s 0 m) 0 m = slice s 0 m.
Proof.
  intros H.
  transitivity (slice (slice s 0 m) 0 (len (slice s 0 m))).
  - f_equal. symmetry. by apply len_slice_0.
  - apply slice_0_len.
Qed.

(** The midpoint lies between the bounds. *)
Lemma mid_bounds (low high : Z) :
  low <= high -> low <= (low + high) / 2 <= high.
Proof.
  intros H. split.
  - apply Z.div_le_lower_bound; lia.
  - apply Z.div_le_upper_bound; lia.
Qed.

(** One evaluation of the loop body on a prefix without a space: a prefix
    of at most 7 code units makes the search return 0; a longer one is
    measured whole, and accepted with its length as break offset when it
    fits. *)
Lemma searchLoop_spaceless (fuel : nat) (low high validBreak : Z) :
  1 <= low -> low <= high -> high <= len fullText ->
  noSpaceIn (slice fullText 0 ((low + high) / 2)) ->
  loop (S fuel) low high validBreak =
    if (low + high) / 2 <=? 7 then Some 0
    else if num_le (createAndCalculateHeight
                      (slice fullText 0 ((low + high) / 2))) heightLimit
         then loop fuel ((low + high) / 2 + 1) high ((low + high) / 2)
         else loop fuel low ((low + high) / 2 - 1) validBreak.
Proof.
  intros Hlow Hle Hhigh Hno.
  pose proof (mid_bounds low high Hle) as Hmid.
  cbn [searchLoop]. set (mid := (low + high) / 2) in *.
  destruct (low <=? high) eqn:E; [|lia].
  assert (Hlen : len (slice fullText 0 mid) = mid)
    by (apply len_slice_0; lia).
  destruct (lastIndexOf_spec (slice fullText 0 mid) space)
    as [[Hm1 _]|[_ Hsp]].
  2:{ exfalso. unfold charAt in Hsp.
      destruct (_ <? 0); [discriminate|]. exact (Hno _ Hsp). }
  rewrite Hm1, Hlen. cbn [Z.ltb Z.compare andb].
  destruct (mid <=? 7) eqn:E7.
  - replace (7 <? mid) with false by lia. reflexivity.
  - replace (7 <? mid) with true by lia. cbn [negb].
    rewrite slice_0_idem, Hlen by lia.
    replace (mid =? 0) with false by lia. cbn [andb].
    replace (0 <? mid) with true by lia. reflexivity.
Qed.

(** Every break offset handed on or returned has one of the four shapes. *)
Lemma searchLoop_shape (fuel : nat) :
  forall low high validBreak r,
    1 <= low -> high <= len fullText ->
    breakShape fullText validBreak ->
    loop fuel low high validBreak = Some r ->
    breakShape fullText r.
Proof.
  induction fuel as [|fuel IH]; intros low high v r Hlow Hhigh Hv Hr;
    [discriminate|].
  cbn [searchLoop] in Hr.
  destruct (low <=? high) eqn:E; [|inversion Hr; subst; exact Hv].
  assert (Hle : low <= high) by lia.
  pose proof (mid_bounds low high Hle) as Hmid.
  set (mid := (low + high) / 2) in *.
  assert (Hlen : len (slice fullText 0 mid) = mid)
    by (apply len_slice_0; lia).
  destruct (lastIndexOf_spec (slice fullText 0 mid) space)
    as [[Hm1 Hno]|[Hrange Hsp]].
  - (* no space in the prefix *)
    rewrite Hm1, Hlen in Hr. cbn [Z.ltb Z.compare andb] in Hr.
    destruct (7 <? mid) eqn:E7; cbn [negb] in Hr;
      [|inversion Hr; subst; left; reflexivity].
    rewrite slice_0_idem, Hlen in Hr by lia.
    replace (mid =? 0) with false in Hr by lia. cbn [andb] in Hr.
    replace (0 <? mid) with true in Hr by lia.
    destruct (num_le _ _).
    + eapply IH; [| | |exact Hr]; [lia|lia|].
      right; right; right. split; [lia|exact Hno].
    + eapply IH; [| | |exact Hr]; [lia|lia|exact Hv].
  - (* the prefix holds a space; the last one is at index [lsi] *)
    set (lsi := lastIndexOf (slice fullText 0 mid) space) in *.
    rewrite Hlen in Hrange.
    replace (lsi <? 0) with false in Hr by lia. cbn [andb] in Hr.
    assert (Hl2 : len (slice (slice fullText 0 mid) 0 lsi) = lsi)
      by (apply len_slice_0; lia).
    rewrite Hl2 in Hr.
    rewrite charAt_slice_0 in Hsp by lia.
    destruct (lsi =? 0) eqn:E0.
    + (* a leading space only *)
      assert (lsi = 0) by lia.
      cbn [andb] in Hr.
      destruct (1 <? mid) eqn:E1; cbn [negb] in Hr;
        [|inversion Hr; subst; left; reflexivity].
      replace (0 <? lsi) with false in Hr by lia.
      rewrite len_slice_0 in Hr by lia.
      destruct (num_le _ _).
      * eapply IH; [| | |exact Hr]; [lia|lia|].
        right; right; left. split; [reflexivity|]. congruence.
      * eapply IH; [| | |exact Hr]; [lia|lia|exact Hv].
    + cbn [andb] in Hr.
      replace (0 <? lsi) with true in Hr by lia.
      destruct (num_le _ _).
      * eapply IH; [| | |exact Hr]; [lia|lia|].
        right; left. split; [lia|exact Hsp].
      * eapply IH; [| | |exact Hr]; [lia|lia|exact Hv].
Qed.

(** The loop returns as soon as the fuel exceeds the width of the
    interval still to be searched. *)
Lemma searchLoop_returns (fuel : nat) :
  forall low high validBreak,
    1 <= low -> high <= len fullText ->
    (Z.to_nat (high + 1 - low) < fuel)%nat ->
    exists r, loop fuel low high validBreak = Some r.
Proof.
  induction fuel as [|fuel IH]; intros low high v Hlow Hhigh Hfuel; [lia|].
  cbn [searchLoop].
  destruct (low <=? high) eqn:E; [|eauto].
  assert (Hle : low <= high) by lia.
  pose proof (mid_bounds low high Hle) as Hmid.
  set (mid := (low + high) / 2) in *.
  destruct (_ && _); [eauto|].
  destruct (_ && _); [eauto|].
  destruct (num_le _ _); apply IH; lia.
Qed.

Lemma binarySearchTextBreak_returns :
  exists r,
    binarySearchTextBreak createAndCalculateHeight fullText heightLimit
    = Some r.
Proof.
  unfold binarySearchTextBreak.
  apply searchLoop_returns; unfold len; lia.
Qed.

End TextBreakFacts.

(** *** C2: the shape of a break offset *)

(** C2 (amended).  For every text run, height budget and measuring
    function, the search returns, and a non-zero break offset it returns
    is the index of a space of the run (the cut falls right before that
    space), or the offset 1 right after a leading space, or the length of
    a prefix of more than 7 code units that contains no space -- in which
    case the cut may fall inside a word, whatever the length of the
    run. *)
Theorem binarySearchTextBreak_shape
    (createAndCalculateHeight : string -> number) (fullText : string)
    (heightLimit : number) :
  exists r,
    binarySearchTextBreak createAndCalculateHeight fullText heightLimit
    = Some r
    /\ breakShape fullText r.
Proof.
  destruct (binarySearchTextBreak_returns createAndCalculateHeight fullText
              heightLimit) as [r Hr].
  exists r. split; [exact Hr|].
  unfold binarySearchTextBreak in Hr.
  eapply searchLoop_shape in Hr; [exact Hr|lia|lia|left; reflexivity].
Qed.

(** C2 (as stated, refuted).  The run "abcdefghijklmnop" has 16 code units
    and no space; when a candidate fits as long as it has at most 10 code
    units, the search returns the offset 10, between "j" and "k": inside a
    word, although the run is not shorter than 7 code units. *)
Lemma binarySearchTextBreak_mid_word :
  binarySearchTextBreak (fun candidate => of_Z (len candidate))
    "abcdefghijklmnop" (of_Z 10) = Some 10
  /\ 10 <> 0
  /\ ~ atSpaceBoundary "abcdefghijklmnop" 10
  /\ ~ len "abcdefghijklmnop" < 7.
Proof.
  split; [reflexivity|]. split; [lia|]. split.
  - intros [H|H]; vm_compute in H; discriminate.
  - vm_compute. discriminate.
Qed.

(** The spec example in small: the longest prefix that fits ends at the
    last space before the limit. *)
Example binarySearchTextBreak_at_space :
  binarySearchTextBreak (fun candidate => of_Z (len candidate))
    "hello world foo bar" (of_Z 10) = Some 5.
Proof. reflexivity. Qed.

(** *** C8: prefixes without a space *)

(** C8.  In every evaluation of the loop body whose inspected prefix
    [fullText.slice(0, mid)] contains no space: if the prefix has at most
    7 code units the search returns 0 at once, and the whole run is
    rejected; if it has more than 7, the prefix itself is the candidate
    that is measured, and it is accepted, with its length as break
    offset, when it fits. *)
Theorem searchLoop_spaceless_prefix
    (createAndCalculateHeight : string -> number) (fullText : string)
    (heightLimit : number) (fuel : nat) (low high validBreak : Z) :
  1 <= low -> low <= high -> high <= len fullText ->
  noSpaceIn (slice fullText 0 ((low + high) / 2)) ->
  let mid := (low + high) / 2 in
  let loop := searchLoop createAndCalculateHeight fullText heightLimit in
  (mid <= 7 -> loop (S fuel) low high validBreak = Some 0)
  /\ (7 < mid ->
      loop (S fuel) low high validBreak =
        if num_le (createAndCalculateHeight (slice fullText 0 mid))
                  heightLimit
        then loop fuel (mid + 1) high mid
        else loop fuel low (mid - 1) validBreak).
Proof.
  intros Hlow Hle Hhigh Hno mid loop.
  pose proof (searchLoop_spaceless createAndCalculateHeight fullText
                heightLimit fuel low high validBreak Hlow Hle Hhigh Hno)
    as Hstep.
  fold mid in Hstep. subst loop.
  split; intros Hmid; rewrite Hstep.
  - replace (mid <=? 7) with true by lia. reflexivity.
  - replace (mid <=? 7) with false by lia. reflexivity.
Qed.

Lemma searchLoop_spaceless_prefix_witness :
  searchLoop (fun candidate => of_Z (len candidate)) "abcdef" (of_Z 100)
    1 1 6 0 = Some 0.
Proof.
  refine (proj1 (searchLoop_spaceless_prefix
                   (fun candidate => of_Z (len candidate)) "abcdef"
                   (of_Z 100) 0 1 6 0 _ _ _ _) _).
  - lia.
  - lia.
  - vm_compute. discriminate.
  - intros [|[|[|[|i]]]]; vm_compute; discriminate.
  - vm_compute. discriminate.
Defined.

Lemma get_beyond (u : string) (i : nat) :
  (String.length u <= i)%nat -> String.get i u = None.
Proof.
  revert i. induction u as [|a u IH]; intros [|i] H; cbn in *;
    try reflexivity; try lia.
  apply IH. lia.
Qed.

Lemma noSpaceIn_slice (s : string) (m : Z) :
  0 <= m -> noSpaceIn s -> noSpaceIn (slice s 0 m).
Proof.
  intros Hm Hno i. rewrite slice_0_substring by exact Hm.
  set (n := Z.to_nat (Z.min m (len s))).
  destruct (Nat.lt_ge_cases i n) as [Hi|Hi].
  - rewrite get_substring_0 by exact Hi. apply Hno.
  - rewrite get_beyond; [discriminate|].
    rewrite length_substring_0. lia.
Qed.

(** A run without any space that has at most 14 code units is rejected
    as a whole: the first prefix inspected has at most 7 code units. *)
Lemma binarySearchTextBreak_short_spaceless
    (createAndCalculateHeight : string -> number) (fullText : string)
    (heightLimit : number) :
  noSpaceIn fullText -> len fullText <= 14 ->
  binarySearchTextBreak createAndCalculateHeight fullText heightLimit
  = Some 0.
Proof.
  intros Hno Hlen. unfold binarySearchTextBreak.
  pose proof (len_nonneg fullText) as Hnn.
  destruct (Z.eq_dec (len fullText) 0) as [E0|Hne].
  - cbn [searchLoop]. rewrite E0. reflexivity.
  - pose proof (mid_bounds 1 (len fullText) ltac:(lia)) as Hmid.
    rewrite searchLoop_spaceless; try lia.
    + replace (_ <=? 7) with true; [reflexivity|].
      symmetry. apply Z.leb_le.
      assert ((1 + len fullText) / 2 < 8)
        by (apply Z.div_lt_upper_bound; lia).
      lia.
    + apply noSpaceIn_slice; [lia|exact Hno].
Qed.

(** A run of 14 code units without a space is rejected as a whole: the
    first prefix inspected has 7 code units. *)
Example binarySearchTextBreak_rejects_run :
  binarySearchTextBreak (fun _ => of_Z 0) "abcdefghijklmn" (of_Z 100)
  = Some 0.
Proof. reflexivity. Qed.

(** ** The document tree *)

(** *** Induction, equality and sizes *)

Lemma Node_ind' (P : Node -> Prop) :
  (forall t a c s, Forall P c -> P (mkNode t a c s)) ->
  forall n, P n.
Proof.
  intros H. fix IH 1. intros [t a c s]. apply H.
  induction c as [|x c IHc]; constructor; [apply IH|exact IHc].
Qed.

Lemma Node_eqb_eq (a b : Node) : Node_eqb a b = true <-> a = b.
Proof.
  revert b. induction a as [t1 a1 c1 s1 IH] using Node_ind'.
  intros [t2 a2 c2 s2]. cbn [Node_eqb].
  rewrite !andb_true_iff, !bool_decide_eq_true, String.eqb_eq.
  assert (Hc : (fix all2 (l1 l2 : list Node) : bool :=
                  match l1, l2 with
                  | [], [] => true
                  | x :: l1', y :: l2' => Node_eqb x y && all2 l1' l2'
                  | _, _ => false
                  end) c1 c2 = true <-> c1 = c2).
  { clear -IH. revert c2. induction IH as [|x c1 Hx _ IHc]; intros [|y c2];
      try (split; [discriminate|discriminate]); try tauto.
    rewrite andb_true_iff, Hx, IHc. split.
    - intros [-> ->]. reflexivity.
    - intros E. inversion E. tauto. }
  rewrite Hc. split.
  - intros [[[-> ->] ->] ->]. reflexivity.
  - intros E. inversion E. tauto.
Qed.

Lemma optNode_eqb_eq (a b : option Node) : optNode_eqb a b = true <-> a = b.
Proof.
  destruct a as [x|], b as [y|]; simpl; try (split; [discriminate|discriminate]);
    try tauto.
  rewrite Node_eqb_eq. split; [intros ->; reflexivity|intros E; by inversion E].
Qed.

Lemma nodeSize_unfold (n : Node) :
  nodeSize n =
    if isText n then len (text n)
    else if isLeaf (type n) then 1
    else 2 + contentSize n.
Proof. destruct n as [t a c s]. reflexivity. Qed.

Lemma nodeSize_branch (n : Node) :
  isBranch n = true -> nodeSize n = 2 + contentSize n.
Proof.
  unfold isBranch. rewrite nodeSize_unfold.
  destruct (isText n), (isLeaf (type n)); simpl; try discriminate.
  reflexivity.
Qed.

Lemma nodeSize_nonneg (n : Node) : 0 <= nodeSize n.
Proof.
  induction n as [t a c s IH] using Node_ind'.
  rewrite nodeSize_unfold. unfold contentSize. cbn [content text type].
  destruct (isText _); [apply len_nonneg|].
  destruct (isLeaf t); [lia|].
  induction IH as [|x c Hx _ IHc]; cbn [fragmentSize]; lia.
Qed.

Lemma fragmentSize_app (l1 l2 : list Node) :
  fragmentSize (l1 ++ l2) = fragmentSize l1 + fragmentSize l2.
Proof. induction l1 as [|x l1 IH]; simpl; [reflexivity|]. rewrite IH. lia. Qed.

Lemma fragmentSize_nonneg (l : list Node) : 0 <= fragmentSize l.
Proof.
  induction l as [|x l IH]; cbn [fragmentSize]; [lia|].
  pose proof (nodeSize_nonneg x). lia.
Qed.

Lemma wellFormed_children (n : Node) :
  wellFormed n = true -> Forall (fun c => wellFormed c = true) (content n).
Proof.
  destruct n as [t a c s]. cbn [wellFormed content].
  rewrite andb_true_iff. intros [_ H].
  apply Forall_forall. intros x Hx.
  rewrite forallb_forall in H. apply H. by apply list_elem_of_In.
Qed.

Lemma wellFormed_branch (n : Node) :
  wellFormed n = true -> contentSize n <> 0 -> isBranch n = true.
Proof.
  destruct n as [t a c s]. unfold contentSize, isBranch, isText.
  cbn [wellFormed content type].
  rewrite andb_true_iff. intros [H _] Hsize.
  destruct c as [|x c]; [cbn in Hsize; congruence|exact H].
Qed.

(** *** Insertion at the end of the last child *)

(** Inserting at the end of the content of a node appends a child. *)
Lemma placeIn_end (inside : Node -> Z -> Node -> option Node) (new : Node)
    (cs : list Node) :
  forall curPos pos,
    cs <> [] -> Forall (fun n => 0 < nodeSize n) cs ->
    pos = curPos + fragmentSize cs ->
    placeIn inside pos new cs curPos = Some (cs ++ [new]).
Proof.
  induction cs as [|x cs IH]; intros curPos pos Hne Hall Hp; [congruence|].
  inversion Hall as [|? ? Hx Hcs]; subst. cbn [fragmentSize placeIn].
  destruct cs as [|y cs].
  - cbn [fragmentSize]. replace (curPos + nodeSize x =? _) with true by lia.
    reflexivity.
  - pose proof (fragmentSize_nonneg (y :: cs)) as Hnn.
    inversion Hcs as [|? ? Hy Hcs']; subst.
    pose proof (fragmentSize_nonneg cs) as Hnn'.
    cbn [fragmentSize] in *.
    replace (curPos + nodeSize x =? _) with false by lia.
    replace (_ <? curPos + nodeSize x) with false by lia.
    rewrite (IH (curPos + nodeSize x)); [reflexivity|discriminate|exact Hcs|].
    cbn [fragmentSize]. lia.
Qed.

Lemma insertInto_end (parent new : Node) :
  Forall (fun n => 0 < nodeSize n) (content parent) ->
  insertInto parent (contentSize parent) new
  = Some (copy parent (content parent ++ [new])).
Proof.
  intros Hpos. destruct parent as [t a c s].
  unfold contentSize. cbn [insertInto content] in *.
  destruct (fragmentSize c =? 0) eqn:E0.
  - destruct Hpos as [|x c Hx Hc]; [reflexivity|].
    pose proof (fragmentSize_nonneg c). simpl in E0. lia.
  - rewrite placeIn_end; [reflexivity| |exact Hpos|lia].
    intros ->. discriminate.
Qed.

(** Inserting just before the end of the content of a node whose last
    child is a branch appends a child to that last child. *)
Lemma placeIn_last_child (pos : Z) (lastOne new : Node) (cs : list Node) :
  forall curPos,
    isBranch lastOne = true ->
    Forall (fun n => 0 < nodeSize n) (cs ++ content lastOne) ->
    pos = curPos + fragmentSize cs + nodeSize lastOne - 1 ->
    placeIn insertInto pos new (cs ++ [lastOne]) curPos
    = Some (cs ++ [copy lastOne (content lastOne ++ [new])]).
Proof.
  induction cs as [|x cs IH]; intros curPos Hb Hall Hp.
  - cbn [app fragmentSize placeIn] in *.
    pose proof (nodeSize_branch _ Hb) as Hsize.
    pose proof (fragmentSize_nonneg (content lastOne)) as Hnn.
    unfold contentSize in Hsize.
    replace (_ =? _) with false by lia.
    replace (_ <? _) with true by lia.
    unfold isBranch in Hb. destruct (isText lastOne); [discriminate|].
    replace (pos - curPos - 1) with (contentSize lastOne)
      by (unfold contentSize; lia).
    rewrite insertInto_end by exact Hall. reflexivity.
  - cbn [app] in Hall. apply Forall_cons in Hall as [Hx Hrest].
    pose proof (nodeSize_branch _ Hb) as Hsize.
    pose proof (Hrest) as Hrest'. apply Forall_app in Hrest' as [Hcs Hlast].
    pose proof (fragmentSize_nonneg cs) as Hn1.
    pose proof (fragmentSize_nonneg (content lastOne)) as Hn2.
    unfold contentSize in Hsize.
    cbn [app fragmentSize placeIn] in *.
    replace (_ =? _) with false by lia.
    replace (_ <? _) with false by lia.
    rewrite IH; [reflexivity|exact Hb|exact Hrest|lia].
Qed.

Lemma insertInto_last_child (parent : Node) (children : list Node)
    (lastOne new : Node) :
  content parent = children ++ [lastOne] ->
  isBranch lastOne = true ->
  Forall (fun n => 0 < nodeSize n) (children ++ content lastOne) ->
  insertInto parent (contentSize parent - 1) new
  = Some (copy parent
            (children ++ [copy lastOne (content lastOne ++ [new])])).
Proof.
  intros Hc Hb Hall.
  pose proof (nodeSize_branch _ Hb) as Hsize.
  pose proof (Hall) as Hall'. apply Forall_app in Hall' as [Hch Hlast].
  pose proof (fragmentSize_nonneg children) as Hn1.
  pose proof (fragmentSize_nonneg (content lastOne)) as Hn2.
  destruct parent as [t a c s]. cbn [content] in Hc. subst c.
  unfold contentSize in *. cbn [insertInto content].
  rewrite fragmentSize_app. cbn [fragmentSize].
  replace (_ =? 0) with false by lia.
  rewrite placeIn_last_child; [reflexivity|exact Hb|exact Hall|lia].
Qed.

(** *** Resolved positions *)

Lemma findIndexIn_nonempty (descend : Node -> Z -> Z -> list PathEntry)
    (node : Node) (parentOffset start : Z) (cs : list Node) (i curPos : Z) :
  findIndexIn descend node parentOffset start cs i curPos <> [].
Proof.
  revert i curPos. induction cs as [|x cs IH]; intros i curPos;
    [discriminate|].
  cbn [findIndexIn]. destruct (_ >=? _); [|apply IH].
  destruct (_ =? _); discriminate.
Qed.

Lemma resolveFrom_nonempty (node : Node) (parentOffset start : Z) :
  resolveFrom node parentOffset start <> [].
Proof.
  destruct node as [t a c s]. cbn [resolveFrom].
  destruct (parentOffset =? 0); [discriminate|].
  apply findIndexIn_nonempty.
Qed.

Lemma resolve_depth_nonneg (doc : Node) (pos : Z) (r : ResolvedPos) :
  resolve doc pos = Some r -> 0 <= depthOf r.
Proof.
  unfold resolve. destruct (_ && _); [|discriminate].
  intros H. inversion H; subst. unfold depthOf. cbn [path].
  pose proof (resolveFrom_nonempty doc pos 0).
  destruct (resolveFrom doc pos 0); [congruence|]. cbn [List.length]. lia.
Qed.

Lemma at_index_before (r : ResolvedPos) :
  0 <= depthOf r ->
  (fun e : PathEntry => e.2)
    <$> at_index (path r) (Z.of_nat (List.length (path r)) - 2)
  = beforeAt r (depthOf r).
Proof.
  unfold beforeAt, resolveDepth, depthOf.
  set (n := Z.of_nat (List.length (path r))). intros Hn.
  replace (n - 1 <? 0) with false by lia.
  destruct (n - 1 =? 0) eqn:E0.
  - replace (n - 2) with (-1) by lia. reflexivity.
  - replace (n - 1 =? n - 1 + 1) with false by lia.
    replace (n - 1 - 1) with (n - 2) by lia. reflexivity.
Qed.

Lemma nodeAt_pathNodes (r : ResolvedPos) (d : Z) :
  0 <= d -> nodeAt r d = pathNodes (path r) !! Z.to_nat d.
Proof.
  intros Hd. unfold nodeAt, resolveDepth, at_index, pathNodes.
  assert (E : (d <? 0) = false) by lia. rewrite E, E.
  by rewrite list_lookup_fmap.
Qed.

Lemma nodeAt_depth (doc : Node) (q : Z) (r : ResolvedPos) :
  resolve doc q = Some r -> exists n, nodeAt r (depthOf r) = Some n.
Proof.
  intros Hr. pose proof (resolve_depth_nonneg _ _ _ Hr) as Hd.
  rewrite nodeAt_pathNodes by lia.
  apply lookup_lt_is_Some_2. unfold pathNodes. rewrite length_fmap.
  unfold depthOf in *. lia.
Qed.

Lemma pathWithin_cons (lo hi : Z) (e : PathEntry) (p : list PathEntry) :
  lo <= e.2 -> e.2 + 1 <= hi ->
  (p <> [] -> pathWithin (e.2 + 1) hi p) ->
  pathWithin lo hi (e :: p).
Proof.
  intros Hlo Hhi Hp. destruct p as [|e' p].
  - split; [constructor; [lia|constructor]|constructor].
  - destruct (Hp ltac:(discriminate)) as [H1 H2]. split.
    + constructor; [lia|]. eapply Forall_impl; [exact H1|].
      cbn. intros; lia.
    + change (removelast (e :: e' :: p)) with (e :: removelast (e' :: p)).
      constructor; [lia|exact H2].
Qed.

Lemma pathWithin_single (lo hi : Z) (e : PathEntry) :
  lo <= e.2 <= hi -> pathWithin lo hi [e].
Proof. intros H. split; [constructor; [exact H|constructor]|constructor]. Qed.

Lemma findIndexIn_within (node : Node) (q start : Z) (cs : list Node) :
  Forall (fun c => forall q start,
              0 <= q -> pathWithin start (start + q) (resolveFrom c q start))
         cs ->
  forall i curPos,
    0 <= curPos < q ->
    pathWithin start (start + q)
      (findIndexIn resolveFrom node q start cs i curPos).
Proof.
  induction 1 as [|c cs Hc _ IH]; intros i curPos Hcur.
  - cbn [findIndexIn]. apply pathWithin_single. cbn. lia.
  - cbn [findIndexIn]. pose proof (nodeSize_nonneg c).
    destruct (_ >=? q) eqn:E; [|apply IH; lia].
    destruct (_ =? q) eqn:E'; [apply pathWithin_single; cbn; lia|].
    apply pathWithin_cons; cbn [snd]; [lia|lia|].
    destruct (isText c); [intros Hne; exfalso; by apply Hne|]. intros _.
    replace (start + q)
      with (start + curPos + 1 + (q - curPos - 1)) by lia.
    apply Hc. lia.
Qed.

Lemma resolveFrom_within (node : Node) :
  forall q start,
    0 <= q -> pathWithin start (start + q) (resolveFrom node q start).
Proof.
  induction node as [t a c s IH] using Node_ind'. intros q start Hq.
  cbn [resolveFrom content].
  destruct (q =? 0) eqn:E; [apply pathWithin_single; cbn; lia|].
  apply findIndexIn_within; [exact IH|lia].
Qed.

Lemma removelast_length {A : Type} (l : list A) :
  List.length (removelast l) = pred (List.length l).
Proof.
  induction l as [|x l _] using rev_ind; [reflexivity|].
  rewrite removelast_last, length_app. cbn. lia.
Qed.

Lemma removelast_lookup {A : Type} (l : list A) (i : nat) :
  (i < List.length (removelast l))%nat -> removelast l !! i = l !! i.
Proof.
  induction l as [|x l _] using rev_ind; [cbn; lia|].
  rewrite removelast_last. intros Hi. by rewrite lookup_app_l.
Qed.

Lemma startAt_bounds (doc : Node) (q : Z) (r : ResolvedPos) (i : Z) :
  resolve doc q = Some r ->
  0 <= i <= depthOf r ->
  exists s, startAt r i = Some s /\ 0 <= s <= q.
Proof.
  unfold resolve. destruct (_ && _) eqn:Hrange; [|discriminate].
  intros H Hi. inversion H; subst r; clear H.
  apply andb_true_iff in Hrange as [Hq0 Hq1].
  unfold startAt, resolveDepth, depthOf in *. cbn [path] in *.
  replace (i <? 0) with false by lia.
  destruct (i =? 0) eqn:E0; [exists 0; split; [reflexivity|lia]|].
  destruct (resolveFrom_within doc q 0 ltac:(lia)) as [Hall Hlast].
  remember (resolveFrom doc q 0) as p eqn:Hp0. clear Hp0.
  unfold at_index. replace (i - 1 <? 0) with false by lia.
  assert (Hlen : (Z.to_nat (i - 1) < List.length (removelast p))%nat)
    by (rewrite removelast_length; lia).
  destruct (lookup_lt_is_Some_2 _ _ Hlen) as [e He].
  rewrite Forall_lookup in Hlast. pose proof (Hlast _ _ He) as Hb.
  rewrite removelast_lookup in He by exact Hlen.
  rewrite He. cbn. exists (e.2 + 1). split; [reflexivity|].
  rewrite Forall_lookup in Hall. pose proof (Hall _ _ He). lia.
Qed.

(** *** The walk over the descendants *)

(** The walk of a callback that enters every node and ignores the parent
    and the index is a fold over the nodes in document order. *)
Section WalkAsFold.

Context {S : Type}.
Variable g : S -> Node -> Z -> S.

Variable f : S -> Node -> Z -> Node -> Z -> S * bool.
Hypothesis f_enters :
  forall st n p parent i, f st n p parent i = (g st n p, true).

Lemma visitChildren_fold (parent : Node) (nodeStart : Z)
    (ancestors : list Node) (cs : list Node) :
  Forall (fun c => forall ancestors nodeStart st,
              nodesBetween f c nodeStart st
              = foldl (walkStep g) st (nodesWithAncestors ancestors c nodeStart))
         cs ->
  forall i pos st,
    visitChildren f (nodesBetween f) parent nodeStart cs i pos st
    = foldl (walkStep g) st
        (childrenWithAncestors nodesWithAncestors ancestors parent nodeStart
           cs pos).
Proof.
  induction 1 as [|c cs Hc _ IH]; intros i pos st; [reflexivity|].
  cbn [visitChildren childrenWithAncestors foldl].
  rewrite f_enters, foldl_app, IH. f_equal.
  cbn [andb]. destruct (negb (contentSize c =? 0)); [|reflexivity].
  apply Hc.
Qed.

Lemma nodesBetween_fold (parent : Node) :
  forall ancestors nodeStart st,
    nodesBetween f parent nodeStart st
    = foldl (walkStep g) st (nodesWithAncestors ancestors parent nodeStart).
Proof.
  induction parent as [t a c s IH] using Node_ind'.
  intros ancestors nodeStart st.
  cbn [nodesBetween nodesWithAncestors content].
  by apply visitChildren_fold.
Qed.

End WalkAsFold.

(** *** Resolving the position of a node gives its ancestors *)

Lemma findIndexIn_skip (descend : Node -> Z -> Z -> list PathEntry)
    (node : Node) (q start : Z) (pre rest : list Node) :
  forall i curPos,
    curPos + fragmentSize pre < q ->
    findIndexIn descend node q start (pre ++ rest) i curPos
    = findIndexIn descend node q start rest
        (i + Z.of_nat (List.length pre)) (curPos + fragmentSize pre).
Proof.
  induction pre as [|x pre IH]; intros i curPos Hlt.
  - cbn [app fragmentSize List.length]. f_equal; lia.
  - cbn [app fragmentSize List.length findIndexIn] in *.
    pose proof (fragmentSize_nonneg pre).
    replace (_ >=? q) with false by lia.
    rewrite IH by lia. f_equal; lia.
Qed.

Lemma findIndexIn_exact (descend : Node -> Z -> Z -> list PathEntry)
    (node : Node) (q start : Z) (pre rest : list Node) :
  forall i curPos,
    curPos < q -> q = curPos + fragmentSize pre ->
    pathNodes (findIndexIn descend node q start (pre ++ rest) i curPos)
    = [node].
Proof.
  induction pre as [|x pre IH]; intros i curPos Hlt Hq.
  - cbn [fragmentSize] in Hq. lia.
  - cbn [app fragmentSize findIndexIn] in *.
    pose proof (fragmentSize_nonneg pre).
    destruct (_ >=? q) eqn:E.
    + replace (_ =? q) with true by lia. reflexivity.
    + apply IH; lia.
Qed.

Lemma resolveFrom_child (node : Node) (pre rest : list Node) (start : Z) :
  content node = pre ++ rest ->
  pathNodes (resolveFrom node (fragmentSize pre) start) = [node].
Proof.
  intros Hc. destruct node as [t a c s]. cbn [content] in Hc. subst c.
  cbn [resolveFrom content].
  destruct (fragmentSize pre =? 0) eqn:E; [reflexivity|].
  pose proof (fragmentSize_nonneg pre).
  apply findIndexIn_exact; lia.
Qed.

Lemma resolveFrom_inside (node c : Node) (pre rest : list Node)
    (q' start : Z) :
  content node = pre ++ c :: rest ->
  isBranch c = true ->
  0 <= q' <= contentSize c ->
  resolveFrom node (fragmentSize pre + 1 + q') start
  = (node, Z.of_nat (List.length pre), start + fragmentSize pre)
    :: resolveFrom c q' (start + fragmentSize pre + 1).
Proof.
  intros Hc Hb Hq. destruct node as [t a cs s]. cbn [content] in Hc. subst cs.
  cbn [resolveFrom content].
  pose proof (fragmentSize_nonneg pre).
  pose proof (nodeSize_branch _ Hb) as Hsize.
  replace (_ =? 0) with false by lia.
  rewrite findIndexIn_skip by lia.
  cbn [findIndexIn].
  replace (_ >=? _) with true by lia.
  replace (_ =? _) with false by lia.
  unfold isBranch in Hb. destruct (isText c); [discriminate|].
  rewrite !Z.add_0_l.
  replace (fragmentSize pre + 1 + q' - fragmentSize pre - 1) with q' by lia.
  reflexivity.
Qed.

Lemma childrenWithAncestors_resolve (parent : Node) (ancestors : list Node)
    (nodeStart : Z) (cs : list Node) :
  Forall (fun c => wellFormed c = true) cs ->
  Forall (fun c => forall ancestors nodeStart x,
              x ∈ nodesWithAncestors ancestors c nodeStart ->
              resolvesBelow c ancestors nodeStart x) cs ->
  forall pre,
    content parent = pre ++ cs ->
    forall x,
      x ∈ childrenWithAncestors nodesWithAncestors ancestors parent nodeStart
            cs (fragmentSize pre) ->
      resolvesBelow parent ancestors nodeStart x.
Proof.
  intros Hwf IH. revert Hwf.
  induction IH as [|c cs Hc _ IHcs]; intros Hwf pre Hcontent x Hx;
    [by apply elem_of_nil in Hx|].
  apply Forall_cons in Hwf as [Hwfc Hwfcs].
  cbn [childrenWithAncestors] in Hx.
  pose proof (fragmentSize_nonneg pre) as Hpre.
  pose proof (fragmentSize_nonneg cs) as Hcs.
  pose proof (nodeSize_nonneg c) as Hsz.
  assert (Htotal : contentSize parent
                   = fragmentSize pre + nodeSize c + fragmentSize cs).
  { unfold contentSize. rewrite Hcontent, fragmentSize_app.
    cbn [fragmentSize]. lia. }
  apply elem_of_cons in Hx as [->|Hx].
  - (* the child itself *)
    exists [parent]. cbn [fst snd]. split; [reflexivity|].
    replace (nodeStart + fragmentSize pre - nodeStart)
      with (fragmentSize pre) by lia.
    split; [lia|]. intros start. by eapply resolveFrom_child.
  - apply elem_of_app in Hx as [Hx|Hx].
    + (* a node below the child *)
      destruct (contentSize c =? 0) eqn:E0; cbn [negb] in Hx;
        [by apply elem_of_nil in Hx|].
      assert (Hb : isBranch c = true) by (apply wellFormed_branch; [done|lia]).
      destruct (Hc _ _ _ Hx) as (chain & Hanc & Hrange & Hres).
      exists (chain ++ [parent]). split; [by rewrite <- app_assoc|].
      pose proof (nodeSize_branch _ Hb) as Hsize.
      split; [lia|]. intros start.
      replace (x.2 - nodeStart)
        with (fragmentSize pre + 1
              + (x.2 - (nodeStart + fragmentSize pre + 1))) by lia.
      rewrite (resolveFrom_inside parent c pre cs) by (done || lia).
      unfold pathNodes in *. cbn [fmap list_fmap fst]. rewrite Hres.
      by rewrite rev_app_distr.
    + (* a later child *)
      apply (IHcs Hwfcs (pre ++ [c])).
      * by rewrite <- app_assoc.
      * rewrite fragmentSize_app. cbn [fragmentSize].
        replace (fragmentSize pre + (nodeSize c + 0))
          with (fragmentSize pre + nodeSize c) by lia.
        exact Hx.
Qed.

Lemma nodesWithAncestors_resolve (parent : Node) :
  wellFormed parent = true ->
  forall ancestors nodeStart x,
    x ∈ nodesWithAncestors ancestors parent nodeStart ->
    resolvesBelow parent ancestors nodeStart x.
Proof.
  induction parent as [t a c s IH] using Node_ind'.
  intros Hwf ancestors nodeStart x Hx.
  cbn [nodesWithAncestors content] in Hx.
  pose proof (wellFormed_children _ Hwf) as Hch. cbn [content] in Hch.
  eapply (childrenWithAncestors_resolve _ _ _ c Hch) with (pre := []);
    [|reflexivity|exact Hx].
  clear -IH Hch. induction IH as [|y c Hy _ IHc]; [constructor|].
  apply Forall_cons in Hch as [Hwy Hwc].
  constructor; [|by apply IHc].
  intros anc ns x Hx. by apply Hy.
Qed.

(** ** C1: the dedupe step *)

(** A node without an id, and a text node, are passed over together with
    everything below them; the first node met with an id is registered
    and entered. *)
Lemma dedupeVisit_passes_over (st : gmap JsValue NodeData * list Operation)
    (node : Node) (pos : Z) (parent : Node) (index : Z) :
  truthy (attr node "id") = false \/ isText node = true ->
  dedupeVisit st node pos parent index = (st, false).
Proof.
  unfold dedupeVisit, isText. destruct st as [idMap operations].
  intros [H|H]; rewrite H; [reflexivity|]. by rewrite orb_true_r.
Qed.

Lemma dedupeVisit_registers (idMap : gmap JsValue NodeData)
    (operations : list Operation) (node : Node) (pos : Z)
    (parent : Node) (index : Z) :
  truthy (attr node "id") = true ->
  isText node = false ->
  idMap !! attr node "id" = None ->
  dedupeVisit (idMap, operations) node pos parent index
  = ((<[attr node "id" := mkNodeData node pos]> idMap, operations), true).
Proof.
  intros Hid Htext Hnew. unfold isText in Htext. unfold dedupeVisit.
  by rewrite Hid, Htext, Hnew.
Qed.

(** When the scan meets a non-text node whose id is already registered,
    it compares the node with the registered one only: the one with the
    smaller node size is kept registered (the registered one when the
    sizes are equal), and the other, larger one is deleted exactly when
    the text of the kept node contains its text and it has children;
    otherwise its id is regenerated.  The children of the node met are
    not entered. *)
Lemma dedupeVisit_duplicate (idMap : gmap JsValue NodeData)
    (operations : list Operation) (node : Node) (pos : Z)
    (parent : Node) (index : Z) (old : NodeData) :
  truthy (attr node "id") = true ->
  isText node = false ->
  idMap !! attr node "id" = Some old ->
  exists deleteNode preserveNode,
    ((deleteNode = old /\ preserveNode = mkNodeData node pos
      /\ nodeSize node < nodeSize (nd_node old))
     \/ (deleteNode = mkNodeData node pos /\ preserveNode = old
         /\ nodeSize (nd_node old) <= nodeSize node))
    /\ nodeSize (nd_node preserveNode) <= nodeSize (nd_node deleteNode)
    /\ dedupeVisit (idMap, operations) node pos parent index =
         ((<[attr node "id" := preserveNode]> idMap,
           operations ++
           [if includes (textContent (nd_node preserveNode))
                        (textContent (nd_node deleteNode))
               && (0 <? childCount (nd_node deleteNode))
            then OpDelete (nd_pos deleteNode + 1)
                          (nd_pos deleteNode
                           + nodeSize (nd_node deleteNode) + 1)
            else OpChangeId (nd_pos deleteNode)]),
          false).
Proof.
  intros Hid Htext Hold. unfold isText in Htext.
  unfold dedupeVisit. rewrite Hid, Htext, Hold. cbn [negb orb nd_node].
  destruct (nodeSize (nd_node old) >? nodeSize node) eqn:E.
  - exists old, (mkNodeData node pos). cbn [nd_node nd_pos].
    split; [left; repeat split; lia|]. split; [lia|reflexivity].
  - exists (mkNodeData node pos), old. cbn [nd_node nd_pos].
    split; [right; repeat split; lia|]. split; [lia|reflexivity].
Qed.

(** The scan of [sharedIdPage] after it has registered the paragraph
    "Hello" and meets "Hello world". *)
Example dedupeVisit_duplicate_hello_world :
  dedupeVisit ({[JStr "X" := mkNodeData helloParagraph 1]}, [])
    helloWorldParagraph 8 sharedIdPageNode 1
  = ((<[JStr "X" := mkNodeData helloParagraph 1]>
        {[JStr "X" := mkNodeData helloParagraph 1]},
      [OpChangeId 8]), false).
Proof.
  destruct (dedupeVisit_duplicate
              {[JStr "X" := mkNodeData helloParagraph 1]} []
              helloWorldParagraph 8 sharedIdPageNode 1
              (mkNodeData helloParagraph 1))
    as (d & p & [(Hd & Hp & Hlt)|(Hd & Hp & Hle)] & _ & Hv);
    [reflexivity|reflexivity|vm_compute; reflexivity| |].
  - exfalso. vm_compute in Hlt. inversion Hlt.
  - subst d p. exact Hv.
Qed.

(** An invariant that every visit of a node of the tree preserves holds
    after the walk. *)
Section WalkInvariant.

Context {S : Type}.
Variable f : S -> Node -> Z -> Node -> Z -> S * bool.
Variable Inv : S -> Prop.

Lemma visitChildren_invariant (parent : Node) (nodeStart : Z)
    (ancestors : list Node) (cs : list Node) :
  Forall (fun c => forall ancestors nodeStart st,
              (forall x, x ∈ nodesWithAncestors ancestors c nodeStart ->
                         forall st p i, Inv st -> Inv (f st x.1.2 x.2 p i).1) ->
              Inv st -> Inv (nodesBetween f c nodeStart st))
         cs ->
  forall i pos st,
    (forall x,
        x ∈ childrenWithAncestors nodesWithAncestors ancestors parent
              nodeStart cs pos ->
        forall st p i, Inv st -> Inv (f st x.1.2 x.2 p i).1) ->
    Inv st ->
    Inv (visitChildren f (nodesBetween f) parent nodeStart cs i pos st).
Proof.
  induction 1 as [|c cs Hc _ IH]; intros i pos st Hf Hst; [exact Hst|].
  cbn [visitChildren childrenWithAncestors] in *.
  assert (Hhead : Inv (f st c (nodeStart + pos) parent i).1).
  { apply (Hf (parent :: ancestors, c, nodeStart + pos));
      [apply elem_of_cons; by left|exact Hst]. }
  destruct (f st c (nodeStart + pos) parent i) as [st1 descend].
  cbn [fst] in Hhead.
  apply IH.
  - intros x Hx. apply Hf. apply elem_of_cons. right.
    apply elem_of_app. by right.
  - destruct (descend && negb (contentSize c =? 0)) eqn:E; [|exact Hhead].
    apply andb_true_iff in E as [_ E].
    apply (Hc (parent :: ancestors)); [|exact Hhead].
    intros x Hx. apply Hf. apply elem_of_cons. right.
    apply elem_of_app. left. rewrite E. exact Hx.
Qed.

Lemma nodesBetween_invariant (parent : Node) :
  forall ancestors nodeStart st,
    (forall x, x ∈ nodesWithAncestors ancestors parent nodeStart ->
               forall st p i, Inv st -> Inv (f st x.1.2 x.2 p i).1) ->
    Inv st -> Inv (nodesBetween f parent nodeStart st).
Proof.
  induction parent as [t a c s IH] using Node_ind'.
  intros ancestors nodeStart st Hf Hst.
  cbn [nodesBetween content].
  by apply (visitChildren_invariant _ _ ancestors).
Qed.

End WalkInvariant.

Lemma insertByFrom_elem (o : Operation) (l : list Operation) (x : Operation) :
  x ∈ insertByFrom o l <-> x = o \/ x ∈ l.
Proof.
  induction l as [|y l IH]; cbn [insertByFrom].
  - rewrite list_elem_of_singleton. split; [by left|].
    intros [H|H]; [exact H|by apply elem_of_nil in H].
  - destruct (op_from o <=? op_from y).
    + apply elem_of_cons.
    + rewrite !elem_of_cons, IH. tauto.
Qed.

Lemma sortByFrom_elem (l : list Operation) (x : Operation) :
  x ∈ sortByFrom l <-> x ∈ l.
Proof.
  induction l as [|y l IH]; [reflexivity|].
  cbn [sortByFrom foldr]. fold (sortByFrom l).
  rewrite insertByFrom_elem, elem_of_cons, IH. tauto.
Qed.

(** Every visit of a node of the document preserves the invariant of the
    scan. *)
Lemma dedupeVisit_invariant (doc : Node)
    (st : gmap JsValue NodeData * list Operation) (x : Positioned)
    (parent : Node) (index : Z) :
  x ∈ nodesWithAncestors [] doc 0 ->
  dedupeInvariant doc st ->
  dedupeInvariant doc (dedupeVisit st x.1.2 x.2 parent index).1.
Proof.
  intros Hx [Hmap Hops]. destruct st as [idMap operations].
  cbn [fst snd] in *.
  assert (Hnew : nodeOf doc (mkNodeData x.1.2 x.2)).
  { exists x.1.1. cbn [nd_node nd_pos]. by destruct x as [[? ?] ?]. }
  destruct (truthy (attr x.1.2 "id")) eqn:Hid;
    [|rewrite dedupeVisit_passes_over by (by left); by split].
  destruct (isText x.1.2) eqn:Htext;
    [rewrite dedupeVisit_passes_over by (by right); by split|].
  destruct (idMap !! attr x.1.2 "id") as [old|] eqn:Hold.
  - destruct (dedupeVisit_duplicate idMap operations x.1.2 x.2 parent index
                old Hid Htext Hold)
      as (del & keep & Hcase & Hle & ->).
    destruct (Hmap _ _ Hold) as (Hold1 & Hold2 & _ & Hold4).
    unfold dedupeInvariant. cbn [fst snd]. split.
    + intros id d Hd. apply lookup_insert_Some in Hd as [[<- <-]|[_ Hd]];
        [|by apply Hmap].
      destruct Hcase as [(_ & -> & _)|(_ & -> & _)]; by repeat split.
    + apply Forall_app. split; [exact Hops|].
      constructor; [|constructor].
      exists del, keep.
      destruct Hcase as [(-> & -> & _)|(-> & -> & _)]; cbn [nd_node] in *;
        repeat split; try assumption; try congruence; try lia.
  - rewrite dedupeVisit_registers by assumption.
    unfold dedupeInvariant. cbn [fst snd]. split.
    + intros id d Hd. apply lookup_insert_Some in Hd as [[<- <-]|[_ Hd]];
        [by repeat split|by apply Hmap].
    + exact Hops.
Qed.

(** Every operation that the scan of the dedupe step issues comes from a
    comparison of two non-text nodes of the document that carry the same
    id.  The node the operation is aimed at ([deleteNode] in the source)
    is never the smaller of the two: the ternary hands the larger node to
    [deleteNode] and the smaller one to [preserveNode], and on equal sizes
    the later node to [deleteNode].  The operation is a deletion of the
    range from one past the start of that node to one past its end when
    the text of the other node contains its text and it has children, and
    a change of its id otherwise. *)
Theorem duplicateIdOperations_paired (doc : Node) (op : Operation) :
  op ∈ duplicateIdOperations doc ->
  exists deleteNode preserveNode,
    nodeOf doc deleteNode
    /\ nodeOf doc preserveNode
    /\ attr (nd_node deleteNode) "id" = attr (nd_node preserveNode) "id"
    /\ truthy (attr (nd_node deleteNode) "id") = true
    /\ isText (nd_node deleteNode) = false
    /\ isText (nd_node preserveNode) = false
    /\ nodeSize (nd_node preserveNode) <= nodeSize (nd_node deleteNode)
    /\ op = (if includes (textContent (nd_node preserveNode))
                         (textContent (nd_node deleteNode))
                && (0 <? childCount (nd_node deleteNode))
             then OpDelete (nd_pos deleteNode + 1)
                           (nd_pos deleteNode
                            + nodeSize (nd_node deleteNode) + 1)
             else OpChangeId (nd_pos deleteNode)).
Proof.
  unfold duplicateIdOperations. rewrite sortByFrom_elem. intros Hop.
  assert (Hinv : dedupeInvariant doc (descendants dedupeVisit doc (∅, []))).
  { unfold descendants. apply (nodesBetween_invariant _ _ doc []).
    - intros x Hx st p i. by apply dedupeVisit_invariant.
    - split; [|constructor]. intros id d Hd. cbn [fst] in Hd.
      by rewrite lookup_empty in Hd. }
  destruct Hinv as [_ Hops]. rewrite Forall_forall in Hops.
  exact (Hops _ Hop).
Qed.

(** The operation issued on [sharedIdPage] acts on "Hello world", the
    larger paragraph. *)
Lemma duplicateIdOperations_paired_witness :
  OpChangeId 8 ∈ duplicateIdOperations sharedIdPage
  /\ exists deleteNode preserveNode,
       nodeOf sharedIdPage deleteNode
       /\ nodeOf sharedIdPage preserveNode
       /\ attr (nd_node deleteNode) "id" = attr (nd_node preserveNode) "id"
       /\ truthy (attr (nd_node deleteNode) "id") = true
       /\ isText (nd_node deleteNode) = false
       /\ isText (nd_node preserveNode) = false
       /\ nodeSize (nd_node preserveNode) <= nodeSize (nd_node deleteNode)
       /\ OpChangeId 8 =
          (if includes (textContent (nd_node preserveNode))
                       (textContent (nd_node deleteNode))
              && (0 <? childCount (nd_node deleteNode))
           then OpDelete (nd_pos deleteNode + 1)
                         (nd_pos deleteNode
                          + nodeSize (nd_node deleteNode) + 1)
           else OpChangeId (nd_pos deleteNode)).
Proof.
  split.
  - vm_compute. apply list_elem_of_singleton. reflexivity.
  - apply (duplicateIdOperations_paired sharedIdPage (OpChangeId 8)).
    vm_compute. apply list_elem_of_singleton. reflexivity.
Defined.

(** C1.  The dedupe step on [sharedIdPage], where the paragraphs "Hello"
    (at position 1, size 7) and "Hello world" (at position 8, size 13)
    share the id "X".  "Hello world" is the larger; its text contains the
    text of "Hello", which has a child.  The claim keeps the larger
    paragraph and deletes the smaller one.  The scan does the opposite of
    the first and nothing of the second: it issues a single operation, a
    change of id, aimed at position 8 -- at "Hello world" -- and no
    deletion; the test for containment is made the wrong way round, the
    text of "Hello" being searched for "Hello world". *)
Lemma dedupe_regenerates_larger :
  nodeSize helloParagraph = 7
  /\ nodeSize helloWorldParagraph = 13
  /\ includes (textContent helloWorldParagraph) (textContent helloParagraph)
     = true
  /\ 0 < childCount helloParagraph
  /\ duplicateIdOperations sharedIdPage = [OpChangeId 8]
  /\ duplicateIdOperations sharedIdPage <> [OpDelete 2 9].
Proof.
  repeat split; try (vm_compute; reflexivity).
  vm_compute. discriminate.
Qed.

(** The sort is stable. *)
Example sortByFrom_stable :
  sortByFrom [OpChangeId 8; OpDelete 3 5; OpDelete 8 9; OpChangeId 3]
  = [OpDelete 3 5; OpChangeId 3; OpChangeId 8; OpDelete 8 9].
Proof. reflexivity. Qed.

(** For an exact duplicate the scan issues a deletion, aimed at the later
    of the two equal nodes (position 8, size 7): the range from 9 to 16. *)
Example dedupe_deletes_duplicate :
  duplicateIdOperations duplicatePage = [OpDelete 9 16].
Proof. vm_compute. reflexivity. Qed.

(** ** C4: the depth of the joins of the merge loop *)

Lemma single_page_ends (doc : Node) :
  childCount doc <= 1 -> lastChild doc = firstChild doc.
Proof.
  unfold childCount, lastChild, firstChild.
  destruct (content doc) as [|x [|y l]]; cbn [List.length]; try reflexivity.
  lia.
Qed.

Lemma mergeDepth_deep (doc : Node) :
  distinctEnds doc ->
  (mergeDepth doc = 2 /\ mergesDeep doc)
  \/ (mergeDepth doc = 1 /\ ~ mergesDeep doc).
Proof.
  intros Hends. unfold mergeDepth, mergesDeep.
  destruct (optNode_eqb (lastChild doc) (firstChild doc)) eqn:E; cbn [negb].
  - right. split; [reflexivity|]. apply optNode_eqb_eq in E.
    intros (Hmany & _). by apply (Hends Hmany).
  - assert (Hmany : 1 < childCount doc).
    { destruct (Z.ltb_spec 1 (childCount doc)) as [H|H]; [exact H|].
      apply single_page_ends in H. apply optNode_eqb_eq in H. congruence. }
    destruct (lastChild doc) as [lastPage|] eqn:El; cbn [mbind option_bind].
    2:{ cbn [extendFlag]. rewrite andb_false_r.
        right. split; [reflexivity|]. intros (_ & lp & f & H & _). discriminate. }
    destruct (firstChild lastPage) as [first|] eqn:Ef;
      cbn [extendFlag typeNameIncludes fmap option_fmap option_map].
    2:{ rewrite andb_false_r. right. split; [reflexivity|].
        intros (_ & lp & f & H & H' & _). congruence. }
    destruct (truthy (attr first "extend")) eqn:Ex.
    2:{ rewrite andb_false_r. right. split; [reflexivity|].
        intros (_ & lp & f & H & H' & H'' & _).
        inversion H; subst lp. rewrite Ef in H'. inversion H'; subst f.
        congruence. }
    rewrite andb_true_r.
    destruct (bool_decide _ || includes _ _) eqn:Ed.
    + left. split; [reflexivity|]. split; [exact Hmany|].
      exists lastPage, first. repeat split; try assumption.
      apply orb_true_iff in Ed. destruct Ed as [Ed|Ed]; [left|right; exact Ed].
      apply bool_decide_eq_true in Ed. symmetry. exact Ed.
    + right. split; [reflexivity|].
      intros (_ & lp & f & H & H' & _ & Hor).
      inversion H; subst lp. rewrite Ef in H'. inversion H'; subst f.
      apply orb_false_iff in Ed. destruct Ed as [Ed1 Ed2].
      destruct Hor as [Hor|Hor]; [|congruence].
      apply bool_decide_eq_false in Ed1. apply Ed1. symmetry. exact Hor.
Qed.

(** C4 (amended).  In every evaluation of the body of the merge loop, on
    a document whose first and last page are not one and the same unless
    it has a single page, the join depth is 2 exactly when the document
    has more than one page, the first child of the last page carries a
    truthy [extend] attribute, and that child either has the same type as
    the last child of the previous page or a type whose name contains
    "Extend"; in every other case the join depth is 1. *)
Theorem mergeStep_depth (count : Z) (tr : Transaction) (depth : Z)
    (joined : option Transaction) :
  distinctEnds (tr_doc tr) ->
  mergeStep count tr = Some (depth, joined) ->
  (depth = 2 /\ mergesDeep (tr_doc tr))
  \/ (depth = 1 /\ ~ mergesDeep (tr_doc tr)).
Proof.
  intros Hends. unfold mergeStep. destruct (_ >? _); [|discriminate].
  intros H. inversion H; subst. by apply mergeDepth_deep.
Qed.

(** The three pages of [threePages] differ, and the last one opens with
    a continuation block: the join is two levels deep. *)
Lemma mergeStep_depth_witness :
  (2 = 2 /\ mergesDeep threePages) \/ (2 = 1 /\ ~ mergesDeep threePages).
Proof.
  apply (mergeStep_depth 1 (mkTransaction threePages 0 ∅) 2
           (join (mkTransaction threePages 0 ∅) 23 2)).
  - intros _ H. apply (f_equal (fmap nodeSize)) in H.
    vm_compute in H. discriminate.
  - vm_compute. reflexivity.
Defined.

(** C4 (as stated, refuted).  On [threePages] the body of the loop picks
    depth 2 although the first child of the last page (a "NodeExtend"
    block) is not of the kind of the last child of the previous page (a
    "Node" block). *)
Lemma mergeStep_deep_without_same_kind :
  (exists joined,
     mergeStep 1 (mkTransaction threePages 0 ∅) = Some (2, joined))
  /\ ~ sameKindAndExtend threePages.
Proof.
  split.
  - eexists. vm_compute. reflexivity.
  - intros (lp & f & pl & Hl & Hf & Hp & Ht & _).
    vm_compute in Hl. inversion Hl; subst lp; clear Hl.
    vm_compute in Hf. inversion Hf; subst f; clear Hf.
    vm_compute in Hp. inversion Hp; subst pl; clear Hp.
    vm_compute in Ht. discriminate.
Qed.

(** The merge loop never exhausts the fuel it is started with: every join
    removes one page. *)
Lemma joinChildren_length (cs cs' : list Node) (pos depth : Z) :
  joinChildren cs pos depth = Some cs' ->
  List.length cs = S (List.length cs').
Proof.
  revert cs' pos. induction cs as [|l cs IH]; intros cs' pos H; [discriminate|].
  cbn [joinChildren] in H. destruct cs as [|r rest]; [discriminate|].
  destruct (pos =? nodeSize l).
  - destruct (joinNodes depth l r); [|discriminate].
    inversion H; subst. reflexivity.
  - destruct (pos <? nodeSize l); [discriminate|].
    destruct (joinChildren (r :: rest) (pos - nodeSize l) depth) as [tl|] eqn:E;
      [|discriminate].
    inversion H; subst. cbn [List.length]. f_equal. by eapply IH.
Qed.

Lemma mergeLoop_fuel (fuel : nat) :
  forall count tr,
    (List.length (content (tr_doc tr)) < fuel)%nat ->
    mergeLoop fuel count tr <> OutOfFuel.
Proof.
  induction fuel as [|fuel IH]; intros count tr Hf; [lia|].
  cbn [mergeLoop]. unfold mergeStep.
  destruct (_ >? _); [|discriminate].
  unfold join.
  destruct (joinChildren _ _ _) as [cs|] eqn:E; cbn [mbind option_bind];
    [|discriminate].
  apply IH. cbn [tr_doc]. apply joinChildren_length in E.
  unfold copy, content at 1. lia.
Qed.

Lemma mergeDefaultDocument_terminates (count : Z) (tr : Transaction) :
  mergeDefaultDocument count tr <> OutOfFuel.
Proof. apply mergeLoop_fuel. lia. Qed.

(** The spec example: three pages merged down to one, all the content in
    its original order. *)
Example mergeDefaultDocument_threePages :
  (fun tr => (textContent (tr_doc tr), childCount (tr_doc tr)))
    <$> mergeDefaultDocument 1 (mkTransaction threePages 0 ∅)
  = Done ("Helloworldxzzy", 1).
Proof. vm_compute. reflexivity. Qed.

(** ** C5: the paragraph strategy when no interior break is taken *)

(** Among children that are pairwise different, the test for the first
    child answers by the index. *)
Lemma isFirstChildOf_index (r : ResolvedPos) (parent : option Node)
    (node : Node) (i : Z) :
  childAt r parent node i -> isFirstChildOf parent node = (i =? 0).
Proof.
  intros (p & start & -> & _ & Hchild & Hnd).
  unfold isFirstChildOf, firstChild, child in *.
  destruct (i <? 0) eqn:Ei; [discriminate|]. apply Z.ltb_ge in Ei.
  destruct (i =? 0) eqn:E0.
  - apply Z.eqb_eq in E0. subst i. change (Z.to_nat 0) with 0%nat in Hchild.
    apply optNode_eqb_eq. by rewrite <- head_lookup in Hchild.
  - apply Z.eqb_neq in E0.
    destruct (optNode_eqb (head (content p)) (Some node)) eqn:E;
      [|reflexivity].
    apply optNode_eqb_eq in E. rewrite head_lookup in E.
    pose proof (NoDup_lookup _ _ _ _ Hnd E Hchild) as Hi. lia.
Qed.

(** C5 (amended).  For every paragraph that overflows the remaining
    budget and for which no interior break is taken, the strategy stops
    the descent and leaves the accumulated height as it is.  The paragraph
    is the child of its parent that the position points at, and differs
    from its siblings.  When it is not the first child of its parent, the
    boundary is set at the position of the paragraph, at the depth of that
    position.  When it is the first child, the boundary is set one level
    up -- at the position before the parent, one level less deep, that is
    two less than the number of levels of the resolved path -- provided
    that position exists and is not 0; otherwise (the parent starts the
    document) the boundary is left as it was. *)
Theorem paragraphComputed_fallback (Dom : Type)
    (getDomHeight : Dom -> number)
    (getBreakPos : Node -> Dom -> SplitContext -> option Z)
    (c : SplitContext) (node : Node) (pos : Z) (parent : option Node)
    (dom : Dom) (r : ResolvedPos) (i : Z) :
  isOverflow c (getDomHeight dom) = true ->
  noInteriorBreak (getDomHeight dom) c (getBreakPos node dom c) ->
  resolve (getDoc c) pos = Some r ->
  childAt r parent node i ->
  exists c',
    paragraphComputed Dom getDomHeight getBreakPos c node pos parent dom
    = Some (c', false)
    /\ getAccumulatedHeight c' = getAccumulatedHeight c
    /\ pageBoundary c' =
         if i =? 0 then
           match beforeAt r (depthOf r) with
           | Some before =>
               if before =? 0 then pageBoundary c
               else Some (mkSplitInfo before (depthOf r - 1))
           | None => pageBoundary c
           end
         else Some (mkSplitInfo pos (depthOf r)).
Proof.
  intros Hov Hno Hr Hchild.
  rewrite <- (isFirstChildOf_index r parent node i Hchild).
  unfold paragraphComputed, splitResolve, getDoc in *.
  rewrite Hov, Hr. cbn [negb fmap option_fmap option_map mbind option_bind].
  rewrite <- at_index_before by (by eapply resolve_depth_nonneg).
  set (n := Z.of_nat (List.length (path r))).
  replace (depthOf r) with (n - 1) by reflexivity.
  replace (n - 1 - 1) with (n - 2) by lia.
  set (fallback :=
         if isFirstChildOf parent node then
           match at_index (path r) (n - 2) with
           | Some chunk =>
               if negb (chunk.2 =? 0) then setBoundary c chunk.2 (n - 2) else c
           | None => c
           end
         else setBoundary c pos (n - 1)).
  assert (Hres : (let point :=
                    if num_gt (getDomHeight dom) (getDefaultHeight c)
                    then getBreakPos node dom c else None in
                  match point with
                  | Some p => if negb (p =? 0)
                              then Some (setBoundary c (pos + p) n, false)
                              else Some (fallback, false)
                  | None => Some (fallback, false)
                  end) = Some (fallback, false)).
  { cbv zeta. destruct Hno as [H|[H|H]]; rewrite H;
      try destruct (num_gt _ _); reflexivity. }
  exists fallback. split; [exact Hres|].
  subst fallback. destruct (isFirstChildOf parent node).
  - destruct (at_index (path r) (n - 2)) as [chunk|];
      cbn [fmap option_fmap option_map]; [|split; reflexivity].
    destruct (chunk.2 =? 0); split; reflexivity.
  - split; reflexivity.
Qed.

(** The tall paragraph opens the second page: the boundary moves to the
    position of that page, at depth 0. *)
Lemma paragraphComputed_fallback_witness :
  exists c',
    paragraphComputed number sampleHeight sampleNoBreak
      (newSplitContext twoPages (of_Z 500) (of_Z 20))
      tallParagraph 10 (Some (pageNode (JStr "p2") 2
                                [tallParagraph; paragraph (JStr "b") "x"]))
      (of_Z 700)
    = Some (c', false)
    /\ pageBoundary c' = Some (mkSplitInfo 9 0).
Proof.
  destruct (paragraphComputed_fallback number sampleHeight sampleNoBreak
              (newSplitContext twoPages (of_Z 500) (of_Z 20))
              tallParagraph 10
              (Some (pageNode (JStr "p2") 2
                       [tallParagraph; paragraph (JStr "b") "x"]))
              (of_Z 700)
              (mkResolvedPos 10 (resolveFrom twoPages 10 0)) 0)
    as (c' & Hc & _ & Hb).
  - reflexivity.
  - right; left. reflexivity.
  - vm_compute. reflexivity.
  - exists (pageNode (JStr "p2") 2 [tallParagraph; paragraph (JStr "b") "x"]),
      10.
    split; [reflexivity|]. split; [vm_compute; reflexivity|].
    split; [reflexivity|].
    apply NoDup_cons. split; [|apply NoDup_singleton].
    intros H. apply list_elem_of_singleton in H.
    apply (f_equal nodeSize) in H. vm_compute in H. discriminate.
  - exists c'. split; [exact Hc|]. rewrite Hb. vm_compute. reflexivity.
Defined.

(** C5 (as stated, refuted).  The tall paragraph is the first child of
    the only page and overflows the budget, and no interior break is
    found; yet no boundary is set at all, at the parent level or
    elsewhere: the position before the parent is 0. *)
Lemma paragraphComputed_first_page_no_boundary :
  isFirstChildOf (Some (pageNode (JStr "p1") 1 [tallParagraph]))
                 tallParagraph = true
  /\ isOverflow (newSplitContext onePage (of_Z 500) (of_Z 20)) (of_Z 700)
     = true
  /\ exists c',
       paragraphComputed number sampleHeight sampleNoBreak
         (newSplitContext onePage (of_Z 500) (of_Z 20))
         tallParagraph 1 (Some (pageNode (JStr "p1") 1 [tallParagraph]))
         (of_Z 700)
       = Some (c', false)
       /\ pageBoundary c' = None.
Proof.
  split; [vm_compute; reflexivity|]. split; [reflexivity|].
  eexists. split; vm_compute; reflexivity.
Qed.

(** ** C6: the paragraph added to an emptied first page *)

(** C6 (amended).  When a run takes neither the reflow path
    ([splitPage]) nor the shortcut for a deletion that leaves the
    transaction without steps while the head of the selection is in the
    last page, and the first page of the resulting document has no
    content while the first page of the document before the edit had
    some, and the schema makes a paragraph, then that paragraph is
    inserted into a page of the document, as one more step of the
    transaction.  When the document has a single page, its leading page
    is thereby not left empty. *)
Theorem run_adds_paragraph
    (replayOperation : Transaction -> Operation -> Transaction)
    (splitDocument checkNodeAndFix : Transaction -> Outcome Transaction)
    (createAndFill : NodeType -> Outcome (option Node))
    (pageState : PageState) (state prevState : EditorState)
    (tr' : Transaction) (t : NodeType) (paragraph : Node)
    (pages : list Node) (lastPage : Node) :
  let tr0 := removeElementsWithDuplicateId replayOperation (state_tr state) in
  splitPage pageState = false ->
  negb (inserting pageState) && deleting pageState
    && headInLastPage state && (tr_steps tr0 =? 0) = false ->
  (if inserting pageState || deleting pageState
   then tr ← computed splitDocument state tr0; checkNodeAndFix tr
   else Done tr0) = Done tr' ->
  firstPageEmpty (tr_doc tr') = true ->
  firstPageHasContent (state_doc prevState) = true ->
  schema state !! PARAGRAPH = Some t ->
  createAndFill t = Done (Some paragraph) ->
  isText paragraph = false ->
  content (tr_doc tr') = pages ++ [lastPage] ->
  isBranch lastPage = true ->
  Forall (fun n => 0 < nodeSize n) (pages ++ content lastPage) ->
  exists doc,
    run replayOperation splitDocument checkNodeAndFix createAndFill
      pageState state prevState
    = Done (mkTransaction doc (tr_steps tr' + 1) (tr_meta tr'))
    /\ childCount doc = childCount (tr_doc tr')
    /\ (exists page, page ∈ content doc /\ paragraph ∈ content page)
    /\ (pages = [] -> firstPageHasContent doc = true).
Proof.
  intros tr0 Hsplit Hshort Hmain Hempty Hprev Hschema Hfill Htext Hcontent
    Hbranch Hpos.
  exists (copy (tr_doc tr')
            (pages ++ [copy lastPage (content lastPage ++ [paragraph])])).
  split; [|split; [|split]].
  - unfold run. fold tr0. rewrite Hsplit, Hshort.
    change (Outcome_bind ?f ?m) with (mbind f m).
    rewrite Hmain. cbn [mbind Outcome_bind].
    rewrite Hempty, Hprev, Hschema. cbn [andb].
    rewrite Hfill. cbn [mbind Outcome_bind].
    unfold insert.
    rewrite (insertInto_last_child _ pages lastPage) by assumption.
    reflexivity.
  - unfold childCount, copy. cbn [content]. rewrite Hcontent.
    by rewrite !length_app.
  - exists (copy lastPage (content lastPage ++ [paragraph])). split.
    + unfold copy. cbn [content]. apply elem_of_app. right.
      by apply list_elem_of_singleton.
    + unfold copy. cbn [content]. apply elem_of_app. right.
      by apply list_elem_of_singleton.
  - intros ->. unfold firstPageHasContent, firstChild, copy, contentSize.
    cbn [content app head].
    rewrite fragmentSize_app. cbn [fragmentSize].
    pose proof (fragmentSize_nonneg (content lastPage)).
    assert (Hp : 0 < nodeSize paragraph).
    { rewrite nodeSize_unfold, Htext.
      pose proof (fragmentSize_nonneg (content paragraph)).
      unfold contentSize. destruct (isLeaf (type paragraph)); lia. }
    apply negb_true_iff. lia.
Qed.

(** The single page emptied by an edit gets a paragraph back. *)
Lemma run_adds_paragraph_witness :
  exists doc,
    run idleReplay idlePass idlePass filledWithDefaults
      (mkPageState a4Options false false false)
      stateEmptied stateBeforeEdit
    = Done (mkTransaction doc 1 ∅)
    /\ childCount doc = 1
    /\ firstPageHasContent doc = true.
Proof.
  destruct (run_adds_paragraph idleReplay idlePass idlePass
              filledWithDefaults
              (mkPageState a4Options false false false)
              stateEmptied stateBeforeEdit
              (state_tr stateEmptied) (blockType PARAGRAPH)
              (block PARAGRAPH JNull false []) []
              (pageNode (JStr "p1") 1 []))
    as (doc & Hrun & Hcount & _ & Hfilled).
  - reflexivity.
  - reflexivity.
  - vm_compute. reflexivity.
  - reflexivity.
  - reflexivity.
  - vm_compute. reflexivity.
  - reflexivity.
  - reflexivity.
  - reflexivity.
  - reflexivity.
  - constructor.
  - exists doc. split; [exact Hrun|]. split; [exact Hcount|].
    apply Hfilled. reflexivity.
Defined.

(** The shortcut for deletions does not depend on the collaborators. *)
Lemma run_deletion_shortcut
    (replayOperation : Transaction -> Operation -> Transaction)
    (splitDocument checkNodeAndFix : Transaction -> Outcome Transaction)
    (createAndFill : NodeType -> Outcome (option Node)) :
  run replayOperation splitDocument checkNodeAndFix createAndFill
    (mkPageState a4Options true false false) stateAfterEdit stateBeforeEdit
  = Done (state_tr stateAfterEdit).
Proof.
  unfold run, removeElementsWithDuplicateId.
  replace (duplicateIdOperations (tr_doc (state_tr stateAfterEdit)))
    with (@nil Operation) by (vm_compute; reflexivity).
  cbn [foldl splitPage inserting deleting negb andb].
  replace (headInLastPage stateAfterEdit) with true
    by (vm_compute; reflexivity).
  reflexivity.
Qed.

(** C6 (as stated, refuted).  The run for a deletion, with the head of
    the selection in the last page and no step pending, completes and
    returns the transaction untouched: the first page of the resulting
    document has no content, the first page before the edit had some,
    and no paragraph has been inserted. *)
Lemma run_leaves_first_page_empty :
  run idleReplay idlePass idlePass filledWithDefaults
    (mkPageState a4Options true false false)
    stateAfterEdit stateBeforeEdit
  = Done (mkTransaction emptyFirstPage 0 ∅)
  /\ firstPageEmpty emptyFirstPage = true
  /\ firstPageHasContent (state_doc stateBeforeEdit) = true.
Proof.
  split; [apply run_deletion_shortcut|]. split; reflexivity.
Qed.

(** With several pages the paragraph is inserted at the end of the last
    page: the leading page stays empty, although the comment in the code
    reads "If transaction returns an empty page, add a paragraph". *)
Example run_paragraph_in_last_page :
  run idleReplay idlePass idlePass filledWithDefaults
    (mkPageState a4Options false false false)
    stateAfterEdit stateBeforeEdit
  = Done (mkTransaction
            (docNode [pageNode (JStr "p1") 1 [];
                      pageNode (JStr "p2") 2
                        [paragraph (JStr "b") "a";
                         block PARAGRAPH JNull false []]])
            1 ∅).
Proof. vm_compute. reflexivity. Qed.

(** ** C3: the start number of a reopened ordered list *)

(** *** Counting the list items before a cut *)

Lemma orderedListAbove_take (r : ResolvedPos) (k : nat) :
  orderedListAbove r k (Z.of_nat k)
  = existsb (isNamed ORDEREDLIST) (take k (tail (pathNodes (path r)))).
Proof.
  induction k as [|k IH]; [reflexivity|].
  cbn [orderedListAbove].
  replace (Z.of_nat (S k) - 1) with (Z.of_nat k) by lia.
  rewrite nodeAt_pathNodes by lia.
  replace (Z.to_nat (Z.of_nat (S k))) with (S k) by lia.
  rewrite IH.
  assert (Hl : pathNodes (path r) !! S k = tail (pathNodes (path r)) !! k)
    by (destruct (pathNodes (path r)); reflexivity).
  rewrite Hl. clear Hl IH.
  generalize (tail (pathNodes (path r))) as l. intros l.
  revert k. induction l as [|x l IHl]; intros [|k]; cbn; try reflexivity.
  rewrite <- IHl.
  destruct (l !! k) as [n|]; [destruct (isNamed ORDEREDLIST n)|];
    destruct (isNamed ORDEREDLIST x); reflexivity.
Qed.

Lemma existsb_rev {A : Type} (p : A -> bool) (l : list A) :
  existsb p (rev l) = existsb p l.
Proof.
  induction l as [|x l IH]; [reflexivity|].
  cbn [rev existsb]. rewrite existsb_app, IH. cbn. rewrite orb_false_r.
  apply orb_comm.
Qed.

Lemma tail_rev {A : Type} (l : list A) : tail (rev l) = rev (removelast l).
Proof.
  induction l as [|x l IH] using rev_ind; [reflexivity|].
  rewrite rev_app_distr, removelast_last. reflexivity.
Qed.

(** The inner loop of the counting callbacks looks for an ordered list
    among the ancestors other than the document. *)
Lemma orderedListAbove_ancestors (r : ResolvedPos) (ancestors : list Node) :
  pathNodes (path r) = rev ancestors ->
  orderedListAbove r (Z.to_nat (depthOf r)) (depthOf r)
  = existsb (isNamed ORDEREDLIST) (removelast ancestors).
Proof.
  intros Hp.
  assert (Hlen : List.length (path r) = List.length ancestors).
  { rewrite <- (length_fmap (fun e : PathEntry => e.1.1)).
    fold (pathNodes (path r)). by rewrite Hp, length_rev. }
  unfold depthOf. rewrite Hlen.
  destruct ancestors as [|n ancestors _] using rev_ind.
  - reflexivity.
  - rewrite length_app. cbn [List.length].
    replace (Z.of_nat (List.length ancestors + 1) - 1)
      with (Z.of_nat (List.length ancestors)) by lia.
    rewrite Nat2Z.id, orderedListAbove_take, Hp, tail_rev, removelast_last.
    rewrite <- length_rev, firstn_all. apply existsb_rev.
Qed.

Lemma countVisit_enters (doc : Node) (lower : option Z) (splitPos : Z)
    (st : Outcome Z) (n : Node) (p : Z) (parent : Node) (i : Z) :
  countVisit doc lower splitPos st n p parent i
  = ((countVisit doc lower splitPos st n p n 0).1, true).
Proof.
  unfold countVisit. destruct st; try reflexivity.
  destruct (_ && _); [|reflexivity].
  destruct (resolve doc p); [|reflexivity].
  destruct (orderedListAbove _ _ _); reflexivity.
Qed.

Lemma countVisit_counts (doc : Node) (lower : option Z) (splitPos : Z)
    (xs : list Positioned) :
  Forall (resolvesBelow doc [] 0) xs ->
  forall k,
    foldl (walkStep (fun st n p =>
                       (countVisit doc lower splitPos st n p n 0).1))
          (Done k) xs
    = Done (k + Z.of_nat (List.length
                            (List.filter (countedItem lower splitPos) xs))).
Proof.
  induction 1 as [|x xs Hx _ IH]; intros k.
  - cbn. f_equal. lia.
  - cbn [foldl List.filter].
    destruct Hx as (chain & Hanc & Hrange & Hres).
    rewrite app_nil_r in Hanc. subst chain.
    rewrite Z.sub_0_r in Hrange, Hres.
    unfold walkStep at 2. unfold countVisit. unfold countedItem at 1.
    destruct (isNamed LISTITEM x.1.2
              && match lower with
                 | Some currentPos => x.2 >=? currentPos
                 | None => true
                 end && (x.2 <? splitPos)) eqn:E; cbn [andb fst].
    + unfold resolve.
      replace ((0 <=? x.2) && (x.2 <=? contentSize doc)) with true
        by (symmetry; apply andb_true_iff; lia).
      rewrite (orderedListAbove_ancestors _ x.1.1) by apply Hres.
      destruct (existsb _ _); cbv iota; cbn [fst List.length].
      * rewrite IH. f_equal. lia.
      * apply IH.
    + apply IH.
Qed.

(** The counting traversal of [calculateOrderedListStart] returns the
    number of list items that lie below an ordered list and within the
    bounds. *)
Lemma countVisit_descendants (doc : Node) (lower : option Z) (splitPos : Z) :
  wellFormed doc = true ->
  descendants (countVisit doc lower splitPos) doc (Done 0)
  = Done (listItemsBefore doc lower splitPos).
Proof.
  intros Hwf. unfold descendants, listItemsBefore.
  rewrite (nodesBetween_fold _ _ (countVisit_enters doc lower splitPos)
             doc [] 0).
  rewrite countVisit_counts; [f_equal; lia|].
  apply Forall_forall. intros x Hx.
  by apply nodesWithAncestors_resolve.
Qed.

(** The walk back to the start of the sequence returns, with a position
    that is not after the one it started from. *)
Lemma sequenceStart_returns (doc : Node) (fuel : nat) :
  forall currentPos,
    0 <= currentPos <= contentSize doc ->
    (Z.to_nat currentPos < fuel)%nat ->
    exists s,
      sequenceStart fuel doc currentPos = Done s /\ 0 <= s <= currentPos.
Proof.
  induction fuel as [|fuel IH]; intros cur Hrange Hfuel; [lia|].
  cbn [sequenceStart].
  destruct (cur >? 0) eqn:E; [|exists cur; split; [reflexivity|lia]].
  assert (Hr : resolve doc (cur - 1)
               = Some (mkResolvedPos (cur - 1) (resolveFrom doc (cur - 1) 0))).
  { unfold resolve.
    replace ((0 <=? cur - 1) && (cur - 1 <=? contentSize doc)) with true
      by (symmetry; apply andb_true_iff; lia).
    reflexivity. }
  set (r := mkResolvedPos (cur - 1) (resolveFrom doc (cur - 1) 0)) in *.
  rewrite Hr. cbn [orThrow mbind Outcome_bind].
  destruct (nodeAt_depth _ _ _ Hr) as [n Hn]. rewrite Hn.
  cbn [orThrow mbind Outcome_bind].
  destruct (isNamed ORDEREDLIST n); [|exists cur; split; [reflexivity|lia]].
  pose proof (resolve_depth_nonneg _ _ _ Hr) as Hd.
  destruct (startAt_bounds doc (cur - 1) r (depthOf r) Hr) as (s & Hs & Hsb);
    [lia|].
  rewrite Hs. cbn [orThrow mbind Outcome_bind].
  destruct (IH s) as (s' & Hs' & Hb'); [lia|lia|].
  exists s'. split; [exact Hs'|lia].
Qed.

Lemma closestFrom_depth (r : ResolvedPos) (predicate : Node -> bool)
    (steps : nat) :
  forall i found,
    closestFrom r predicate steps i = Some found ->
    i - Z.of_nat steps < pn_depth found <= i
    /\ startAt r (pn_depth found) = Some (pn_start found)
    /\ nodeAt r (pn_depth found) = Some (pn_node found)
    /\ predicate (pn_node found) = true.
Proof.
  induction steps as [|steps IH]; intros i found H; [discriminate|].
  cbn [closestFrom] in H.
  destruct (nodeAt r i) as [n|] eqn:En;
    [destruct (beforeAt r i) as [b|] eqn:Eb;
     [destruct (startAt r i) as [s|] eqn:Es;
      [destruct (predicate n) eqn:Ep|]|]|];
    try (apply IH in H; destruct H as (H1 & H2); split; [lia|exact H2]).
  inversion H; subst found; clear H. cbn [pn_depth pn_start pn_node].
  repeat split; try assumption; lia.
Qed.

Lemma calculateOrderedListStart_expected (doc listNode : Node)
    (splitPos : Z) (r : ResolvedPos) :
  wellFormed doc = true ->
  resolve doc splitPos = Some r ->
  calculateOrderedListStart doc listNode splitPos
  = Done (expectedStart doc r splitPos).
Proof.
  intros Hwf Hr. unfold calculateOrderedListStart, expectedStart.
  rewrite Hr. cbn [orThrow mbind Outcome_bind].
  destruct (findParentNodeClosestToPos r (isNamed ORDEREDLIST))
    as [list|] eqn:Ef; [|reflexivity].
  destruct (strict_eq _ _).
  - rewrite countVisit_descendants by exact Hwf. reflexivity.
  - unfold findParentNodeClosestToPos in Ef.
    apply closestFrom_depth in Ef as (Hd & Hs & _).
    pose proof (resolve_depth_nonneg _ _ _ Hr) as Hnn.
    destruct (startAt_bounds doc splitPos r (pn_depth list) Hr)
      as (s & Hs' & Hsb); [lia|].
    rewrite Hs in Hs'. inversion Hs'; subst s; clear Hs'.
    assert (Hsize : splitPos <= contentSize doc).
    { unfold resolve in Hr. destruct (_ && _) eqn:E; [|discriminate].
      apply andb_true_iff in E. lia. }
    destruct (sequenceStart_returns doc (S (Z.to_nat (pn_start list)))
                (pn_start list)) as (origin & Ho & _); [lia|lia|].
    unfold sequenceOrigin. rewrite Ho. cbn [mbind Outcome_bind].
    rewrite countVisit_descendants by exact Hwf. reflexivity.
Qed.

(** *** The stamp on the reopened list *)




(** The items of a nested list are counted as well. *)
Example calculateOrderedListStart_nested :
  calculateOrderedListStart nestedListPage nestedList 24 = Done 5.
Proof. vm_compute. reflexivity. Qed.

(** Outside of any ordered list the start number is 1. *)
Example calculateOrderedListStart_no_list :
  calculateOrderedListStart continuedList listA 8 = Done 1.
Proof. vm_compute. reflexivity. Qed.

(** [splitPage] on the flat list, cut before the third item: the new
    page, numbered 2, opens with the reopened list, flagged [extend] and
    starting at 3. *)
Example splitPageStep_flatList :
  (fun '(step, _) =>
     (fun page =>
        (name (type page), attr page "pageNumber",
         (fun l => (name (type l), attr l "start", attr l "extend"))
           <$> content page))
       <$> step_after step)
    <$> splitPageStep sampleIds listSchema flatListPage 12 2
          [Some (blockType PAGE)] 0
  = Done [("page", JNum (of_Z 2),
           [("orderedList", JNum (of_Z 3), JBool true)])].
Proof. vm_compute. reflexivity. Qed.

(** * Properties of the further parts *)

(** ** checkNodeAndFix *)

(** The walk of the repair pass keeps the transaction: the block it
    remembers is always a paragraph of the schema. *)
Lemma fixVisit_keeps_transaction (mapPos : Transaction -> Z -> Z)
    (replaceStep : Transaction -> Z -> Z -> Outcome Transaction)
    (schema : Schema) (tr : Transaction) :
  exists b,
    nodesBetween (fixVisit mapPos replaceStep schema) (tr_doc tr) 0
      (Done (None, tr))
    = Done (b, tr).
Proof.
  pose (Inv := fun st : Outcome (option Node * Transaction) =>
                 exists b, st = Done (b, tr)
                           /\ forall n, b = Some n ->
                                        isParagraphOf schema n = true).
  assert (H : Inv (nodesBetween (fixVisit mapPos replaceStep schema)
                     (tr_doc tr) 0 (Done (None, tr)))).
  { apply (nodesBetween_invariant _ Inv (tr_doc tr) []).
    - intros x _ st p i (b & -> & Hb). unfold fixVisit.
      destruct (isParagraphOf schema x.1.2
                && strict_eq (attr x.1.2 "extend") (JBool true)) eqn:E;
        [|exists b; by split].
      apply andb_true_iff in E as [E _].
      destruct b as [n|].
      + rewrite (Hb n eq_refl). cbn [negb fst]. exists (Some n). by split.
      + cbn [fst]. exists (Some x.1.2). split; [reflexivity|].
        intros n [= <-]. exact E.
    - exists None. split; [reflexivity|]. intros n [=]. }
  destruct H as (b & H & _). by exists b.
Qed.

(** X1.  The repair pass never changes the transaction: the block it
    remembers is always a paragraph of the schema, so the test that
    guards the only replace step it could issue never succeeds.  Whatever
    the document, the schema, the position mapping and the behaviour of
    replace steps, the pass returns the transaction it was given. *)
Theorem checkNodeAndFix_unchanged (mapPos : Transaction -> Z -> Z)
    (replaceStep : Transaction -> Z -> Z -> Outcome Transaction)
    (schema : Schema) (tr : Transaction) :
  checkNodeAndFix mapPos replaceStep schema tr = Done tr.
Proof.
  unfold checkNodeAndFix, descendants.
  destruct (fixVisit_keeps_transaction mapPos replaceStep schema tr)
    as (b & ->).
  reflexivity.
Qed.

(** ** The text-break search: what a positive offset guarantees *)

Lemma substring_0_substring_0 (s : string) :
  forall k m : nat,
    (k <= m)%nat ->
    String.substring 0 k (String.substring 0 m s) = String.substring 0 k s.
Proof.
  induction s as [|a s IH]; intros k m Hkm.
  - destruct k, m; reflexivity.
  - destruct k as [|k]; [by destruct m|].
    destruct m as [|m]; [lia|].
    cbn [String.substring]. f_equal. apply IH. lia.
Qed.

Lemma slice_0_slice_0 (s : string) (k m : Z) :
  0 <= k <= m -> m <= len s -> slice (slice s 0 m) 0 k = slice s 0 k.
Proof.
  intros Hk Hm.
  rewrite (slice_0_substring (slice s 0 m)) by lia.
  rewrite len_slice_0 by lia.
  rewrite !slice_0_substring by lia.
  rewrite substring_0_substring_0 by lia.
  f_equal. lia.
Qed.

Section TextBreakSound.

Variable createAndCalculateHeight : string -> number.
Variable fullText : string.
Variable heightLimit : number.

Local Abbreviation fitted :=
  (fittedBreak createAndCalculateHeight fullText heightLimit).

Lemma searchLoop_fitted (fuel : nat) :
  forall low high validBreak r,
    1 <= low -> high <= len fullText ->
    validBreak = 0 \/ fitted validBreak ->
    searchLoop createAndCalculateHeight fullText heightLimit
      fuel low high validBreak = Some r ->
    r = 0 \/ fitted r.
Proof.
  induction fuel as [|fuel IH]; intros low high v r Hlow Hhigh Hv Hr;
    [discriminate|].
  cbn [searchLoop] in Hr.
  destruct (low <=? high) eqn:E; [|inversion Hr; subst; exact Hv].
  assert (Hle : low <= high) by lia.
  pose proof (mid_bounds low high Hle) as Hmid.
  set (mid := (low + high) / 2) in *.
  assert (Hlen : len (slice fullText 0 mid) = mid)
    by (apply len_slice_0; lia).
  destruct (lastIndexOf_spec (slice fullText 0 mid) space)
    as [[Hm1 Hno]|[Hrange Hsp]].
  - rewrite Hm1, Hlen in Hr. cbn [Z.ltb Z.compare andb] in Hr.
    destruct (7 <? mid) eqn:E7; cbn [negb] in Hr;
      [|inversion Hr; subst; left; reflexivity].
    rewrite slice_0_idem, Hlen in Hr by lia.
    replace (mid =? 0) with false in Hr by lia. cbn [andb] in Hr.
    replace (0 <? mid) with true in Hr by lia.
    destruct (num_le _ _) eqn:Hfit.
    + eapply IH; [| | |exact Hr]; [lia|lia|].
      right. split; [lia|exact Hfit].
    + eapply IH; [| | |exact Hr]; [lia|lia|exact Hv].
  - set (lsi := lastIndexOf (slice fullText 0 mid) space) in *.
    rewrite Hlen in Hrange.
    replace (lsi <? 0) with false in Hr by lia. cbn [andb] in Hr.
    rewrite slice_0_slice_0 in Hr by lia.
    rewrite (len_slice_0 fullText lsi) in Hr by lia.
    destruct (lsi =? 0) eqn:E0.
    + cbn [andb] in Hr.
      destruct (1 <? mid) eqn:E1; cbn [negb] in Hr;
        [|inversion Hr; subst; left; reflexivity].
      replace (0 <? lsi) with false in Hr by lia.
      rewrite len_slice_0 in Hr by lia.
      destruct (num_le _ _) eqn:Hfit.
      * eapply IH; [| | |exact Hr]; [lia|lia|].
        right. split; [lia|exact Hfit].
      * eapply IH; [| | |exact Hr]; [lia|lia|exact Hv].
    + cbn [andb] in Hr.
      replace (0 <? lsi) with true in Hr by lia.
      destruct (num_le _ _) eqn:Hfit.
      * eapply IH; [| | |exact Hr]; [lia|lia|].
        right. split; [lia|exact Hfit].
      * eapply IH; [| | |exact Hr]; [lia|lia|exact Hv].
Qed.

End TextBreakSound.

(** X2.  A positive break offset returned by the search is sound: it lies
    within the text, and the prefix of the text cut at that offset is a
    candidate that was measured and found to fit the height limit.  (The
    search may still miss a fitting break; it never reports one that does
    not fit.) *)
Theorem binarySearchTextBreak_fits
    (createAndCalculateHeight : string -> number) (fullText : string)
    (heightLimit : number) (r : Z) :
  binarySearchTextBreak createAndCalculateHeight fullText heightLimit
  = Some r ->
  r <> 0 ->
  0 < r <= len fullText
  /\ num_le (createAndCalculateHeight (slice fullText 0 r)) heightLimit
     = true.
Proof.
  unfold binarySearchTextBreak. intros Hr Hnz.
  destruct (searchLoop_fitted createAndCalculateHeight fullText heightLimit
              _ 1 (len fullText) 0 r ltac:(lia) ltac:(lia)
              (or_introl eq_refl) Hr)
    as [->|H]; [lia|exact H].
Qed.

(** The text "hello world foo bar" with room for ten code units breaks
    before the first space; the prefix "hello" fits. *)
Lemma binarySearchTextBreak_fits_witness :
  0 < 5 <= len "hello world foo bar"
  /\ num_le (of_Z (len (slice "hello world foo bar" 0 5))) (of_Z 10) = true.
Proof.
  apply (binarySearchTextBreak_fits (fun candidate => of_Z (len candidate))
           "hello world foo bar" (of_Z 10) 5).
  - vm_compute. reflexivity.
  - lia.
Defined.

(** ** The walk over the descendants: composition and settled states *)

Section WalkFacts.

Context {S : Type}.
Variable f : S -> Node -> Z -> Node -> Z -> S * bool.

Lemma visitChildren_app (enter : Node -> Z -> S -> S) (parent : Node)
    (nodeStart : Z) (l1 l2 : list Node) :
  forall i pos st,
    visitChildren f enter parent nodeStart (l1 ++ l2) i pos st
    = visitChildren f enter parent nodeStart l2
        (i + Z.of_nat (List.length l1)) (pos + fragmentSize l1)
        (visitChildren f enter parent nodeStart l1 i pos st).
Proof.
  induction l1 as [|c l1 IH]; intros i pos st.
  - cbn [app List.length fragmentSize visitChildren].
    by rewrite !Z.add_0_r.
  - cbn [app List.length fragmentSize visitChildren].
    destruct (f st c (nodeStart + pos) parent i) as [st1 descend].
    rewrite IH. f_equal; lia.
Qed.

(** A property of the state that no visit changes holds after the walk. *)
Variable Inv : S -> Prop.
Hypothesis f_keeps : forall st n p parent i, Inv st -> Inv (f st n p parent i).1.

Lemma nodesBetween_keeps (parent : Node) (nodeStart : Z) (st : S) :
  Inv st -> Inv (nodesBetween f parent nodeStart st).
Proof.
  apply (nodesBetween_invariant f Inv parent []).
  intros x _ st' p i. apply f_keeps.
Qed.

Lemma visitChildren_keeps (parent : Node) (nodeStart : Z) (cs : list Node) :
  forall i pos st,
    Inv st ->
    Inv (visitChildren f (nodesBetween f) parent nodeStart cs i pos st).
Proof.
  induction cs as [|c cs IH]; intros i pos st Hst; [exact Hst|].
  cbn [visitChildren].
  pose proof (f_keeps st c (nodeStart + pos) parent i Hst) as H1.
  destruct (f st c (nodeStart + pos) parent i) as [st1 descend].
  cbn [fst] in H1. apply IH.
  destruct (descend && _); [by apply nodesBetween_keeps|exact H1].
Qed.

End WalkFacts.

(** ** getNodeHeight *)

Lemma nodesBetween_unfold {S : Type}
    (f : S -> Node -> Z -> Node -> Z -> S * bool) (parent : Node)
    (nodeStart : Z) (st : S) :
  nodesBetween f parent nodeStart st
  = visitChildren f (nodesBetween f) parent nodeStart (content parent) 0 0 st.
Proof. by destruct parent. Qed.

Lemma num_le_not_gt (a b : number) : num_le a b = true -> num_gt a b = false.
Proof.
  destruct a as [|x|[|]], b as [|y|[|]]; simpl; try reflexivity;
    try discriminate.
  by intros ->.
Qed.

Lemma foldl_addHeight (hs : list number) :
  forall c,
    foldl addHeight c hs
    = mkSplitContext (ctx_doc c) (foldl num_add (accumulatedHeight c) hs)
        (pageBoundaryOf c) (ctx_height c) (paragraphDefaultHeight c).
Proof.
  induction hs as [|h hs IH]; intros c; [by destruct c|].
  cbn [foldl]. by rewrite IH.
Qed.

Section GetNodeHeightFacts.

Variable Dom : Type.
Variable getDomHeight : Dom -> number.
Variable getDomPaddingAndMargin : Dom -> number.
Variable getContentSpacing : Dom -> number.
Variable getBreakPos : Node -> Dom -> SplitContext -> option Z.
Variable domOf : Node -> Dom.

Local Abbreviation table :=
  (defaultNodesComputed Dom getDomHeight getDomPaddingAndMargin
     getContentSpacing getBreakPos).
Local Abbreviation visit := (measureVisit Dom domOf table).

Lemma measureVisit_settled (lastNode : option Node)
    (st : Outcome SplitContext) (n : Node) (p : Z) (parent : Node) (i : Z) :
  settled st -> visit lastNode st n p parent i = (st, false).
Proof.
  intros Hst. unfold measureVisit. destruct st as [c| |]; try reflexivity.
  destruct (_ && _); [reflexivity|].
  cbn [settled] in Hst. by destruct (pageBoundary c).
Qed.

Lemma visitChildren_settled (lastNode : option Node) (parent : Node)
    (nodeStart : Z) (cs : list Node) (i pos : Z)
    (st : Outcome SplitContext) :
  settled st ->
  visitChildren (visit lastNode) (nodesBetween (visit lastNode))
    parent nodeStart cs i pos st = st.
Proof.
  intros Hst.
  apply (visitChildren_keeps (visit lastNode) (fun st' => st' = st));
    [|reflexivity].
  intros st' n p par j ->. by rewrite measureVisit_settled.
Qed.

Lemma nodesBetween_settled (lastNode : option Node) (parent : Node)
    (nodeStart : Z) (st : Outcome SplitContext) :
  settled st -> nodesBetween (visit lastNode) parent nodeStart st = st.
Proof.
  intros Hst. rewrite nodesBetween_unfold. by apply visitChildren_settled.
Qed.

(** The pages before the last one are passed over. *)
Lemma visitChildren_earlier_pages (doc last : Node) (nodeStart : Z)
    (pages : list Node) :
  name (type doc) = DOC ->
  Forall (fun p => p <> last) pages ->
  forall i pos st,
    visitChildren (visit (Some last)) (nodesBetween (visit (Some last)))
      doc nodeStart pages i pos st = st.
Proof.
  intros Hdoc. induction 1 as [|p pages Hp _ IH]; intros i pos st;
    [reflexivity|].
  cbn [visitChildren].
  assert (E : visit (Some last) st p (nodeStart + pos) doc i = (st, false)).
  { unfold measureVisit. destruct st as [c| |]; try reflexivity.
    destruct (optNode_eqb (Some last) (Some p)) eqn:E.
    - apply optNode_eqb_eq in E. congruence.
    - rewrite Hdoc. reflexivity. }
  rewrite E. cbn [andb]. apply IH.
Qed.

(** The pass comes down to the walk over the content of the last page. *)
Lemma getNodeHeight_last_page (doc : Node) (pages : list Node) (last : Node)
    (height defaultHeight : number) :
  lastPageOf doc pages last ->
  getNodeHeight Dom domOf table doc height defaultHeight
  = pageBoundary
      <$> visitChildren (visit (Some last)) (nodesBetween (visit (Some last)))
            last (fragmentSize pages + 1) (content last) 0 0
            (Done (newSplitContext doc height defaultHeight)).
Proof.
  intros (Hc & Hdoc & Hpage & Hsize & Hne).
  assert (Hlast : lastChild doc = Some last).
  { unfold lastChild. rewrite Hc. apply last_snoc. }
  unfold getNodeHeight, descendants. rewrite Hlast. f_equal.
  rewrite nodesBetween_unfold, Hc, visitChildren_app.
  rewrite (visitChildren_earlier_pages doc last _ pages Hdoc Hne).
  cbn [visitChildren]. unfold measureVisit at 1.
  replace (optNode_eqb (Some last) (Some last)) with true
    by (symmetry; by apply optNode_eqb_eq).
  cbn [negb andb pageBoundary newSplitContext pageBoundaryOf].
  rewrite Hpage.
  replace (table !! PAGE) with (Some (pageComputed Dom))
    by (reflexivity).
  unfold pageComputed, lastPage. cbn [ctx_doc newSplitContext].
  rewrite Hlast.
  replace (optNode_eqb (Some last) (Some last)) with true
    by (symmetry; by apply optNode_eqb_eq).
  replace (contentSize last =? 0) with false by lia.
  cbn [andb negb]. rewrite nodesBetween_unfold. f_equal; lia.
Qed.

(** A block that fits is added to the page and not entered. *)
Lemma block_strategy_fits (c : SplitContext) (n : Node) (pos : Z)
    (parent : option Node) (dom : Dom) :
  name (type n) ∈ blockKinds ->
  isOverflow c (getDomHeight dom) = false ->
  exists computed,
    table !! name (type n) = Some computed
    /\ computed c n pos parent dom
       = Some (addHeight c (getDomHeight dom), false).
Proof.
  intros Hkind Hfit. unfold blockKinds in Hkind.
  repeat (apply elem_of_cons in Hkind as [Hkind|Hkind]);
    [| | | | |by apply elem_of_nil in Hkind]; rewrite Hkind.
  - exists (sameListCalculation Dom getDomHeight).
    split; [reflexivity|].
    unfold sameListCalculation. by rewrite Hfit.
  - exists (sameListCalculation Dom getDomHeight).
    split; [reflexivity|].
    unfold sameListCalculation. by rewrite Hfit.
  - exists (headingComputed Dom getDomHeight getBreakPos).
    split; [reflexivity|].
    unfold headingComputed. by rewrite Hfit.
  - exists (paragraphComputed Dom getDomHeight getBreakPos).
    split; [reflexivity|].
    unfold paragraphComputed. by rewrite Hfit.
  - exists (transientTextComputed Dom getDomHeight getContentSpacing).
    split; [reflexivity|].
    unfold transientTextComputed. by rewrite Hfit.
Qed.

(** Blocks that fit are accumulated one after the other. *)
Lemma visitChildren_blocks_fit (lastNode : option Node) (parent : Node)
    (nodeStart : Z) (cs : list Node) :
  String.eqb (name (type parent)) DOC = false ->
  forall i pos c,
    pageBoundary c = None ->
    Forall (fun x => name (type x) ∈ blockKinds) cs ->
    fitInTurn (accumulatedHeight c) (ctx_height c)
      ((fun x => getDomHeight (domOf x)) <$> cs) ->
    visitChildren (visit lastNode) (nodesBetween (visit lastNode))
      parent nodeStart cs i pos (Done c)
    = Done (foldl addHeight c ((fun x => getDomHeight (domOf x)) <$> cs)).
Proof.
  intros Hparent.
  induction cs as [|x cs IH]; intros i pos c Hb Hkinds Hfit;
    [reflexivity|].
  apply Forall_cons in Hkinds as [Hkind Hkinds].
  cbn [fmap list_fmap fitInTurn] in Hfit. destruct Hfit as [Hx Hfit].
  cbn [fmap list_fmap foldl].
  set (h := getDomHeight (domOf x)) in *.
  assert (Hno : isOverflow c h = false)
    by (unfold isOverflow; by apply num_le_not_gt).
  destruct (block_strategy_fits c x (nodeStart + pos) (Some parent)
              (domOf x) Hkind Hno) as (computed & Htable & Hcomputed).
  cbn [visitChildren]. unfold measureVisit at 1.
  rewrite Hparent, andb_false_r, Hb, Htable, Hcomputed. cbn [andb].
  fold h. apply IH; [exact Hb|exact Hkinds|exact Hfit].
Qed.

Lemma table_unknown_kind (kind : string) :
  kind ∉ strategyKinds -> table !! kind = None.
Proof.
  unfold strategyKinds, defaultNodesComputed. intros Hk.
  repeat (apply not_elem_of_cons in Hk as [? Hk]).
  repeat (rewrite lookup_insert_ne by congruence).
  apply lookup_empty.
Qed.

(** The state of the pass when the blocks [pre] of the last page have
    been measured and fit. *)
Lemma visitChildren_fitting_prefix (doc : Node) (pages : list Node)
    (last : Node) (pre rest : list Node) (height defaultHeight : number) :
  lastPageOf doc pages last ->
  content last = pre ++ rest ->
  blocksFit getDomHeight domOf pre height ->
  getNodeHeight Dom domOf table doc height defaultHeight
  = pageBoundary
      <$> visitChildren (visit (Some last)) (nodesBetween (visit (Some last)))
            last (fragmentSize pages + 1) rest
            (Z.of_nat (List.length pre)) (fragmentSize pre)
            (Done (mkSplitContext doc
                     (totalHeight ((fun c => getDomHeight (domOf c)) <$> pre))
                     None height defaultHeight)).
Proof.
  intros Hlast Hc (Hkinds & Hfit).
  rewrite (getNodeHeight_last_page doc pages last) by exact Hlast.
  destruct Hlast as (_ & _ & Hpage & _ & _).
  rewrite Hc, visitChildren_app. do 2 f_equal.
  rewrite (visitChildren_blocks_fit _ _ _ _ ltac:(by rewrite Hpage) 0 0)
    by (try assumption; reflexivity).
  by rewrite foldl_addHeight.
Qed.

(** X3.  A last page that fits is not split.  If the blocks of the last
    page are lists, headings, paragraphs or transient texts, and their
    measured heights, added one after the other the way the engine adds
    them -- each sum rounded to a double -- never exceed the pagination
    height, the measuring pass returns no boundary: it throws nothing and
    requests no split. *)
Theorem getNodeHeight_fits (doc : Node) (pages : list Node) (last : Node)
    (height defaultHeight : number) :
  lastPageOf doc pages last ->
  blocksFit getDomHeight domOf (content last) height ->
  getNodeHeight Dom domOf table doc height defaultHeight = Done None.
Proof.
  intros Hlast Hfit.
  rewrite (visitChildren_fitting_prefix doc pages last (content last) [])
    by (try assumption; by rewrite app_nil_r).
  reflexivity.
Qed.

(** X4.  The split point is decided by the first block that sets one.
    When the blocks of the last page before [x] fit (their heights, added
    in turn and rounded as the engine does, stay within the pagination
    height), and the strategy of [x], run with their accumulated height,
    sets a boundary, that boundary is the result of the pass: whatever
    lies below [x] or after it is not measured and cannot replace it. *)
Theorem getNodeHeight_first_boundary (doc : Node) (pages : list Node)
    (last : Node) (pre : list Node) (x : Node) (post : list Node)
    (height defaultHeight : number) (computed : ComputedFn Dom)
    (c' : SplitContext) (descend : bool) (b : SplitInfo) :
  lastPageOf doc pages last ->
  content last = pre ++ x :: post ->
  blocksFit getDomHeight domOf pre height ->
  table !! name (type x) = Some computed ->
  computed
    (mkSplitContext doc
       (totalHeight ((fun c => getDomHeight (domOf c)) <$> pre))
       None height defaultHeight)
    x (fragmentSize pages + 1 + fragmentSize pre) (Some last) (domOf x)
  = Some (c', descend) ->
  pageBoundary c' = Some b ->
  getNodeHeight Dom domOf table doc height defaultHeight = Done (Some b).
Proof.
  intros Hlast Hc Hfit Htable Hcomputed Hb.
  rewrite (visitChildren_fitting_prefix doc pages last pre (x :: post))
    by assumption.
  destruct Hlast as (_ & _ & Hpage & _ & _).
  cbn [visitChildren]. unfold measureVisit at 1.
  rewrite Hpage. cbn [String.eqb Ascii.eqb Bool.eqb PAGE DOC andb].
  rewrite andb_false_r. cbn [pageBoundary pageBoundaryOf].
  unfold ComputedFn in *. rewrite Htable, Hcomputed.
  assert (Hset : settled (Done c')) by (cbn [settled]; congruence).
  rewrite visitChildren_settled.
  - destruct (descend && _); [rewrite nodesBetween_settled by exact Hset|];
      cbn; by rewrite Hb.
  - destruct (descend && _); [rewrite nodesBetween_settled by exact Hset|];
      exact Hset.
Qed.

(** X5.  A block without a strategy makes the pass throw.  When the
    blocks of the last page before [x] fit (their heights, added in turn
    and rounded as the engine does, stay within the pagination height)
    and the kind of [x] has no
    entry in the table of strategies, the call
    [nodesComputed[node.type.name](...)] is a call of [undefined]: the
    pass ends with an exception instead of a boundary. *)
Theorem getNodeHeight_unknown_kind (doc : Node) (pages : list Node)
    (last : Node) (pre : list Node) (x : Node) (post : list Node)
    (height defaultHeight : number) :
  lastPageOf doc pages last ->
  content last = pre ++ x :: post ->
  blocksFit getDomHeight domOf pre height ->
  name (type x) ∉ strategyKinds ->
  getNodeHeight Dom domOf table doc height defaultHeight = Thrown.
Proof.
  intros Hlast Hc Hfit Hkind.
  rewrite (visitChildren_fitting_prefix doc pages last pre (x :: post))
    by assumption.
  destruct Hlast as (_ & _ & Hpage & _ & _).
  cbn [visitChildren]. unfold measureVisit at 1.
  rewrite Hpage. cbn [String.eqb Ascii.eqb Bool.eqb PAGE DOC andb].
  rewrite andb_false_r. cbn [pageBoundary pageBoundaryOf].
  pose proof (table_unknown_kind _ Hkind) as Htable.
  unfold ComputedFn in *. rewrite Htable. cbn [andb].
  by rewrite visitChildren_settled.
Qed.

End GetNodeHeightFacts.

Lemma threeBlocks_last_page :
  lastPageOf threeBlocks [pageNode (JStr "p1") 1 [paragraph (JStr "a") "Hello"]]
    threeBlocksPage.
Proof.
  repeat split; try (vm_compute; congruence).
  constructor; [|constructor].
  intros H. apply (f_equal nodeSize) in H. vm_compute in H. discriminate.
Qed.

Lemma quoteDoc_last_page :
  lastPageOf quoteDoc [pageNode (JStr "p1") 1 [paragraph (JStr "a") "Hello"]]
    quotePage.
Proof.
  repeat split; try (vm_compute; congruence).
  constructor; [|constructor].
  intros H. apply (f_equal nodeSize) in H. vm_compute in H. discriminate.
Qed.

(** The three paragraphs, 800 pixels in all, fit a page of 800 pixels. *)
Lemma getNodeHeight_fits_witness :
  getNodeHeight Node id sampleTable threeBlocks (of_Z 800) (of_Z 20)
  = Done None.
Proof.
  apply (getNodeHeight_fits Node sampleBlockHeight sampleZero sampleZero
           sampleNoPoint id threeBlocks _ threeBlocksPage
           (of_Z 800) (of_Z 20) threeBlocks_last_page).
  split.
  - apply (bool_decide_unpack _); vm_compute; exact I.
  - vm_compute. repeat split.
Defined.

(** On a page of 500 pixels the second paragraph overflows; it is not the
    first block of its page, so the page is cut in front of it. *)
Lemma getNodeHeight_first_boundary_witness :
  getNodeHeight Node id sampleTable threeBlocks (of_Z 500) (of_Z 20)
  = Done (Some (mkSplitInfo 13 1)).
Proof.
  eapply (getNodeHeight_first_boundary Node sampleBlockHeight sampleZero
            sampleZero sampleNoPoint id threeBlocks _ threeBlocksPage
            [paragraph (JStr "b") "x"] (paragraph (JStr "c") "Figure")
            [paragraph (JStr "d") "y"] (of_Z 500) (of_Z 20)
            _ _ _ _ threeBlocks_last_page).
  - reflexivity.
  - split.
    + apply (bool_decide_unpack _); vm_compute; exact I.
    + vm_compute. repeat split.
  - reflexivity.
  - vm_compute. reflexivity.
  - vm_compute. reflexivity.
Defined.

(** A block quote has no strategy: the pass throws when it reaches it. *)
Lemma getNodeHeight_unknown_kind_witness :
  getNodeHeight Node id sampleTable quoteDoc (of_Z 500) (of_Z 20) = Thrown.
Proof.
  apply (getNodeHeight_unknown_kind Node sampleBlockHeight sampleZero
           sampleZero sampleNoPoint id quoteDoc _ quotePage
           [paragraph (JStr "b") "x"]
           (block "blockquote" (JStr "q") false [paragraph (JStr "c") "y"])
           [] (of_Z 500) (of_Z 20) quoteDoc_last_page).
  - reflexivity.
  - split.
    + apply (bool_decide_unpack _); vm_compute; exact I.
    + vm_compute. repeat split.
  - apply (bool_decide_unpack _); vm_compute; exact I.
Defined.

(** Four paragraphs measured 174.6, 167.5, 37.3 and 48.6 pixels on a page
    of 428 pixels: the decimal fractions add up to 428, the doubles the
    engine adds one after the other to the double after 428.  The first
    three paragraphs fit; the fourth overflows and the page is cut in
    front of it. *)
Example getNodeHeight_rounded_heights :
  totalHeight (fractionalHeight <$> content fractionalPage)
  = Fin ((428 * 2 ^ 44 + 1) # 2 ^ 44)
  /\ blocksFit fractionalHeight id (take 3 (content fractionalPage))
       (of_Z 428)
  /\ getNodeHeight Node id
       (defaultNodesComputed Node fractionalHeight sampleZero sampleZero
          sampleNoPoint)
       fractionalBlocks (of_Z 428) (of_Z 20)
     = Done (Some (mkSplitInfo 19 1)).
Proof.
  split; [vm_compute; reflexivity|]. split; [|vm_compute; reflexivity].
  split.
  - apply (bool_decide_unpack _); vm_compute; exact I.
  - vm_compute. repeat split.
Qed.

(** ** The break position inside a paragraph *)

Section BreakPosFacts.

Variable Dom : Type.
Variable marginBottom : Dom -> number.
Variable marginTop : Dom -> number.
Variable isFirstDomChild : Dom -> bool.
Variable offsetWidth : Dom -> number.
Variable wordWidth : Node -> number.
Variable createAndCalculateHeight : Node -> list Node -> number.

(** The loop over the children returns, with a well-formed break point:
    the working copy agrees with the children on the indices still to be
    handled. *)
Lemma overflowLoop_ok (node : Node) (height : number) (original : list Node) :
  forall (k : nat) (content : list Node) (point : option (Z * Z)),
    List.length content = List.length original ->
    (k <= List.length original)%nat ->
    (forall j, (j < k)%nat -> content !! j = original !! j) ->
    pointOk original point ->
    exists point',
      overflowLoop createAndCalculateHeight node height k content point
      = Done point'
      /\ pointOk original point'.
Proof.
  induction k as [|i IH]; intros content point Hlen Hk Hagree Hpoint;
    [by exists point|].
  cbn [overflowLoop].
  destruct (lookup_lt_is_Some_2 original i ltac:(lia)) as [c Hc].
  rewrite (Hagree i ltac:(lia)), Hc.
  assert (Hnext : forall content',
             List.length content' = List.length original ->
             (forall j, (j < i)%nat -> content' !! j = original !! j) ->
             forall point', pointOk original point' ->
             exists point'',
               overflowLoop createAndCalculateHeight node height i content'
                 point' = Done point''
               /\ pointOk original point'').
  { intros content' Hlen' Hagree' point' Hpoint'.
    apply IH; [exact Hlen'|lia|exact Hagree'|exact Hpoint']. }
  destruct (isText c) eqn:Htext.
  - set (h := fun candidate : string => _).
    destruct (binarySearchTextBreak_returns h (text c) height) as [b Hb].
    rewrite Hb.
    destruct (b >? 0) eqn:Epos;
      [|apply Hnext; [exact Hlen|intros j Hj; apply Hagree; lia|exact Hpoint]].
    assert (Hok : pointOk original (Some (Z.of_nat i, b))).
    { split; [lia|]. exists c. rewrite Nat2Z.id, Htext.
      split; [exact Hc|].
      unfold binarySearchTextBreak in Hb.
      destruct (searchLoop_fitted h (text c) height _ 1 (len (text c)) 0 b
                  ltac:(lia) ltac:(lia) (or_introl eq_refl) Hb)
        as [->|[Hr _]]; [lia|exact Hr]. }
    destruct (num_gt _ _); [by eexists|].
    apply Hnext; [by rewrite length_insert| |exact Hok].
    intros j Hj. rewrite list_lookup_insert_ne by lia. apply Hagree. lia.
  - assert (Hok : pointOk original (Some (Z.of_nat i, 0))).
    { split; [lia|]. exists c. rewrite Nat2Z.id, Htext. by split. }
    destruct (num_gt _ _); [by eexists|].
    apply Hnext; [exact Hlen|intros j Hj; apply Hagree; lia|exact Hpoint].
Qed.

(** The final walk, over children that have no content: the index is
    computed at the child the break point names. *)
Lemma pointWalk_flag_down (point : option (Z * Z))
    (enter : Node -> Z -> bool * Z -> bool * Z) (parent : Node)
    (nodeStart : Z) (cs : list Node) :
  Forall (fun c => contentSize c = 0) cs ->
  forall i pos index,
    visitChildren (pointVisit point) enter parent nodeStart cs i pos
      (false, index) = (false, index).
Proof.
  induction 1 as [|c cs Hc _ IH]; intros i pos index; [reflexivity|].
  cbn [visitChildren pointVisit negb andb]. apply IH.
Qed.

Lemma pointWalk_index (pointIndex r : Z)
    (enter : Node -> Z -> bool * Z -> bool * Z) (parent : Node)
    (nodeStart : Z) (cs : list Node) :
  Forall (fun c => contentSize c = 0) cs ->
  forall i pos index,
    i <= pointIndex ->
    visitChildren (pointVisit (Some (pointIndex, r))) enter parent nodeStart
      cs i pos (true, index)
    = if pointIndex - i <? Z.of_nat (List.length cs)
      then (false,
            nodeStart + pos
            + fragmentSize (take (Z.to_nat (pointIndex - i)) cs) + r + 1)
      else (true, index).
Proof.
  induction 1 as [|c cs Hc Hcs IH]; intros i pos index Hi.
  - cbn [visitChildren List.length].
    by replace (pointIndex - i <? Z.of_nat 0) with false
      by (symmetry; apply Z.ltb_ge; lia).
  - cbn [visitChildren pointVisit negb].
    destruct (i =? pointIndex) eqn:E.
    + assert (i = pointIndex) as -> by lia.
      rewrite Hc. cbn [andb negb Z.eqb].
      rewrite pointWalk_flag_down by exact Hcs.
      rewrite Z.sub_diag. cbn [List.length].
      replace (0 <? Z.of_nat (S (List.length cs))) with true
        by (symmetry; apply Z.ltb_lt; lia).
      change (Z.to_nat 0) with 0%nat. cbn [take fragmentSize].
      f_equal. lia.
    + rewrite Hc. cbn [andb negb Z.eqb].
      rewrite IH by lia. cbn [List.length].
      replace (pointIndex - (i + 1) <? Z.of_nat (List.length cs))
        with (pointIndex - i <? Z.of_nat (S (List.length cs)))
        by (apply Bool.eq_iff_eq_true; rewrite !Z.ltb_lt; lia).
      destruct (_ <? _); [|reflexivity].
      replace (Z.to_nat (pointIndex - i))
        with (S (Z.to_nat (pointIndex - (i + 1)))) by lia.
      cbn [take fragmentSize]. f_equal. lia.
Qed.

Lemma fragmentSize_take_le (cs : list Node) (i : nat) :
  fragmentSize (take i cs) <= fragmentSize cs.
Proof.
  rewrite <- (take_drop i cs) at 2. rewrite fragmentSize_app.
  pose proof (fragmentSize_nonneg (drop i cs)). lia.
Qed.

Lemma fragmentSize_take_S (cs : list Node) (i : nat) (c : Node) :
  cs !! i = Some c ->
  fragmentSize (take (S i) cs) = fragmentSize (take i cs) + nodeSize c.
Proof.
  intros Hc. rewrite (take_S_r _ _ _ Hc), fragmentSize_app.
  cbn [fragmentSize]. lia.
Qed.

(** X6.  The break position lies inside the paragraph.  For a node whose
    children have no content of their own (texts and inline leaves),
    [getBreakPos] returns, and an offset it returns points into one of the
    children -- right before a child that is not a text, or into a text
    child after at least one and at most all of its code units -- so it
    lies between the start and the end of the content of the node. *)
Theorem getBreakPos_inside (cnode : Node) (dom : Dom)
    (splitContext : SplitContext) :
  Forall (fun c => contentSize c = 0) (content cnode) ->
  exists result,
    getBreakPos Dom marginBottom marginTop isFirstDomChild offsetWidth
      wordWidth createAndCalculateHeight cnode dom splitContext
    = Done result
    /\ forall p,
         result = Some p ->
         1 <= p <= contentSize cnode + 1 /\ breakPointAt cnode p.
Proof.
  intros Hleaves. unfold getBreakPos.
  destruct (num_ge _ _); [exists None; split; [reflexivity|discriminate]|].
  unfold calculateNodeOverflowHeightAndPoint.
  destruct (overflowLoop_ok cnode
              (availableHeight Dom marginBottom marginTop isFirstDomChild
                 dom splitContext)
              (content cnode) (List.length (content cnode)) (content cnode)
              None eq_refl (Nat.le_refl _) (fun _ _ => eq_refl) I)
    as (point & -> & Hpoint).
  cbn [mbind Outcome_bind]. eexists. split; [reflexivity|].
  intros p Hp. unfold descendants in Hp.
  rewrite nodesBetween_unfold in Hp.
  destruct point as [[i r]|].
  2:{ exfalso. revert Hp.
      assert (E : forall cs j pos,
                 Forall (fun c => contentSize c = 0) cs ->
                 visitChildren (pointVisit None)
                   (nodesBetween (pointVisit None)) cnode 0 cs j pos (true, 0)
                 = (true, 0)).
      { intros cs j pos H. revert j pos.
        induction H as [|c cs Hc _ IH]; intros j pos; [reflexivity|].
        cbn [visitChildren pointVisit negb]. rewrite Hc. apply IH. }
      rewrite E by exact Hleaves. discriminate. }
  destruct Hpoint as (Hi & c & Hc & Hr).
  rewrite pointWalk_index in Hp by (try exact Hleaves; lia).
  pose proof (lookup_lt_Some _ _ _ Hc) as Hlt.
  replace (i - 0 <? Z.of_nat (List.length (content cnode))) with true in Hp
    by (symmetry; apply Z.ltb_lt; lia).
  cbn [snd] in Hp. rewrite Z.sub_0_r in Hp.
  set (k := Z.to_nat i) in *.
  pose proof (fragmentSize_nonneg (take k (content cnode))) as Hnn.
  pose proof (fragmentSize_take_le (content cnode) (S k)) as Hle.
  rewrite (fragmentSize_take_S _ _ _ Hc) in Hle.
  assert (Hsize : 0 <= r <= nodeSize c).
  { destruct (isText c) eqn:Htext.
    - rewrite nodeSize_unfold, Htext. lia.
    - pose proof (nodeSize_nonneg c). lia. }
  destruct (_ =? 0) eqn:E0; [discriminate|].
  injection Hp as <-. unfold contentSize. split; [lia|].
  exists k, c, r. split; [exact Hc|]. split; [lia|exact Hr].
Qed.

End BreakPosFacts.

(** A paragraph of one text, with room for ten code units: the break
    falls after "hello", at offset 6 from the paragraph. *)
Lemma getBreakPos_inside_witness :
  exists result,
    getBreakPos number sampleMargin sampleMargin sampleNotFirst sampleWidth
      sampleWordWidth sampleContentHeight fooBarParagraph (of_Z 5)
      (newSplitContext (docNode []) (of_Z 10) (of_Z 1))
    = Done result
    /\ forall p,
         result = Some p ->
         1 <= p <= contentSize fooBarParagraph + 1
         /\ breakPointAt fooBarParagraph p.
Proof.
  apply (getBreakPos_inside number sampleMargin sampleMargin sampleNotFirst
           sampleWidth sampleWordWidth sampleContentHeight fooBarParagraph
           (of_Z 5) (newSplitContext (docNode []) (of_Z 10) (of_Z 1))).
  constructor; [vm_compute; reflexivity|constructor].
Defined.

Example getBreakPos_after_hello :
  getBreakPos number sampleMargin sampleMargin sampleNotFirst sampleWidth
    sampleWordWidth sampleContentHeight fooBarParagraph (of_Z 5)
    (newSplitContext (docNode []) (of_Z 10) (of_Z 1))
  = Done (Some 6).
Proof. vm_compute. reflexivity. Qed.

(** ** mergeDefaultDocument *)

Lemma string_app_assoc (a b c : string) :
  String.append (String.append a b) c = String.append a (String.append b c).
Proof.
  induction a as [|x a IH]; [reflexivity|].
  change (String x (String.append (String.append a b) c)
          = String x (String.append a (String.append b c))).
  by rewrite IH.
Qed.

Lemma string_app_empty_r (a : string) : String.append a EmptyString = a.
Proof.
  induction a as [|x a IH]; [reflexivity|].
  change (String x (String.append a EmptyString) = String x a).
  by rewrite IH.
Qed.

Lemma textContent_unfold (n : Node) :
  textContent n = if isText n then text n else textsOf (content n).
Proof.
  destruct n as [t a c s]. unfold isText. cbn [textContent type text content].
  destruct (String.eqb (name t) TEXT); [reflexivity|].
  induction c as [|x c IH]; [reflexivity|]. cbn [textsOf foldr].
  fold (textsOf c). by rewrite <- IH.
Qed.

Lemma textsOf_app (l1 l2 : list Node) :
  textsOf (l1 ++ l2) = String.append (textsOf l1) (textsOf l2).
Proof.
  induction l1 as [|x l1 IH]; [reflexivity|].
  cbn [app textsOf foldr]. fold (textsOf (l1 ++ l2)) (textsOf l1).
  by rewrite IH, string_app_assoc.
Qed.

Lemma textContent_copy (n : Node) (cs : list Node) :
  isText n = false -> textContent (copy n cs) = textsOf cs.
Proof.
  intros H. rewrite textContent_unfold. unfold copy, isText in *.
  cbn [type content]. by rewrite H.
Qed.

Lemma isBranch_not_text (n : Node) : isBranch n = true -> isText n = false.
Proof.
  unfold isBranch. intros H. apply andb_true_iff in H as [H _].
  by apply negb_true_iff in H.
Qed.

Lemma last_removelast {A : Type} (l : list A) (x : A) :
  last l = Some x -> l = removelast l ++ [x].
Proof.
  intros H. destruct l as [|a l] using rev_ind; [discriminate|].
  rewrite last_snoc in H. injection H as ->. by rewrite removelast_last.
Qed.

(** Joining two nodes keeps their text. *)
Lemma joinNodes_text (depth : Z) (l r j : Node) :
  joinNodes depth l r = Some j ->
  textContent j = String.append (textContent l) (textContent r).
Proof.
  unfold joinNodes. destruct (isBranch l && isBranch r) eqn:E; [|discriminate].
  apply andb_true_iff in E as [Hl Hr].
  apply isBranch_not_text in Hl, Hr. cbn [negb].
  rewrite (textContent_unfold l), (textContent_unfold r), Hl, Hr.
  destruct (depth =? 1).
  - intros [= <-]. by rewrite textContent_copy, textsOf_app.
  - destruct (depth =? 2); [|discriminate].
    destruct (lastChild l) as [ll|] eqn:Hll; [|discriminate].
    destruct (content r) as [|rf rest] eqn:Hcr; [discriminate|].
    destruct (isBranch ll && isBranch rf) eqn:E2; [|discriminate].
    apply andb_true_iff in E2 as [Hb1 Hb2].
    apply isBranch_not_text in Hb1, Hb2.
    intros [= <-]. rewrite textContent_copy by exact Hl.
    rewrite (last_removelast (content l) ll Hll) at 2.
    rewrite !textsOf_app. cbn [textsOf foldr].
    rewrite textContent_copy by exact Hb1.
    rewrite textsOf_app, (textContent_unfold ll), (textContent_unfold rf),
      Hb1, Hb2.
    fold (textsOf rest).
    by rewrite !string_app_empty_r, !string_app_assoc.
Qed.

Lemma joinNodes_branches (depth : Z) (l r j : Node) :
  joinNodes depth l r = Some j -> isBranch l = true /\ isBranch r = true.
Proof.
  unfold joinNodes. destruct (isBranch l && isBranch r) eqn:E; [|discriminate].
  intros _. by apply andb_true_iff in E.
Qed.

Lemma joinChildren_unfold (l r : Node) (rest : list Node) (pos depth : Z) :
  joinChildren (l :: r :: rest) pos depth
  = if pos =? nodeSize l then j ← joinNodes depth l r; Some (j :: rest)
    else if pos <? nodeSize l then None
    else tl ← joinChildren (r :: rest) (pos - nodeSize l) depth;
         Some (l :: tl).
Proof. reflexivity. Qed.

(** A join between the last two children replaces them by their join and
    leaves the children before them alone. *)
Lemma joinChildren_last (depth : Z) (cs : list Node) :
  forall pos cs',
    joinChildren cs pos depth = Some cs' ->
    pos = fragmentSize (removelast cs) ->
    exists pre l r j,
      cs = pre ++ [l; r] /\ cs' = pre ++ [j]
      /\ joinNodes depth l r = Some j.
Proof.
  induction cs as [|l cs IH]; intros pos cs' Hj Hpos; [discriminate|].
  destruct cs as [|r rest]; [discriminate|].
  rewrite joinChildren_unfold in Hj.
  destruct (pos =? nodeSize l) eqn:E.
  - destruct (joinNodes depth l r) as [j|] eqn:Hjoin; [|discriminate].
    cbn in Hj. injection Hj as <-.
    destruct rest as [|x rest]; [by exists [], l, r, j|].
    exfalso.
    apply joinNodes_branches in Hjoin as [_ Hr].
    pose proof (nodeSize_branch r Hr) as Hsize.
    pose proof (fragmentSize_nonneg (content r)) as H1.
    pose proof (fragmentSize_nonneg (removelast (x :: rest))) as H2.
    unfold contentSize in Hsize.
    change (removelast (l :: r :: x :: rest))
      with (l :: r :: removelast (x :: rest)) in Hpos.
    cbn [fragmentSize] in Hpos. lia.
  - destruct (pos <? nodeSize l); [discriminate|].
    destruct (joinChildren (r :: rest) (pos - nodeSize l) depth) as [tl|] eqn:Htl;
      [|discriminate].
    cbn in Hj. injection Hj as <-.
    destruct (IH _ _ Htl) as (pre & l' & r' & j & Hcs & Htl' & Hjoin).
    { change (removelast (l :: r :: rest))
        with (l :: removelast (r :: rest)) in Hpos.
      cbn [fragmentSize] in Hpos. lia. }
    exists (l :: pre), l', r', j. rewrite Hcs, Htl'. by repeat split.
Qed.

(** One evaluation of the merge loop that joins: the last two pages are
    replaced by their join. *)
Lemma mergeStep_joins (count : Z) (tr tr1 : Transaction) (depth : Z) :
  mergeStep count tr = Some (depth, Some tr1) ->
  childCount (tr_doc tr) > count
  /\ tr_steps tr1 = tr_steps tr + 1
  /\ tr_meta tr1 = tr_meta tr
  /\ exists pre l r j,
       content (tr_doc tr) = pre ++ [l; r]
       /\ tr_doc tr1 = copy (tr_doc tr) (pre ++ [j])
       /\ joinNodes depth l r = Some j.
Proof.
  unfold mergeStep.
  destruct (childCount (tr_doc tr) >? count) eqn:E; [|discriminate].
  intros [= <- Hjoin]. unfold join in Hjoin.
  destruct (joinChildren _ _ _) as [cs1|] eqn:Hcs; [|discriminate].
  cbn in Hjoin. injection Hjoin as <-. cbn [tr_steps tr_meta tr_doc].
  split; [lia|]. split; [reflexivity|]. split; [reflexivity|].
  destruct (joinChildren_last _ _ _ _ Hcs) as (pre & l & r & j & Hc & -> & Hj).
  - unfold lastChild, contentSize.
    destruct (content (tr_doc tr)) as [|x cs] using rev_ind;
      [discriminate|].
    rewrite last_snoc, removelast_last, fragmentSize_app.
    cbn [fragmentSize]. lia.
  - by exists pre, l, r, j.
Qed.

Lemma mergeLoop_summary (fuel : nat) :
  forall count tr tr',
    mergeLoop fuel count tr = Done tr' ->
    childCount (tr_doc tr') = Z.min (childCount (tr_doc tr)) count
    /\ tr_steps tr' = tr_steps tr
                      + (childCount (tr_doc tr) - childCount (tr_doc tr'))
    /\ tr_meta tr' = tr_meta tr
    /\ textContent (tr_doc tr') = textContent (tr_doc tr)
    /\ take (Z.to_nat (count - 1)) (content (tr_doc tr'))
       = take (Z.to_nat (count - 1)) (content (tr_doc tr)).
Proof.
  induction fuel as [|fuel IH]; intros count tr tr' Hloop; [discriminate|].
  cbn [mergeLoop] in Hloop.
  destruct (mergeStep count tr) as [[depth [tr1|]]|] eqn:Hstep;
    [| discriminate |].
  - destruct (mergeStep_joins _ _ _ _ Hstep)
      as (Hgt & Hsteps & Hmeta & pre & l & r & j & Hc & Hdoc & Hj).
    destruct (IH _ _ _ Hloop) as (Hcount & Hsteps' & Hmeta' & Htext & Htake).
    assert (Hcc : childCount (tr_doc tr1) = childCount (tr_doc tr) - 1).
    { unfold childCount. rewrite Hdoc, Hc. cbn [copy content].
      rewrite !length_app. cbn [List.length]. lia. }
    split; [lia|]. split; [lia|]. split; [congruence|]. split.
    + rewrite Htext, Hdoc, (textContent_unfold (tr_doc tr)).
      rewrite textContent_unfold. unfold copy, isText.
      cbn [type text content].
      destruct (String.eqb _ _); [reflexivity|].
      rewrite Hc, !textsOf_app. cbn [textsOf foldr].
      rewrite (joinNodes_text _ _ _ _ Hj).
      by rewrite !string_app_empty_r.
    + rewrite Htake, Hdoc, Hc. cbn [copy content].
      assert (Hlen : (Z.to_nat (count - 1) <= List.length pre)%nat).
      { unfold childCount in Hgt. rewrite Hc, length_app in Hgt.
        cbn [List.length] in Hgt. lia. }
      by rewrite !take_app_le by exact Hlen.
  - injection Hloop as <-. unfold mergeStep in Hstep.
    destruct (childCount (tr_doc tr) >? count) eqn:E; [discriminate|].
    split; [lia|]. split; [lia|]. by repeat split.
Qed.

(** X7.  After a merge that returns, the document has [count] pages, or
    the pages it had if these were no more than [count]; every join is one
    step of the transaction, and each removes one page. *)
Theorem mergeDefaultDocument_page_count (count : Z) (tr tr' : Transaction) :
  mergeDefaultDocument count tr = Done tr' ->
  childCount (tr_doc tr') = Z.min (childCount (tr_doc tr)) count
  /\ tr_steps tr' = tr_steps tr
                    + (childCount (tr_doc tr) - childCount (tr_doc tr')).
Proof.
  intros H. apply mergeLoop_summary in H. tauto.
Qed.

(** X8.  Merging pages loses no text: the text of the document after a
    merge that returns is the text before it. *)
Theorem mergeDefaultDocument_text (count : Z) (tr tr' : Transaction) :
  mergeDefaultDocument count tr = Done tr' ->
  textContent (tr_doc tr') = textContent (tr_doc tr).
Proof.
  intros H. apply mergeLoop_summary in H. tauto.
Qed.

(** X9.  The merge that precedes a re-split starts at the page of the
    selection head: the pages before that page are left as they are. *)
Theorem mergeDocument_earlier_pages (state : EditorState)
    (tr tr' : Transaction) :
  mergeDocument state tr = Done tr' ->
  exists i,
    findIndex (content (tr_doc tr)) (sel_head (selection state)) = Some i
    /\ take (Z.to_nat i) (content (tr_doc tr'))
       = take (Z.to_nat i) (content (tr_doc tr)).
Proof.
  unfold mergeDocument. intros H.
  destruct (findIndex _ _) as [i|]; [|discriminate].
  change (mergeDefaultDocument (i + 1) tr = Done tr') in H.
  apply mergeLoop_summary in H.
  exists i. split; [reflexivity|].
  replace (i + 1 - 1) with i in H by lia. tauto.
Qed.

(** The three pages merged into one. *)
Lemma mergeDefaultDocument_page_count_witness :
  exists tr',
    mergeDefaultDocument 1 (mkTransaction threePages 0 ∅) = Done tr'
    /\ childCount (tr_doc tr') = Z.min (childCount threePages) 1
    /\ tr_steps tr' = 0 + (childCount threePages - childCount (tr_doc tr')).
Proof.
  destruct (mergeDefaultDocument 1 (mkTransaction threePages 0 ∅))
    as [tr'| |] eqn:E; [|vm_compute in E; discriminate..].
  exists tr'. split; [reflexivity|].
  apply (mergeDefaultDocument_page_count 1 (mkTransaction threePages 0 ∅) tr' E).
Defined.

Lemma mergeDefaultDocument_text_witness :
  exists tr',
    mergeDefaultDocument 1 (mkTransaction threePages 0 ∅) = Done tr'
    /\ textContent (tr_doc tr') = textContent threePages.
Proof.
  destruct (mergeDefaultDocument 1 (mkTransaction threePages 0 ∅))
    as [tr'| |] eqn:E; [|vm_compute in E; discriminate..].
  exists tr'. split; [reflexivity|].
  apply (mergeDefaultDocument_text 1 (mkTransaction threePages 0 ∅) tr' E).
Defined.

(** With the head in the second of three pages, the third page is merged
    into the second and the first page stays. *)
Lemma mergeDocument_earlier_pages_witness :
  exists tr' i,
    mergeDocument stateInSecondPage (mkTransaction threePages 0 ∅) = Done tr'
    /\ findIndex (content threePages) 12 = Some i
    /\ take (Z.to_nat i) (content (tr_doc tr'))
       = take (Z.to_nat i) (content threePages).
Proof.
  destruct (mergeDocument stateInSecondPage (mkTransaction threePages 0 ∅))
    as [tr'| |] eqn:E; [|vm_compute in E; discriminate..].
  destruct (mergeDocument_earlier_pages stateInSecondPage
              (mkTransaction threePages 0 ∅) tr' E) as (i & Hi & Htake).
  exists tr', i. split; [reflexivity|]. split; [exact Hi|exact Htake].
Defined.

Example mergeDocument_from_second_page :
  (fun tr => (childCount (tr_doc tr), tr_steps tr,
              take 1 (content (tr_doc tr))))
    <$> mergeDocument stateInSecondPage (mkTransaction threePages 0 ∅)
  = Done (2, 1, [pageNode (JStr "p1") 1 [paragraph (JStr "a") "Hello"]]).
Proof. vm_compute. reflexivity. Qed.

(** ** The dedupe step on a document without duplicates *)

(** A walk whose callback looks at the node and its position only is a
    fold over some of the positioned nodes, in order: those it reaches. *)
Section WalkVisited.

Context {S : Type}.
Variable g : S -> Node -> Z -> S * bool.
Variable f : S -> Node -> Z -> Node -> Z -> S * bool.
Hypothesis f_g : forall st n p parent i, f st n p parent i = g st n p.

Lemma visitChildren_visited (parent : Node) (nodeStart : Z)
    (ancestors : list Node) (cs : list Node) :
  Forall (fun c => forall ancestors nodeStart st,
              exists visited,
                visited `sublist_of` nodesWithAncestors ancestors c nodeStart
                /\ nodesBetween f c nodeStart st
                   = foldl (walkStep (fun st n p => (g st n p).1)) st visited)
         cs ->
  forall i pos st,
    exists visited,
      visited `sublist_of`
        childrenWithAncestors nodesWithAncestors ancestors parent nodeStart
          cs pos
      /\ visitChildren f (nodesBetween f) parent nodeStart cs i pos st
         = foldl (walkStep (fun st n p => (g st n p).1)) st visited.
Proof.
  induction 1 as [|c cs Hc _ IH]; intros i pos st.
  - exists []. split; [constructor|reflexivity].
  - cbn [visitChildren childrenWithAncestors]. rewrite f_g.
    destruct (g st c (nodeStart + pos)) as [st1 descend] eqn:Hg.
    assert (Hstep : walkStep (fun st n p => (g st n p).1) st
                      (parent :: ancestors, c, nodeStart + pos) = st1)
      by (unfold walkStep; cbn [fst snd]; by rewrite Hg).
    destruct (descend && negb (contentSize c =? 0)) eqn:E.
    + apply andb_true_iff in E as [_ E]. rewrite E.
      destruct (Hc (parent :: ancestors) (nodeStart + pos + 1) st1)
        as (v1 & Hv1 & ->).
      destruct (IH (i + 1) (pos + nodeSize c)
                  (foldl (walkStep (fun st n p => (g st n p).1)) st1 v1))
        as (v2 & Hv2 & ->).
      exists ((parent :: ancestors, c, nodeStart + pos) :: v1 ++ v2).
      split; [by apply sublist_skip, sublist_app|].
      cbn [foldl]. by rewrite Hstep, foldl_app.
    + destruct (IH (i + 1) (pos + nodeSize c) st1) as (v2 & Hv2 & ->).
      exists ((parent :: ancestors, c, nodeStart + pos) :: v2).
      split.
      * apply sublist_skip.
        rewrite <- (app_nil_l v2). apply sublist_app;
          [apply sublist_nil_l|exact Hv2].
      * cbn [foldl]. by rewrite Hstep.
Qed.

Lemma nodesBetween_visited (parent : Node) :
  forall ancestors nodeStart st,
    exists visited,
      visited `sublist_of` nodesWithAncestors ancestors parent nodeStart
      /\ nodesBetween f parent nodeStart st
         = foldl (walkStep (fun st n p => (g st n p).1)) st visited.
Proof.
  induction parent as [t a c s IH] using Node_ind'.
  intros ancestors nodeStart st. cbn [nodesBetween content].
  by apply (visitChildren_visited _ _ ancestors).
Qed.

End WalkVisited.

Lemma idsAmong_sublist (l1 l2 : list Positioned) :
  l1 `sublist_of` l2 ->
  (forall v, v ∈ idsAmong l1 -> v ∈ idsAmong l2)
  /\ (NoDup (idsAmong l2) -> NoDup (idsAmong l1)).
Proof.
  induction 1 as [|x l1 l2 _ [IH1 IH2]|x l1 l2 _ [IH1 IH2]].
  - by split.
  - cbn [idsAmong foldr]. fold (idsAmong l1) (idsAmong l2).
    destruct (identified x.1.2); [|by split].
    split.
    + intros v Hv. apply elem_of_cons in Hv as [->|Hv];
        apply elem_of_cons; [by left|right; by apply IH1].
    + intros Hnd. apply NoDup_cons in Hnd as [Hx Hnd].
      apply NoDup_cons. split; [|by apply IH2].
      intros Hin. by apply Hx, IH1.
  - cbn [idsAmong foldr]. fold (idsAmong l2).
    destruct (identified x.1.2); [|by split].
    split.
    + intros v Hv. apply elem_of_cons. right. by apply IH1.
    + intros Hnd. apply NoDup_cons in Hnd as [_ Hnd]. by apply IH2.
Qed.

(** The scan over nodes with distinct ids registers them and pushes no
    operation. *)
Lemma dedupe_fold_distinct (visited : list Positioned) :
  forall (idMap : gmap JsValue NodeData) (operations : list Operation),
    NoDup (idsAmong visited) ->
    (forall id d, idMap !! id = Some d -> id ∉ idsAmong visited) ->
    (foldl (walkStep (fun st n p => (dedupeVisit st n p n 0).1))
       (idMap, operations) visited).2
    = operations.
Proof.
  induction visited as [|x visited IH]; intros idMap operations Hnd Hkeys;
    [reflexivity|].
  cbn [foldl]. unfold walkStep at 2.
  cbn [idsAmong foldr] in Hnd, Hkeys. fold (idsAmong visited) in Hnd, Hkeys.
  unfold identified in Hnd, Hkeys.
  destruct (truthy (attr x.1.2 "id")) eqn:Hid;
    [|rewrite dedupeVisit_passes_over by (by left); by apply IH].
  destruct (isText x.1.2) eqn:Htext;
    [rewrite dedupeVisit_passes_over by (by right); by apply IH|].
  cbn [andb negb] in Hnd, Hkeys.
  apply NoDup_cons in Hnd as [Hx Hnd].
  assert (Hnew : idMap !! attr x.1.2 "id" = None).
  { destruct (idMap !! attr x.1.2 "id") as [d|] eqn:E; [|reflexivity].
    exfalso. apply (Hkeys _ _ E). apply elem_of_cons. by left. }
  rewrite dedupeVisit_registers by assumption. cbn [fst].
  apply IH; [exact Hnd|].
  intros id d Hd. apply lookup_insert_Some in Hd as [[<- _]|[_ Hd]];
    [exact Hx|].
  intros Hin. apply (Hkeys _ _ Hd). apply elem_of_cons. by right.
Qed.

Lemma duplicateIdOperations_distinct (doc : Node) :
  distinctIds doc -> duplicateIdOperations doc = [].
Proof.
  intros Hnd. unfold duplicateIdOperations, descendants.
  destruct (nodesBetween_visited
              (fun st n p => dedupeVisit st n p n 0) dedupeVisit
              (fun st n p parent i => eq_refl) doc [] 0 (∅, []))
    as (visited & Hsub & ->).
  rewrite dedupe_fold_distinct; [reflexivity| |].
  - by apply (idsAmong_sublist _ _ Hsub).
  - intros id d Hd. by rewrite lookup_empty in Hd.
Qed.

(** X10.  A document without duplicate ids is left alone by the dedupe
    step: when no two nodes that carry an id share it, the scan issues no
    operation, and the transaction comes back unchanged, whatever the
    replay of an operation would do. *)
Theorem removeElementsWithDuplicateId_distinct
    (replayOperation : Transaction -> Operation -> Transaction)
    (tr : Transaction) :
  distinctIds (tr_doc tr) ->
  duplicateIdOperations (tr_doc tr) = []
  /\ removeElementsWithDuplicateId replayOperation tr = tr.
Proof.
  intros Hnd.
  pose proof (duplicateIdOperations_distinct _ Hnd) as Hops.
  split; [exact Hops|].
  unfold removeElementsWithDuplicateId. by rewrite Hops.
Qed.

(** The three pages carry the ids p1, a, p2, b, c, c1, p3, d, e and f. *)
Lemma removeElementsWithDuplicateId_distinct_witness :
  duplicateIdOperations threePages = []
  /\ removeElementsWithDuplicateId idleReplay (mkTransaction threePages 0 ∅)
     = mkTransaction threePages 0 ∅.
Proof.
  apply (removeElementsWithDuplicateId_distinct idleReplay
           (mkTransaction threePages 0 ∅)).
  apply (bool_decide_unpack _). vm_compute. exact I.
Defined.

(** *** The reach of the scan *)

Lemma dedupeVisit_descends (st : gmap JsValue NodeData * list Operation)
    (n : Node) (p : Z) (parent : Node) (i : Z) :
  (dedupeVisit st n p parent i).2 = true -> identified n = true.
Proof.
  destruct st as [idMap operations]. unfold dedupeVisit, identified, isText.
  destruct (truthy (attr n "id")); [|by cbn].
  destruct (String.eqb (name (type n)) TEXT); [by cbn|].
  cbn [negb orb andb]. reflexivity.
Qed.

(** The scan is a fold over nodes in its reach. *)
Lemma visitChildren_in_reach (parent : Node) (nodeStart : Z)
    (ancestors : list Node) (cs : list Node) :
  Forall (fun c => forall ancestors nodeStart st,
              exists visited,
                visited `sublist_of` nodesInReach ancestors c nodeStart
                /\ nodesBetween dedupeVisit c nodeStart st
                   = foldl (walkStep
                              (fun st n p => (dedupeVisit st n p n 0).1))
                       st visited)
         cs ->
  forall i pos st,
    exists visited,
      visited `sublist_of`
        childrenWithAncestors
          (fun ancestors c start =>
             if identified c then nodesInReach ancestors c start else [])
          ancestors parent nodeStart cs pos
      /\ visitChildren dedupeVisit (nodesBetween dedupeVisit) parent
           nodeStart cs i pos st
         = foldl (walkStep (fun st n p => (dedupeVisit st n p n 0).1))
             st visited.
Proof.
  induction 1 as [|c cs Hc _ IH]; intros i pos st.
  - exists []. split; [constructor|reflexivity].
  - cbn [visitChildren childrenWithAncestors].
    pose proof (dedupeVisit_descends st c (nodeStart + pos) parent i)
      as Hdesc.
    change (dedupeVisit st c (nodeStart + pos) parent i)
      with (dedupeVisit st c (nodeStart + pos) c 0) in *.
    destruct (dedupeVisit st c (nodeStart + pos) c 0) as [st1 descend]
      eqn:Hg.
    assert (Hstep : walkStep (fun st n p => (dedupeVisit st n p n 0).1) st
                      (parent :: ancestors, c, nodeStart + pos) = st1)
      by (unfold walkStep; cbn [fst snd]; by rewrite Hg).
    destruct (descend && negb (contentSize c =? 0)) eqn:E.
    + apply andb_true_iff in E as [-> E]. rewrite E.
      rewrite (Hdesc eq_refl).
      destruct (Hc (parent :: ancestors) (nodeStart + pos + 1) st1)
        as (v1 & Hv1 & ->).
      destruct (IH (i + 1) (pos + nodeSize c)
                  (foldl (walkStep
                            (fun st n p => (dedupeVisit st n p n 0).1))
                     st1 v1))
        as (v2 & Hv2 & ->).
      exists ((parent :: ancestors, c, nodeStart + pos) :: v1 ++ v2).
      split; [by apply sublist_skip, sublist_app|].
      cbn [foldl]. by rewrite Hstep, foldl_app.
    + destruct (IH (i + 1) (pos + nodeSize c) st1) as (v2 & Hv2 & ->).
      exists ((parent :: ancestors, c, nodeStart + pos) :: v2).
      split.
      * apply sublist_skip.
        rewrite <- (app_nil_l v2). apply sublist_app;
          [apply sublist_nil_l|exact Hv2].
      * cbn [foldl]. by rewrite Hstep.
Qed.

Lemma nodesBetween_in_reach (parent : Node) :
  forall ancestors nodeStart st,
    exists visited,
      visited `sublist_of` nodesInReach ancestors parent nodeStart
      /\ nodesBetween dedupeVisit parent nodeStart st
         = foldl (walkStep (fun st n p => (dedupeVisit st n p n 0).1))
             st visited.
Proof.
  induction parent as [t a c s IH] using Node_ind'.
  intros ancestors nodeStart st. cbn [nodesBetween nodesInReach content].
  by apply (visitChildren_in_reach _ _ ancestors).
Qed.

Lemma duplicateIdOperations_in_reach (doc : Node) :
  NoDup (idsAmong (nodesInReach [] doc 0)) ->
  duplicateIdOperations doc = [].
Proof.
  intros Hnd. unfold duplicateIdOperations, descendants.
  destruct (nodesBetween_in_reach doc [] 0 (∅, [])) as (visited & Hsub & ->).
  rewrite dedupe_fold_distinct; [reflexivity| |].
  - by apply (idsAmong_sublist _ _ Hsub).
  - intros id d Hd. by rewrite lookup_empty in Hd.
Qed.

(** X23.  The dedupe step does not look below a node without an id.  When
    the nodes in its reach -- those whose ancestors below the document
    all carry an id -- have distinct ids, it issues no operation and hands
    the transaction back, whatever ids are shared out of its reach. *)
Theorem removeElementsWithDuplicateId_reach
    (replayOperation : Transaction -> Operation -> Transaction)
    (tr : Transaction) :
  NoDup (idsAmong (nodesInReach [] (tr_doc tr) 0)) ->
  duplicateIdOperations (tr_doc tr) = []
  /\ removeElementsWithDuplicateId replayOperation tr = tr.
Proof.
  intros Hnd.
  pose proof (duplicateIdOperations_in_reach _ Hnd) as Hops.
  split; [exact Hops|].
  unfold removeElementsWithDuplicateId. by rewrite Hops.
Qed.

(** The two paragraphs below the block quote share the id X and are left
    alone. *)
Lemma removeElementsWithDuplicateId_reach_witness :
  ~ distinctIds hiddenDuplicates
  /\ duplicateIdOperations hiddenDuplicates = []
  /\ removeElementsWithDuplicateId idleReplay
       (mkTransaction hiddenDuplicates 0 ∅)
     = mkTransaction hiddenDuplicates 0 ∅.
Proof.
  split.
  - apply (bool_decide_unpack _). vm_compute. exact I.
  - apply (removeElementsWithDuplicateId_reach idleReplay
             (mkTransaction hiddenDuplicates 0 ∅)).
    apply (bool_decide_unpack _). vm_compute. exact I.
Defined.

(** *** A run that has nothing to do *)

(** X24.  An edit that raises no flag costs nothing.  When the plugin
    state asks neither for a reflow nor reports an insertion or a
    deletion, the ids of the document are distinct and its first page is
    not an emptied one, [run] hands back the transaction of the state as
    it is: no merge, no split and no repair pass takes place, whatever
    these would do. *)
Theorem run_idle
    (replayOperation : Transaction -> Operation -> Transaction)
    (splitDocument checkNodeAndFix : Transaction -> Outcome Transaction)
    (createAndFill : NodeType -> Outcome (option Node))
    (pageState : PageState) (state prevState : EditorState) :
  splitPage pageState = false ->
  inserting pageState = false ->
  deleting pageState = false ->
  distinctIds (state_doc state) ->
  firstPageEmpty (state_doc state)
    && firstPageHasContent (state_doc prevState) = false ->
  run replayOperation splitDocument checkNodeAndFix createAndFill
    pageState state prevState
  = Done (state_tr state).
Proof.
  intros Hsplit Hins Hdel Hnd Hfirst. unfold run.
  change (state_doc state) with (tr_doc (state_tr state)) in Hnd, Hfirst.
  replace (removeElementsWithDuplicateId replayOperation (state_tr state))
    with (state_tr state)
    by (unfold removeElementsWithDuplicateId;
        by rewrite (duplicateIdOperations_distinct _ Hnd)).
  rewrite Hsplit, Hins, Hdel. cbn [negb andb orb mbind Outcome_bind].
  by rewrite Hfirst.
Qed.

(** A run on the three pages, with collaborators that would fail. *)
Lemma run_idle_witness :
  run idleReplay (fun _ => Thrown) (fun _ => Thrown) (fun _ => Thrown)
    (mkPageState a4Options false false false)
    stateInSecondPage stateInSecondPage
  = Done (mkTransaction threePages 0 ∅).
Proof.
  apply (run_idle idleReplay (fun _ => Thrown) (fun _ => Thrown)
           (fun _ => Thrown)
           (mkPageState a4Options false false false)
           stateInSecondPage stateInSecondPage).
  - reflexivity.
  - reflexivity.
  - reflexivity.
  - apply (bool_decide_unpack _). vm_compute. exact I.
  - vm_compute. reflexivity.
Defined.

(** ** The split strategies *)

Section StrategyFacts.

Variable Dom : Type.
Variable getDomHeight : Dom -> number.
Variable getDomPaddingAndMargin : Dom -> number.
Variable getContentSpacing : Dom -> number.
Variable getBreakPos : Node -> Dom -> SplitContext -> option Z.

Local Abbreviation table :=
  (defaultNodesComputed Dom getDomHeight getDomPaddingAndMargin
     getContentSpacing getBreakPos).

Lemma table_lookup (kind : string) (computed : ComputedFn Dom) :
  table !! kind = Some computed ->
  (kind = ORDEREDLIST /\ computed = sameListCalculation Dom getDomHeight)
  \/ (kind = BULLETLIST /\ computed = sameListCalculation Dom getDomHeight)
  \/ (kind = LISTITEM
      /\ computed = sameItemCalculation Dom getDomHeight
                      getDomPaddingAndMargin)
  \/ (kind = HEADING /\ computed = headingComputed Dom getDomHeight getBreakPos)
  \/ (kind = PARAGRAPH
      /\ computed = paragraphComputed Dom getDomHeight getBreakPos)
  \/ (kind = TRANSIENT_TEXT
      /\ computed = transientTextComputed Dom getDomHeight getContentSpacing)
  \/ (kind = CASSIE_BLOCK_EXTEND /\ computed = cassieBlockExtendComputed Dom)
  \/ (kind = PAGE /\ computed = pageComputed Dom).
Proof.
  unfold defaultNodesComputed. intros H.
  repeat (apply lookup_insert_Some in H as [[<- <-]|[_ H]]; [tauto|]).
  by rewrite lookup_empty in H.
Qed.

(** X11.  A node that fits is added to the page and not looked into.
    For every kind that is measured -- lists, list items, headings,
    paragraphs and transient texts -- the strategy of a node whose height
    does not overflow the page adds that height to the accumulated height,
    sets no boundary and does not enter the children.  (The strategy of a
    list item resolves the position first, and throws if it is outside of
    the document.) *)
Theorem measured_strategy_fits (kind : string) (computed : ComputedFn Dom)
    (c : SplitContext) (node : Node) (pos : Z) (parent : option Node)
    (dom : Dom) :
  table !! kind = Some computed ->
  kind ∈ measuredKinds ->
  isOverflow c (getDomHeight dom) = false ->
  (kind = LISTITEM -> resolve (getDoc c) pos <> None) ->
  computed c node pos parent dom
  = Some (addHeight c (getDomHeight dom), false).
Proof.
  intros Htable Hkind Hfit Hres.
  destruct (table_lookup _ _ Htable)
    as [[-> ->]|[[-> ->]|[[-> ->]|[[-> ->]|[[-> ->]|[[-> ->]|[[-> ->]|[-> ->]]]]]]]].
  - unfold sameListCalculation. by rewrite Hfit.
  - unfold sameListCalculation. by rewrite Hfit.
  - unfold sameItemCalculation, splitResolve.
    destruct (resolve (ctx_doc c) pos) eqn:E; [|by destruct (Hres eq_refl)].
    cbn. by rewrite Hfit.
  - unfold headingComputed. by rewrite Hfit.
  - unfold paragraphComputed. by rewrite Hfit.
  - unfold transientTextComputed. by rewrite Hfit.
  - exfalso. revert Hkind. apply (bool_decide_unpack _). vm_compute. exact I.
  - exfalso. revert Hkind. apply (bool_decide_unpack _). vm_compute. exact I.
Qed.

Lemma chunk_before (r : ResolvedPos) :
  0 <= depthOf r ->
  at_index (path r) (Z.of_nat (List.length (path r)) - 2)
  = None /\ beforeAt r (depthOf r) = None
  \/ exists chunk,
       at_index (path r) (Z.of_nat (List.length (path r)) - 2) = Some chunk
       /\ beforeAt r (depthOf r) = Some chunk.2.
Proof.
  intros H. pose proof (at_index_before r H) as E.
  destruct (at_index _ _) as [chunk|]; [right|left].
  - exists chunk. by split.
  - by split.
Qed.

(** X12.  A list item that overflows is either entered or cut off.  The
    item is the child of its parent that the position points at, and
    differs from its siblings.  When the item is taller than a whole page,
    the strategy adds its padding and margin and enters its children;
    otherwise it always sets a boundary and does not enter: in front of
    the item, at the depth of its position, or -- for the first item of
    its parent -- one level higher, in front of the parent. *)
Theorem sameItemCalculation_overflow (c : SplitContext) (node : Node)
    (pos : Z) (parent : option Node) (dom : Dom) (r : ResolvedPos) (i : Z) :
  isOverflow c (getDomHeight dom) = true ->
  resolve (getDoc c) pos = Some r ->
  childAt r parent node i ->
  sameItemCalculation Dom getDomHeight getDomPaddingAndMargin
    c node pos parent dom
  = if num_gt (getDomHeight dom) (getHeight c)
    then Some (addHeight c (getDomPaddingAndMargin dom), true)
    else
      let b := itemBoundary (i =? 0) pos r in
      Some (setBoundary c (split_pos b) (split_depth b), false).
Proof.
  intros Hover Hres Hchild.
  rewrite <- (isFirstChildOf_index r parent node i Hchild).
  unfold sameItemCalculation, splitResolve.
  unfold getDoc in Hres. rewrite Hres.
  cbn [fmap option_fmap option_map mbind option_bind]. cbv zeta.
  rewrite Hover. cbn [negb].
  destruct (num_gt _ _); [reflexivity|].
  pose proof (resolve_depth_nonneg _ _ _ Hres) as Hd.
  unfold itemBoundary.
  assert (E : Z.of_nat (List.length (path r)) - 2 = depthOf r - 1)
    by (unfold depthOf; lia).
  destruct (chunk_before r Hd) as [[E1 E2]|(chunk & E1 & E2)];
    unfold PathEntry in *; rewrite E1, E2.
  - destruct (isFirstChildOf parent node); cbn [split_pos split_depth];
      [by rewrite E|reflexivity].
  - destruct (isFirstChildOf parent node); cbn [split_pos split_depth andb];
      [|reflexivity].
    rewrite E. by destruct (chunk.2 =? 0).
Qed.

(** X13.  A heading that overflows is always cut off, never entered.  The
    boundary is the interior break when the heading is taller than a whole
    page and a break is found in it, and the position in front of the
    heading otherwise. *)
Theorem headingComputed_overflow (c : SplitContext) (node : Node)
    (pos : Z) (parent : option Node) (dom : Dom) (r : ResolvedPos) :
  isOverflow c (getDomHeight dom) = true ->
  resolve (getDoc c) pos = Some r ->
  headingComputed Dom getDomHeight getBreakPos c node pos parent dom
  = let b := headingBoundary (num_gt (getDomHeight dom) (getHeight c))
               (getBreakPos node dom c) pos r in
    Some (setBoundary c (split_pos b) (split_depth b), false).
Proof.
  intros Hover Hres. unfold headingComputed, splitResolve.
  unfold getDoc in Hres. rewrite Hover, Hres.
  cbn [negb fmap option_fmap option_map mbind option_bind].
  unfold headingBoundary.
  replace (Z.of_nat (List.length (path r)) - 1) with (depthOf r) by reflexivity.
  replace (Z.of_nat (List.length (path r))) with (depthOf r + 1)
    by (unfold depthOf; lia).
  destruct (if num_gt _ _ then _ else _) as [p|]; [|reflexivity].
  by destruct (p =? 0).
Qed.

(** X14.  What a strategy leaves alone.  Whatever the kind, a strategy
    that returns never changes the document, the pagination height or the
    default line height of the split context, and it never both adds
    height and sets a boundary in one call. *)
Theorem strategy_frame (kind : string) (computed : ComputedFn Dom)
    (c c' : SplitContext) (node : Node) (pos : Z) (parent : option Node)
    (dom : Dom) (descend : bool) :
  table !! kind = Some computed ->
  computed c node pos parent dom = Some (c', descend) ->
  getDoc c' = getDoc c
  /\ getHeight c' = getHeight c
  /\ getDefaultHeight c' = getDefaultHeight c
  /\ (pageBoundary c' = pageBoundary c
      \/ getAccumulatedHeight c' = getAccumulatedHeight c).
Proof.
  intros Htable Hc.
  assert (Hadd : forall h d,
             Some (addHeight c h, d) = Some (c', descend) ->
             getDoc c' = getDoc c /\ getHeight c' = getHeight c
             /\ getDefaultHeight c' = getDefaultHeight c
             /\ (pageBoundary c' = pageBoundary c
                 \/ getAccumulatedHeight c' = getAccumulatedHeight c)).
  { intros h d [= <- _]. repeat split. by left. }
  assert (Hset : forall p d e,
             Some (setBoundary c p d, e) = Some (c', descend) ->
             getDoc c' = getDoc c /\ getHeight c' = getHeight c
             /\ getDefaultHeight c' = getDefaultHeight c
             /\ (pageBoundary c' = pageBoundary c
                 \/ getAccumulatedHeight c' = getAccumulatedHeight c)).
  { intros p d e [= <- _]. repeat split. by right. }
  assert (Hsame : forall d,
             Some (c, d) = Some (c', descend) ->
             getDoc c' = getDoc c /\ getHeight c' = getHeight c
             /\ getDefaultHeight c' = getDefaultHeight c
             /\ (pageBoundary c' = pageBoundary c
                 \/ getAccumulatedHeight c' = getAccumulatedHeight c)).
  { intros d [= <- _]. repeat split. by left. }
  destruct (table_lookup _ _ Htable)
    as [[-> ->]|[[-> ->]|[[-> ->]|[[-> ->]|[[-> ->]|[[-> ->]|[[-> ->]|[-> ->]]]]]]]].
  - unfold sameListCalculation in Hc. destruct (isOverflow _ _); eauto.
  - unfold sameListCalculation in Hc. destruct (isOverflow _ _); eauto.
  - unfold sameItemCalculation in Hc.
    destruct (splitResolve c pos) as [chunks|]; [|discriminate].
    cbn [mbind option_bind] in Hc.
    destruct (negb _); [eauto|]. destruct (num_gt _ _); eauto.
  - unfold headingComputed in Hc. destruct (negb _); [eauto|].
    destruct (splitResolve c pos) as [chunks|]; [|discriminate].
    cbn [mbind option_bind] in Hc.
    destruct (if num_gt _ _ then _ else _) as [p|]; [|eauto].
    destruct (p =? 0); eauto.
  - unfold paragraphComputed in Hc. destruct (negb _); [eauto|].
    destruct (splitResolve c pos) as [chunks|]; [|discriminate].
    cbn [mbind option_bind] in Hc.
    assert (Hfall : forall fallback,
               fallback
               = (if isFirstChildOf parent node then
                    match at_index chunks (Z.of_nat (List.length chunks) - 2) with
                    | Some chunk =>
                        if negb (chunk.2 =? 0)
                        then setBoundary c chunk.2
                               (Z.of_nat (List.length chunks) - 2)
                        else c
                    | None => c
                    end
                  else setBoundary c pos (Z.of_nat (List.length chunks) - 1)) ->
               forall d, Some (fallback, d) = Some (c', descend) ->
               getDoc c' = getDoc c /\ getHeight c' = getHeight c
               /\ getDefaultHeight c' = getDefaultHeight c
               /\ (pageBoundary c' = pageBoundary c
                   \/ getAccumulatedHeight c' = getAccumulatedHeight c)).
    { intros fallback -> d.
      destruct (isFirstChildOf parent node); [|eauto].
      destruct (at_index _ _) as [chunk|]; [|eauto].
      destruct (negb _); eauto. }
    destruct (if num_gt _ _ then _ else _) as [p|]; [|eauto].
    destruct (negb (p =? 0)); eauto.
  - unfold transientTextComputed in Hc. eauto.
  - unfold cassieBlockExtendComputed in Hc. eauto.
  - unfold pageComputed in Hc. eauto.
Qed.

End StrategyFacts.

(** The first item of the flat list, 100 pixels high, fits an empty page
    of 800 pixels. *)
Lemma measured_strategy_fits_witness :
  sameItemCalculation Node sampleBlockHeight sampleZero
    (newSplitContext flatListPage (of_Z 800) (of_Z 20))
    (listItem "i1" "a") 2 (Some flatList) (listItem "i1" "a")
  = Some (addHeight (newSplitContext flatListPage (of_Z 800) (of_Z 20))
            (sampleBlockHeight (listItem "i1" "a")),
          false).
Proof.
  apply (measured_strategy_fits Node sampleBlockHeight sampleZero sampleZero
           sampleNoPoint LISTITEM).
  - reflexivity.
  - apply (bool_decide_unpack _). vm_compute. exact I.
  - vm_compute. reflexivity.
  - intros _. vm_compute. discriminate.
Defined.

(** The second item of the flat list does not fit the 50 pixels left on a
    page of 150 pixels: the list is cut in front of it. *)
Lemma sameItemCalculation_overflow_witness :
  sameItemCalculation Node sampleBlockHeight sampleZero
    (mkSplitContext flatListPage (of_Z 100) None (of_Z 150) (of_Z 20))
    secondItem 7 (Some flatList) secondItem
  = Some (setBoundary
            (mkSplitContext flatListPage (of_Z 100) None (of_Z 150) (of_Z 20))
            7 2,
          false).
Proof.
  eapply eq_trans.
  - eapply (sameItemCalculation_overflow Node sampleBlockHeight sampleZero
              (mkSplitContext flatListPage (of_Z 100) None (of_Z 150)
                 (of_Z 20))
              secondItem 7 (Some flatList) secondItem _ 1).
    + vm_compute. reflexivity.
    + vm_compute. reflexivity.
    + exists flatList, 7. split; [reflexivity|].
      split; [vm_compute; reflexivity|]. split; [reflexivity|].
      apply (NoDup_fmap_1 textContent).
      apply (bool_decide_unpack _). vm_compute. exact I.
  - vm_compute. reflexivity.
Defined.

(** A heading of 500 pixels after 500 pixels of text on a page of 600
    pixels: the page is cut in front of the heading. *)
Lemma headingComputed_overflow_witness :
  headingComputed Node sampleBlockHeight sampleNoPoint
    (mkSplitContext headingDoc (of_Z 500) None (of_Z 600) (of_Z 20))
    titleHeading 8 (firstChild headingDoc) titleHeading
  = Some (setBoundary
            (mkSplitContext headingDoc (of_Z 500) None (of_Z 600) (of_Z 20))
            8 1,
          false).
Proof.
  eapply eq_trans.
  - eapply (headingComputed_overflow Node sampleBlockHeight sampleNoPoint
              (mkSplitContext headingDoc (of_Z 500) None (of_Z 600) (of_Z 20))
              titleHeading 8 (firstChild headingDoc) titleHeading).
    + vm_compute. reflexivity.
    + vm_compute. reflexivity.
  - vm_compute. reflexivity.
Defined.

Lemma strategy_frame_witness :
  exists c',
    paragraphComputed Node sampleBlockHeight sampleNoPoint
      (mkSplitContext threeBlocks (of_Z 100) None (of_Z 500) (of_Z 20))
      (paragraph (JStr "c") "Figure") 13 (Some threeBlocksPage)
      (paragraph (JStr "c") "Figure")
    = Some (c', false)
    /\ getDoc c' = threeBlocks
    /\ getHeight c' = of_Z 500
    /\ getDefaultHeight c' = of_Z 20
    /\ (pageBoundary c' = None \/ getAccumulatedHeight c' = of_Z 100).
Proof.
  eexists. split; [vm_compute; reflexivity|].
  apply (strategy_frame Node sampleBlockHeight sampleZero sampleZero
           sampleNoPoint PARAGRAPH
           (paragraphComputed Node sampleBlockHeight sampleNoPoint)
           (mkSplitContext threeBlocks (of_Z 100) None (of_Z 500) (of_Z 20))
           _ (paragraph (JStr "c") "Figure") 13 (Some threeBlocksPage)
           (paragraph (JStr "c") "Figure") false).
  - reflexivity.
  - vm_compute. reflexivity.
Defined.

(** ** The options in force *)

(** X15.  The options that result from the merge with the defaults are
    complete and keep what the user has set: every optional setting is
    present afterwards, and every setting the user has given -- a
    dimension, a height, the margins, the paragraph spacing, the page
    number flags, position and alignment -- is the one in force. *)
Theorem deepMerge_defaults (user : PageOptions) :
  completeOptions (deepMerge DEFAULT_PAGE_OPTIONS user)
  /\ keepsSettingsOf user (deepMerge DEFAULT_PAGE_OPTIONS user).
Proof.
  split.
  - unfold completeOptions, deepMerge.
    cbn [bodyPadding headerHeight footerHeight pageNumber pageLayout
         DEFAULT_PAGE_OPTIONS].
    split; [destruct (bodyPadding user); by eexists|].
    split; [destruct (headerHeight user); by eexists|].
    split; [destruct (footerHeight user); by eexists|].
    split; [destruct (pageNumber user); by eexists|].
    destruct (pageLayout user) as [ul|]; eexists;
      (split; [reflexivity|]); split; by eexists.
  - unfold keepsSettingsOf, deepMerge.
    cbn [bodyHeight bodyWidth bodyPadding headerHeight footerHeight
         pageNumber pageLayout DEFAULT_PAGE_OPTIONS].
    split; [by destruct (bodyHeight user)|].
    split; [by destruct (bodyWidth user)|].
    split; [by intros [x ->]|].
    split; [by intros [x ->]|].
    split; [by intros [x ->]|].
    split; [intros layout m -> Hm; cbn; by rewrite Hm|].
    split; [intros layout sp -> Hsp; cbn; by rewrite Hsp|].
    intros n ->. eexists. split; [reflexivity|].
    cbn [show showCount showOnFirstPage position alignment].
    repeat split; by intros [x ->].
Qed.

(** X16.  Merging with the defaults is idempotent: options that have been
    merged are not changed by a second merge. *)
Theorem deepMerge_idempotent (user : PageOptions) :
  deepMerge DEFAULT_PAGE_OPTIONS (deepMerge DEFAULT_PAGE_OPTIONS user)
  = deepMerge DEFAULT_PAGE_OPTIONS user.
Proof.
  destruct user as [bh bw bp hh fh [[mg sp]|] [[sh sc sf po al]|]];
    unfold deepMerge; cbn;
    destruct bh, bw, bp, hh, fh; try destruct mg; try destruct sp;
    try destruct po; try destruct al; reflexivity.
Qed.

(** ** The room for content on a page *)



(** X18.  The room for content never loses both the header and the
    footer: the header height counts only when page numbers are shown at
    the top and the footer height only when they are shown at the bottom,
    so at least one of the two has no influence on the height of the
    body, and neither has when page numbers are off. *)
Theorem getBodyHeight_header_or_footer (o : PageOptions) :
  ((forall x, getBodyHeight (withHeader o x) = getBodyHeight o)
   \/ (forall y, getBodyHeight (withFooter o y) = getBodyHeight o))
  /\ ((pageNumber o = None
       \/ exists n, pageNumber o = Some n /\ show n = false) ->
      forall x y,
        getBodyHeight (withHeader (withFooter o y) x) = getBodyHeight o).
Proof.
  unfold getBodyHeight, withHeader, withFooter.
  cbn [bodyHeight headerHeight footerHeight pageLayout pageNumber].
  split.
  - destruct (shownAt (pageNumber o) PositionTop) eqn:Etop.
    + right. intros y.
      replace (shownAt (pageNumber o) PositionBottom) with false;
        [reflexivity|].
      unfold shownAt in *. destruct (pageNumber o) as [n|]; [|reflexivity].
      destruct (show n); [|reflexivity].
      by destruct (position n) as [[]|].
    + by left.
  - intros Hoff x y.
    assert (E : forall p, shownAt (pageNumber o) p = false).
    { intros p. unfold shownAt.
      destruct Hoff as [->|(n & -> & ->)]; reflexivity. }
    by rewrite !E.
Qed.

(** ** splitPage *)

Lemma nodeAt_in_range (r : ResolvedPos) (d : Z) :
  0 <= d <= depthOf r -> exists n, nodeAt r d = Some n.
Proof.
  intros Hd. rewrite nodeAt_pathNodes by lia.
  apply lookup_lt_is_Some_2. unfold pathNodes, depthOf in *.
  rewrite length_fmap. lia.
Qed.

Section SplitPageFacts.

Variable freshId : nat -> string.
Variable schema : Schema.
Variable doc : Node.
Variable pos : Z.
Variable r : ResolvedPos.
Hypothesis doc_wellFormed : wellFormed doc = true.
Hypothesis pos_resolves : resolve doc pos = Some r.

Lemma reopenedNode_returns (n : Node) (after : list Node) (supply : nat) :
  exists na supply',
    reopenedNode freshId schema doc pos n after supply = Done (na, supply')
    /\ (supply <= supply')%nat.
Proof.
  unfold reopenedNode.
  destruct (schema !! String.append (name (type n)) EXTEND) as [t|].
  { eexists _, _. split; [reflexivity|]. cbn. lia. }
  destruct (truthy (attr (copy n after) "id")).
  2:{ eexists _, _. split; [reflexivity|]. lia. }
  destruct (isNamed ORDEREDLIST n).
  - rewrite (calculateOrderedListStart_expected doc n pos r)
      by assumption.
    eexists _, _. split; [reflexivity|]. cbn. lia.
  - eexists _, _. split; [reflexivity|]. cbn. lia.
Qed.

Lemma splitLevels_returns (typesAfter : list (option NodeType))
    (steps : nat) :
  forall d i before after supply,
    0 <= d - Z.of_nat steps + 1 -> d <= depthOf r ->
    exists before' after' supply',
      splitLevels freshId schema doc r pos typesAfter steps d i
        before after supply
      = Done (before', after', supply')
      /\ (supply <= supply')%nat
      /\ List.length before'
         = (if steps is O then List.length before else 1%nat).
Proof.
  induction steps as [|steps IH]; intros d i before after supply Hlo Hhi.
  - eexists _, _, _. split; [reflexivity|]. split; [lia|reflexivity].
  - cbn [splitLevels].
    destruct (nodeAt_in_range r d ltac:(lia)) as [n ->].
    cbn [orThrow mbind Outcome_bind].
    destruct (reopenedNode_returns n after supply) as (na & s1 & -> & Hs1).
    cbn [mbind Outcome_bind].
    destruct (mjoin (at_index typesAfter i)) as [t|].
    + destruct (IH (d - 1) (i - 1) [copy n before]
                  [create t (<["id" := (getId freshId s1).1]>
                               {["pageNumber" :=
                                   match na with
                                   | Some x => js_succ (attr x "pageNumber")
                                   | None => JNum NaN
                                   end]})
                     after]
                  (getId freshId s1).2 ltac:(lia) ltac:(lia))
        as (b' & a' & s' & E & Hs' & Hlen).
      cbn [getId fst snd] in E, Hs'. cbn [getId]. rewrite E.
      eexists _, _, _. split; [reflexivity|]. split; [lia|].
      rewrite Hlen. by destruct steps.
    + destruct (IH (d - 1) (i - 1) [copy n before] (option_list na) s1
                  ltac:(lia) ltac:(lia))
        as (b' & a' & s' & E & Hs' & Hlen).
      rewrite E. eexists _, _, _. split; [reflexivity|]. split; [lia|].
      rewrite Hlen. by destruct steps.
Qed.

(** X19.  Up to the application of its step, a split at a position of a
    well-formed document does not throw.  For every depth between 0 and
    the depth of the position, the loop of [splitPage] -- the copies of
    the ancestors, the ids drawn, the start number of a reopened ordered
    list -- runs to its end and builds the replace step, at the position
    and with the depth asked for; the "before" side of the step is a
    single node chain when at least one level is split.  Whether the
    editor then applies the step ([tr.step], which can throw) is not part
    of the statement. *)
Theorem splitPageStep_returns (depth : Z)
    (typesAfter : list (option NodeType)) (supply : nat) :
  0 <= depth <= depthOf r ->
  exists step supply',
    splitPageStep freshId schema doc pos depth typesAfter supply
    = Done (step, supply')
    /\ step_pos step = pos
    /\ step_depth step = depth
    /\ (supply <= supply')%nat
    /\ (0 < depth -> List.length (step_before step) = 1%nat).
Proof.
  intros Hdepth. unfold splitPageStep. rewrite pos_resolves.
  cbn [orThrow mbind Outcome_bind].
  destruct (splitLevels_returns typesAfter (Z.to_nat depth) (depthOf r)
              (depth - 1) [] [] supply ltac:(lia) ltac:(lia))
    as (b' & a' & s' & -> & Hs & Hlen).
  cbn [mbind Outcome_bind]. eexists _, _. split; [reflexivity|].
  cbn [step_pos step_depth step_before]. repeat split; [exact Hs|].
  intros Hpos. rewrite Hlen.
  destruct (Z.to_nat depth) eqn:E; [lia|reflexivity].
Qed.

Lemma attr_assign_other (a b : gmap string JsValue) (t : NodeType)
    (c : list Node) (key : string) :
  b !! key = None ->
  attr (create t (assign a b) c) key = default JUndefined (a !! key).
Proof.
  intros Hb. unfold attr, create, assign. cbn [attrs].
  by rewrite lookup_union_r.
Qed.

(** The node that reopens an ancestor known to the schema carries the
    page number of that ancestor. *)
Lemma reopenedNode_page_number (n : Node) (after : list Node)
    (supply : nat) :
  is_Some (schema !! name (type n)) ->
  exists na supply',
    reopenedNode freshId schema doc pos n after supply
    = Done (Some na, supply')
    /\ attr na "pageNumber" = attr n "pageNumber"
    /\ (supply <= supply')%nat.
Proof.
  intros [t Ht]. unfold reopenedNode.
  destruct (schema !! String.append (name (type n)) EXTEND) as [t'|].
  { eexists _, _. split; [reflexivity|]. split; [|cbn; lia].
    cbn [getId fst]. by rewrite attr_assign_other. }
  destruct (truthy (attr (copy n after) "id")).
  2:{ eexists _, _. split; [reflexivity|]. split; [reflexivity|lia]. }
  rewrite Ht.
  assert (Hext : forall e : gmap string JsValue,
             e = (if strict_eq (attr (copy n after) "extend") (JBool false)
                  then {["extend" := JBool true]} else ∅) ->
             e !! "pageNumber" = None).
  { intros e ->. by destruct (strict_eq _ _). }
  destruct (isNamed ORDEREDLIST n).
  - rewrite (calculateOrderedListStart_expected doc n pos r) by assumption.
    cbn [mbind Outcome_bind getId fmap option_fmap option_map].
    eexists _, _. split; [reflexivity|]. split; [|lia].
    rewrite attr_assign_other; [reflexivity|].
    rewrite lookup_insert_ne by discriminate.
    rewrite lookup_insert_ne by discriminate. by apply Hext.
  - cbn [mbind Outcome_bind getId fmap option_fmap option_map].
    eexists _, _. split; [reflexivity|]. split; [|lia].
    rewrite attr_assign_other; [reflexivity|].
    rewrite lookup_insert_ne by discriminate. by apply Hext.
Qed.

Lemma splitLevels_last (t : NodeType) (page : Node) (steps : nat) :
  forall d i before after supply,
    i = Z.of_nat steps ->
    0 <= d - Z.of_nat steps -> d <= depthOf r ->
    nodeAt r (d - Z.of_nat steps) = Some page ->
    is_Some (schema !! name (type page)) ->
    exists before' newPage supply' k,
      splitLevels freshId schema doc r pos [Some t] (S steps) d i
        before after supply
      = Done (before', [newPage], supply')
      /\ type newPage = t
      /\ attr newPage "pageNumber" = js_succ (attr page "pageNumber")
      /\ attr newPage "id" = JStr (freshId k)
      /\ (supply <= k < supply')%nat.
Proof.
  induction steps as [|steps IH];
    intros d i before after supply Hi Hlo Hhi Hpage Hknown.
  - subst i. rewrite Z.sub_0_r in Hpage.
    cbn [splitLevels]. rewrite Hpage. cbn [orThrow mbind Outcome_bind].
    destruct (reopenedNode_page_number page after supply Hknown)
      as (na & s1 & -> & Hnum & Hs1).
    cbn [mbind Outcome_bind at_index Z.ltb Z.compare Z.to_nat lookup
         list_lookup mjoin option_join getId].
    eexists _, _, _, s1. split; [reflexivity|].
    split; [reflexivity|]. split; [|split; [reflexivity|lia]].
    unfold attr in *. unfold create. cbn [attrs].
    rewrite lookup_insert_ne by discriminate.
    rewrite lookup_singleton_eq. cbn [default]. by rewrite Hnum.
  - cbn [splitLevels].
    destruct (nodeAt_in_range r d ltac:(lia)) as [n ->].
    cbn [orThrow mbind Outcome_bind].
    destruct (reopenedNode_returns n after supply) as (na & s1 & -> & Hs1).
    cbn [mbind Outcome_bind].
    assert (E : mjoin (at_index [Some t] i) = None).
    { unfold at_index. destruct (i <? 0); [reflexivity|].
      replace (Z.to_nat i) with (S (Z.to_nat (i - 1))) by lia.
      reflexivity. }
    rewrite E.
    destruct (IH (d - 1) (i - 1) [copy n before] (option_list na) s1)
      as (b' & newPage & s' & k & Hsplit & Ht & Hnum & Hid & Hk);
      [lia|lia|lia| |exact Hknown|].
    { rewrite <- Hpage. f_equal. lia. }
    cbn [splitLevels] in Hsplit. rewrite Hsplit.
    eexists _, _, _, k. split; [reflexivity|]. repeat split; try assumption; lia.
Qed.

(** X20.  The page opened by a split continues the numbering.  When the
    split reaches up to a page (an ancestor whose kind the schema knows)
    and a page type is given for the outermost level, the "after" side of
    the replace step is one new page of that type, numbered one more than
    the page that is split, with an id drawn fresh for it. *)
Theorem splitPageStep_new_page (depth : Z) (t : NodeType) (page : Node)
    (supply : nat) :
  0 < depth <= depthOf r + 1 ->
  nodeAt r (depthOf r - depth + 1) = Some page ->
  is_Some (schema !! name (type page)) ->
  exists step supply' newPage k,
    splitPageStep freshId schema doc pos depth [Some t] supply
    = Done (step, supply')
    /\ step_after step = [newPage]
    /\ type newPage = t
    /\ attr newPage "pageNumber" = js_succ (attr page "pageNumber")
    /\ attr newPage "id" = JStr (freshId k)
    /\ (supply <= k < supply')%nat.
Proof.
  intros Hdepth Hpage Hknown. unfold splitPageStep. rewrite pos_resolves.
  cbn [orThrow mbind Outcome_bind].
  destruct (splitLevels_last t page (Z.to_nat (depth - 1)) (depthOf r)
              (depth - 1) [] [] supply)
    as (b' & newPage & s' & k & Hsplit & Ht & Hnum & Hid & Hk);
    [lia|lia|lia| |exact Hknown|].
  { rewrite <- Hpage. f_equal. lia. }
  replace (Z.to_nat depth) with (S (Z.to_nat (depth - 1))) by lia.
  rewrite Hsplit. cbn [mbind Outcome_bind].
  eexists _, _, newPage, k. split; [reflexivity|].
  cbn [step_after]. repeat split; try assumption; lia.
Qed.

End SplitPageFacts.

(** The flat list cut before its third item, two levels deep. *)
Lemma splitPageStep_returns_witness :
  exists step supply',
    splitPageStep sampleIds listSchema flatListPage 12 2
      [Some (blockType PAGE)] 0
    = Done (step, supply')
    /\ step_pos step = 12
    /\ step_depth step = 2
    /\ (0 <= supply')%nat
    /\ (0 < 2 -> List.length (step_before step) = 1%nat).
Proof.
  eapply (splitPageStep_returns sampleIds listSchema flatListPage 12).
  - vm_compute. reflexivity.
  - vm_compute. reflexivity.
  - vm_compute. split; discriminate.
Defined.

(** The page that holds the flat list is page 1; the page opened by the
    cut is numbered 2. *)
Lemma splitPageStep_new_page_witness :
  exists step supply' newPage k,
    splitPageStep sampleIds listSchema flatListPage 12 2
      [Some (blockType PAGE)] 0
    = Done (step, supply')
    /\ step_after step = [newPage]
    /\ type newPage = blockType PAGE
    /\ attr newPage "pageNumber"
       = js_succ (attr (pageNode (JStr "p1") 1 [flatList]) "pageNumber")
    /\ attr newPage "id" = JStr (sampleIds k)
    /\ (0 <= k < supply')%nat.
Proof.
  eapply (splitPageStep_new_page sampleIds listSchema flatListPage 12).
  - vm_compute. reflexivity.
  - vm_compute. reflexivity.
  - vm_compute. split; [reflexivity|discriminate].
  - vm_compute. reflexivity.
  - eexists. vm_compute. reflexivity.
Defined.

Example splitPageStep_page_two :
  (fun '(step, _) => (fun p => attr p "pageNumber") <$> step_after step)
    <$> splitPageStep sampleIds listSchema flatListPage 12 2
          [Some (blockType PAGE)] 0
  = Done [JNum (of_Z 2)].
Proof. vm_compute. reflexivity. Qed.

(** ** The two copies of the text-break search *)

Section TwoSearches.

Variable createAndCalculateHeight : string -> number.
Variable fullText : string.
Variable heightLimit : number.
Hypothesis no_leading_space : charAt fullText 0 <> Some space.

Lemma searchLoop_agree (fuel : nat) :
  forall low high validBreak,
    1 <= low -> high <= len fullText ->
    Earlier.searchLoop createAndCalculateHeight fullText heightLimit
      fuel low high validBreak
    = match searchLoop createAndCalculateHeight fullText heightLimit
              fuel low high validBreak with
      | Some r => Done r
      | None => OutOfFuel
      end.
Proof.
  induction fuel as [|fuel IH]; intros low high v Hlow Hhigh; [reflexivity|].
  cbn [searchLoop Earlier.searchLoop].
  destruct (low <=? high) eqn:E; [|reflexivity].
  assert (Hle : low <= high) by lia.
  pose proof (mid_bounds low high Hle) as Hmid.
  set (mid := (low + high) / 2) in *.
  assert (Hlen : len (slice fullText 0 mid) = mid)
    by (apply len_slice_0; lia).
  destruct (lastIndexOf_spec (slice fullText 0 mid) space)
    as [[Hm1 Hno]|[Hrange Hsp]].
  - rewrite Hm1, Hlen. cbn [Z.ltb Z.compare andb].
    destruct (7 <? mid) eqn:E7; cbn [negb]; [|reflexivity].
    rewrite slice_0_idem, Hlen by lia.
    replace (mid =? 0) with false by lia. cbn [andb].
    replace (0 <? mid) with true by lia.
    destruct (num_le _ _); apply IH; lia.
  - set (lsi := lastIndexOf (slice fullText 0 mid) space) in *.
    rewrite Hlen in Hrange.
    replace (lsi <? 0) with false by lia. cbn [andb].
    rewrite charAt_slice_0 in Hsp by lia.
    assert (lsi <> 0) by (intros E0; rewrite E0 in Hsp; by apply no_leading_space).
    rewrite slice_0_slice_0 by lia.
    rewrite (len_slice_0 fullText lsi) by lia.
    replace (lsi =? 0) with false by lia. cbn [andb].
    replace (0 <? lsi) with true by lia.
    destruct (num_le _ _); apply IH; lia.
Qed.

(** X21.  The two copies of the search agree on every text that does not
    start with a space: the copy under [src/page] throws nothing there
    and returns what the copy of the demo returns.  The guard against an
    empty candidate, present only in the copy of the demo, comes into
    play for a leading space alone. *)
Theorem binarySearchTextBreak_copies_agree :
  Earlier.binarySearchTextBreak createAndCalculateHeight fullText heightLimit
  = match binarySearchTextBreak createAndCalculateHeight fullText
            heightLimit with
    | Some r => Done r
    | None => OutOfFuel
    end.
Proof.
  unfold Earlier.binarySearchTextBreak, binarySearchTextBreak.
  apply searchLoop_agree; lia.
Qed.

End TwoSearches.

(** With room for ten code units both copies break "hello world foo bar"
    after "hello". *)
Lemma binarySearchTextBreak_copies_agree_witness :
  Earlier.binarySearchTextBreak (fun candidate => of_Z (len candidate))
    "hello world foo bar" (of_Z 10)
  = Done 5
  /\ binarySearchTextBreak (fun candidate => of_Z (len candidate))
       "hello world foo bar" (of_Z 10)
     = Some 5.
Proof.
  split; [|vm_compute; reflexivity].
  rewrite (binarySearchTextBreak_copies_agree
             (fun candidate => of_Z (len candidate)) "hello world foo bar"
             (of_Z 10)).
  - vm_compute. reflexivity.
  - vm_compute. discriminate.
Defined.

(** On a text with a leading space they differ: with room for four code
    units, the copy of the demo breaks after the space; the other copy
    trims its first candidate, " abcde", to the empty text and throws. *)
Example binarySearchTextBreak_copies_differ :
  Earlier.binarySearchTextBreak (fun candidate => of_Z (len candidate))
    " abcdefgh ij" (of_Z 4) = Thrown
  /\ binarySearchTextBreak (fun candidate => of_Z (len candidate))
       " abcdefgh ij" (of_Z 4) = Some 1.
Proof. split; vm_compute; reflexivity. Qed.

(** No ancestor on a resolved path is a text node, save possibly the
    node the path starts from. *)
Lemma findIndexIn_not_text (node : Node) (q start : Z) (cs : list Node) :
  Forall (fun c => forall q start,
              isText c = false ->
              Forall (fun e : PathEntry => isText e.1.1 = false)
                     (resolveFrom c q start)) cs ->
  isText node = false ->
  forall i curPos,
    Forall (fun e : PathEntry => isText e.1.1 = false)
           (findIndexIn resolveFrom node q start cs i curPos).
Proof.
  intros Hcs Hnode. induction Hcs as [|c cs Hc _ IH]; intros i curPos.
  - by repeat constructor.
  - cbn [findIndexIn].
    destruct (_ >=? _); [|apply IH].
    destruct (_ =? _); [by repeat constructor|].
    constructor; [exact Hnode|].
    destruct (isText c) eqn:E; [constructor|by apply Hc].
Qed.

Lemma resolveFrom_not_text (node : Node) :
  forall q start,
    isText node = false ->
    Forall (fun e : PathEntry => isText e.1.1 = false)
           (resolveFrom node q start).
Proof.
  induction node as [t a c s IH] using Node_ind'. intros q start Hnode.
  cbn [resolveFrom content].
  destruct (q =? 0); [by repeat constructor|].
  by apply findIndexIn_not_text.
Qed.

Lemma nodeAt_not_text (doc : Node) (pos : Z) (r : ResolvedPos) (d : Z)
    (n : Node) :
  isText doc = false ->
  resolve doc pos = Some r ->
  nodeAt r d = Some n ->
  isText n = false.
Proof.
  intros Hdoc Hres Hn. unfold resolve in Hres.
  destruct (_ && _); [|discriminate]. injection Hres as <-.
  unfold nodeAt, at_index in Hn. cbn [path] in Hn.
  destruct (_ <? 0); [discriminate|].
  destruct (resolveFrom doc pos 0 !! _) as [e|] eqn:He; [|discriminate].
  injection Hn as <-.
  pose proof (resolveFrom_not_text doc pos 0 Hdoc) as Hall.
  rewrite Forall_forall in Hall. apply Hall.
  by apply list_elem_of_lookup_2 in He.
Qed.

Lemma textContent_create (t : NodeType) (a : gmap string JsValue)
    (c : list Node) :
  textsOf c = EmptyString -> textContent (create t a c) = EmptyString.
Proof.
  intros Hc. rewrite textContent_unfold. unfold create, isText.
  cbn [type text content]. by destruct (String.eqb _ _).
Qed.

Lemma textsOf_one (n : Node) : textsOf [n] = textContent n.
Proof. cbn [textsOf foldr]. apply string_app_empty_r. Qed.

Lemma textsOf_some (n : Node) :
  textsOf (option_list (Some n)) = textContent n.
Proof. apply textsOf_one. Qed.

Section SplitPageText.

Variable freshId : nat -> string.
Variable schema : Schema.
Variable doc : Node.
Variable pos : Z.
Variable r : ResolvedPos.
Hypothesis doc_not_text : isText doc = false.
Hypothesis pos_resolves : resolve doc pos = Some r.

Lemma reopenedNode_no_text (n : Node) (after : list Node) (supply : nat)
    (na : option Node) (supply' : nat) :
  isText n = false ->
  textsOf after = EmptyString ->
  reopenedNode freshId schema doc pos n after supply = Done (na, supply') ->
  textsOf (option_list na) = EmptyString.
Proof.
  intros Hn Hafter. unfold reopenedNode.
  destruct (schema !! String.append (name (type n)) EXTEND) as [t|].
  { destruct (getId freshId supply) as [id s1]. intros [= <- _].
    rewrite textsOf_some. by apply textContent_create. }
  destruct (truthy (attr (copy n after) "id")).
  2:{ intros [= <- _]. rewrite textsOf_some.
      by rewrite textContent_copy by exact Hn. }
  set (extend := if strict_eq _ _ then _ else _).
  destruct (isNamed ORDEREDLIST n).
  - destruct (calculateOrderedListStart doc n pos) as [k| |];
      [|discriminate..].
    cbn [mbind Outcome_bind].
    destruct (getId freshId supply) as [id s1]. intros [= <- _].
    destruct (schema !! name (type n)) as [t|]; [|reflexivity].
    cbn [fmap option_fmap option_map]. rewrite textsOf_some.
    by apply textContent_create.
  - cbn [mbind Outcome_bind].
    destruct (getId freshId supply) as [id s1]. intros [= <- _].
    destruct (schema !! name (type n)) as [t|]; [|reflexivity].
    cbn [fmap option_fmap option_map]. rewrite textsOf_some.
    by apply textContent_create.
Qed.

Lemma splitLevels_no_text (typesAfter : list (option NodeType))
    (steps : nat) :
  forall d i before after supply before' after' supply',
    textsOf before = EmptyString ->
    textsOf after = EmptyString ->
    splitLevels freshId schema doc r pos typesAfter steps d i
      before after supply
    = Done (before', after', supply') ->
    textsOf before' = EmptyString /\ textsOf after' = EmptyString.
Proof.
  induction steps as [|steps IH];
    intros d i before after supply b' a' s' Hb Ha Hsplit.
  - injection Hsplit as <- <- _. by split.
  - cbn [splitLevels] in Hsplit.
    destruct (nodeAt r d) as [n|] eqn:Hn; [|discriminate].
    cbn [orThrow mbind Outcome_bind] in Hsplit.
    pose proof (nodeAt_not_text doc pos r d n doc_not_text pos_resolves Hn)
      as Htext.
    destruct (reopenedNode freshId schema doc pos n after supply)
      as [[na s1]| |] eqn:Hna; [|discriminate..].
    cbn [mbind Outcome_bind] in Hsplit.
    pose proof (reopenedNode_no_text n after supply na s1 Htext Ha Hna)
      as Hna'.
    assert (Hb' : textsOf [copy n before] = EmptyString).
    { rewrite textsOf_one. by rewrite textContent_copy by exact Htext. }
    destruct (mjoin (at_index typesAfter i)) as [t|].
    + destruct (getId freshId s1) as [id s2].
      eapply IH; [exact Hb'| |exact Hsplit].
      rewrite textsOf_one. by apply textContent_create.
    + eapply IH; [exact Hb'|exact Hna'|exact Hsplit].
Qed.

(** X22.  A split inserts structure only.  The replace step built by
    [splitPage] replaces nothing (it inserts at the position) and what it
    inserts -- the chain of nodes that closes the ancestors on the
    "before" side and the chain that reopens them on the "after" side --
    holds no text. *)
Theorem splitPageStep_no_text (depth : Z)
    (typesAfter : list (option NodeType)) (supply : nat)
    (step : SplitStep) (supply' : nat) :
  splitPageStep freshId schema doc pos depth typesAfter supply
  = Done (step, supply') ->
  step_pos step = pos
  /\ textsOf (step_before step) = EmptyString
  /\ textsOf (step_after step) = EmptyString.
Proof.
  unfold splitPageStep. rewrite pos_resolves.
  cbn [orThrow mbind Outcome_bind]. intros H.
  destruct (splitLevels _ _ _ _ _ _ _ _ _ _ _ _) as [[[b a] s]| |] eqn:E;
    [|discriminate..].
  cbn [mbind Outcome_bind] in H. injection H as <- <-.
  cbn [step_pos step_before step_after]. split; [reflexivity|].
  eapply splitLevels_no_text; [| |exact E]; reflexivity.
Qed.

End SplitPageText.

Lemma splitPageStep_no_text_witness :
  exists step supply',
    splitPageStep sampleIds listSchema flatListPage 12 2
      [Some (blockType PAGE)] 0
    = Done (step, supply')
    /\ step_pos step = 12
    /\ textsOf (step_before step) = EmptyString
    /\ textsOf (step_after step) = EmptyString.
Proof.
  destruct (splitPageStep sampleIds listSchema flatListPage 12 2
              [Some (blockType PAGE)] 0) as [[step supply']| |] eqn:E;
    [|vm_compute in E; discriminate..].
  exists step, supply'. split; [reflexivity|].
  eapply (splitPageStep_no_text sampleIds listSchema flatListPage 12 _
            eq_refl _ 2 [Some (blockType PAGE)] 0 step supply' E).
  Unshelve. 2: vm_compute; reflexivity.
Defined.

(** ** The split loop *)

Section SplitDocumentFacts.

Variable Dom : Type.
Variable getDomHeight : Dom -> number.
Variable getDomPaddingAndMargin : Dom -> number.
Variable getContentSpacing : Dom -> number.
Variable getBreakPos : Node -> Dom -> SplitContext -> option Z.
Variable domOf : Node -> Dom.
Variable freshId : nat -> string.
Variable applyStep : Transaction -> SplitStep -> Outcome Transaction.

Local Abbreviation table :=
  (defaultNodesComputed Dom getDomHeight getDomPaddingAndMargin
     getContentSpacing getBreakPos).

Lemma splitDocument_last_page_fits (fuel : nat) (schema : Schema)
    (height defaultHeight : number) (tr : Transaction) (supply : nat)
    (pages : list Node) (last : Node) :
  lastPageOf (tr_doc tr) pages last ->
  blocksFit getDomHeight domOf (content last) height ->
  splitDocument Dom domOf table freshId applyStep (S fuel) schema height
    defaultHeight tr supply
  = Done (tr, supply).
Proof.
  intros Hlast Hfit. cbn [splitDocument].
  rewrite (visitChildren_fitting_prefix Dom getDomHeight
             getDomPaddingAndMargin getContentSpacing getBreakPos domOf
             (tr_doc tr) pages last (content last) [])
    by (try assumption; by rewrite app_nil_r).
  reflexivity.
Qed.

(** X25.  A document whose last page fits is not split.  If the blocks of
    the last page are lists, headings, paragraphs or transient texts, and
    their measured heights, added one after the other the way the engine
    adds them -- each sum rounded to a double -- never exceed the
    pagination height, the split loop ends in its first round and hands
    the transaction back as it is: no step is built or applied and no id
    is drawn. *)
Theorem splitDocument_fits (fuel : nat) (schema : Schema)
    (height defaultHeight : number) (tr : Transaction) (supply : nat)
    (pages : list Node) (last : Node) :
  (0 < fuel)%nat ->
  lastPageOf (tr_doc tr) pages last ->
  blocksFit getDomHeight domOf (content last) height ->
  splitDocument Dom domOf table freshId applyStep fuel schema height
    defaultHeight tr supply
  = Done (tr, supply).
Proof.
  intros Hfuel Hlast Hfit. destruct fuel as [|fuel]; [lia|].
  by apply (splitDocument_last_page_fits _ _ _ _ _ _ pages last).
Qed.

(** X26.  A boundary of depth 0 stalls the split loop.  When the
    measuring pass over a document returns a boundary of depth 0 -- as the
    paragraph strategy does for an oversized paragraph that opens a later
    page and has no interior break -- [splitPage] builds a step with
    nothing before and nothing after the cut and draws no id; if the
    editor applies that step and the document stays what it was, the next
    round measures the same document and finds the same boundary.  The
    loop of [splitDocument] then has no round in which it returns or
    throws: whatever the number of rounds granted, they are used up. *)
Theorem splitDocument_stalls
    (nodesComputed : gmap string (ComputedFn Dom)) (schema : Schema)
    (height defaultHeight : number) (doc : Node) (t : NodeType) (pos : Z)
    (r : ResolvedPos) :
  schema !! PAGE = Some t ->
  resolve doc pos = Some r ->
  getNodeHeight Dom domOf nodesComputed doc height defaultHeight
  = Done (Some (mkSplitInfo pos 0)) ->
  (forall tr, tr_doc tr = doc ->
     exists tr', applyStep tr (mkSplitStep pos [] [] 0) = Done tr'
                 /\ tr_doc tr' = doc) ->
  forall (fuel : nat) (tr : Transaction) (supply : nat),
    tr_doc tr = doc ->
    splitDocument Dom domOf nodesComputed freshId applyStep fuel schema
      height defaultHeight tr supply
    = OutOfFuel.
Proof.
  intros Ht Hr Hinfo Hstep fuel.
  induction fuel as [|fuel IH]; intros tr supply Hdoc; [reflexivity|].
  cbn [splitDocument]. rewrite Hdoc, Hinfo.
  cbn [mbind Outcome_bind split_pos split_depth]. rewrite Ht.
  cbn [orThrow mbind Outcome_bind]. unfold splitPageStep. rewrite Hr.
  change (Z.to_nat 0) with O.
  cbn [orThrow mbind Outcome_bind splitLevels].
  destruct (Hstep tr Hdoc) as (tr' & -> & Hdoc').
  cbn [mbind Outcome_bind]. exact (IH tr' supply Hdoc').
Qed.

(** X27.  A run on a document that needs nothing changes nothing.  When
    no reflow is asked for, the ids of the document are distinct, the
    selection lies in the last page, the blocks of that page fit (their
    heights, added in turn and rounded as the engine does, stay within the
    pagination height) and the first page is not an emptied one, [run] -- with the split loop and the
    repair pass of the engine -- hands back the transaction of the state
    as it is, whether the plugin state reports an insertion, a deletion,
    both or none. *)
Theorem run_fits
    (replayOperation : Transaction -> Operation -> Transaction)
    (mapPos : Transaction -> Z -> Z)
    (replaceStep : Transaction -> Z -> Z -> Outcome Transaction)
    (createAndFill : NodeType -> Outcome (option Node))
    (fuel supply : nat) (height defaultHeight : number)
    (pageState : PageState) (state prevState : EditorState)
    (pages : list Node) (last : Node) :
  (0 < fuel)%nat ->
  splitPage pageState = false ->
  distinctIds (state_doc state) ->
  lastPageOf (state_doc state) pages last ->
  blocksFit getDomHeight domOf (content last) height ->
  findIndex (content (state_doc state)) (sel_from (selection state))
  = Some (Z.of_nat (List.length pages)) ->
  findIndex (content (state_doc state)) (sel_head (selection state))
  = Some (Z.of_nat (List.length pages)) ->
  firstPageEmpty (state_doc state)
    && firstPageHasContent (state_doc prevState) = false ->
  run replayOperation
    (fun tr =>
       fst <$> splitDocument Dom domOf table freshId applyStep fuel
                 (schema state) height defaultHeight tr supply)
    (checkNodeAndFix mapPos replaceStep (schema state))
    createAndFill pageState state prevState
  = Done (state_tr state).
Proof.
  intros Hfuel Hsplit Hnd Hlast Hfit Hfrom Hhead Hfirst. unfold run.
  replace (removeElementsWithDuplicateId replayOperation (state_tr state))
    with (state_tr state)
    by (unfold removeElementsWithDuplicateId;
        change (tr_doc (state_tr state)) with (state_doc state);
        by rewrite (duplicateIdOperations_distinct (state_doc state) Hnd)).
  rewrite Hsplit.
  destruct (negb (inserting pageState) && deleting pageState
            && headInLastPage state && (tr_steps (state_tr state) =? 0));
    [reflexivity|].
  assert (Hcomputed :
            computed
              (fun tr =>
                 fst <$> splitDocument Dom domOf table freshId applyStep fuel
                           (schema state) height defaultHeight tr supply)
              state (state_tr state)
            = Done (state_tr state)).
  { unfold computed. cbn [tr_doc state_tr].
    rewrite Hfrom, Hhead. cbn [orThrow mbind Outcome_bind].
    replace (childCount (state_doc state)
             =? Z.of_nat (List.length pages) + 1) with true.
    2:{ symmetry. apply Z.eqb_eq. unfold childCount.
        destruct Hlast as (-> & _). rewrite length_app. cbn. lia. }
    rewrite Z.eqb_refl. cbn [negb orb]. rewrite andb_false_r.
    cbn [mbind Outcome_bind].
    destruct fuel as [|fuel']; [lia|].
    rewrite (splitDocument_last_page_fits fuel' (schema state) height
               defaultHeight (state_tr state) supply pages last Hlast Hfit).
    reflexivity. }
  destruct (inserting pageState || deleting pageState).
  - change (Outcome_bind ?f ?m) with (mbind f m). rewrite Hcomputed.
    cbn [mbind Outcome_bind]. unfold checkNodeAndFix, descendants.
    destruct (fixVisit_keeps_transaction mapPos replaceStep (schema state)
                (state_tr state)) as (b & ->).
    cbn [fmap Outcome_fmap snd mbind Outcome_bind tr_doc state_tr].
    by rewrite Hfirst.
  - cbn [mbind Outcome_bind tr_doc state_tr]. by rewrite Hfirst.
Qed.

(** X28.  A reflow of a single page that fits changes nothing.  When the
    plugin state asks for a reflow, the document has one page, its ids
    are distinct and the blocks of the page fit (their heights, added in
    turn and rounded as the engine does, stay within the pagination
    height), [run] finds nothing to merge and nothing to split and hands
    back the transaction of the state as it is. *)
Theorem run_reflow_single_page
    (replayOperation : Transaction -> Operation -> Transaction)
    (checkNodeAndFix : Transaction -> Outcome Transaction)
    (createAndFill : NodeType -> Outcome (option Node))
    (fuel supply : nat) (height defaultHeight : number)
    (pageState : PageState) (state prevState : EditorState) (page : Node) :
  (0 < fuel)%nat ->
  splitPage pageState = true ->
  distinctIds (state_doc state) ->
  lastPageOf (state_doc state) [] page ->
  blocksFit getDomHeight domOf (content page) height ->
  run replayOperation
    (fun tr =>
       fst <$> splitDocument Dom domOf table freshId applyStep fuel
                 (schema state) height defaultHeight tr supply)
    checkNodeAndFix createAndFill pageState state prevState
  = Done (state_tr state).
Proof.
  intros Hfuel Hsplit Hnd Hlast Hfit. unfold run.
  replace (removeElementsWithDuplicateId replayOperation (state_tr state))
    with (state_tr state)
    by (unfold removeElementsWithDuplicateId;
        change (tr_doc (state_tr state)) with (state_doc state);
        by rewrite (duplicateIdOperations_distinct (state_doc state) Hnd)).
  rewrite Hsplit. unfold initComputed, mergeDefaultDocument.
  cbn [mergeLoop]. unfold mergeStep, childCount. cbn [tr_doc state_tr].
  destruct Hlast as (Hc & Hrest). rewrite Hc.
  cbn [app length].
  change (Z.of_nat 1 >? 1) with false. cbn [mbind Outcome_bind].
  destruct fuel as [|fuel']; [lia|].
  rewrite (splitDocument_last_page_fits fuel' (schema state) height
             defaultHeight (state_tr state) supply [] page)
    by (try assumption; by split).
  reflexivity.
Qed.

End SplitDocumentFacts.

(** The three paragraphs fit a page of 800 pixels: the loop leaves the
    transaction alone, with an editor that would refuse any step. *)
Lemma splitDocument_fits_witness :
  splitDocument Node id sampleTable sampleIds refusingEditor 1 sampleSchema
    (of_Z 800) (of_Z 20) (mkTransaction threeBlocks 0 ∅) 0
  = Done (mkTransaction threeBlocks 0 ∅, 0%nat).
Proof.
  apply (splitDocument_fits Node sampleBlockHeight sampleZero sampleZero
           sampleNoPoint id sampleIds refusingEditor 1 sampleSchema
           (of_Z 800) (of_Z 20) (mkTransaction threeBlocks 0 ∅) 0
           [pageNode (JStr "p1") 1 [paragraph (JStr "a") "Hello"]]
           threeBlocksPage).
  - lia.
  - exact threeBlocks_last_page.
  - split.
    + apply (bool_decide_unpack _); vm_compute; exact I.
    + vm_compute. repeat split.
Defined.

(** On a page of 700 pixels the paragraph of 800 pixels that opens the
    second page of [tallSecondPage] moves the boundary to position 9, the
    start of that page, at depth 0; a thousand rounds are used up. *)
Lemma splitDocument_stalls_witness :
  getNodeHeight Node id sampleTable tallSecondPage (of_Z 700) (of_Z 20)
  = Done (Some (mkSplitInfo 9 0))
  /\ splitDocument Node id sampleTable sampleIds emptyStepEditor 1000
       sampleSchema (of_Z 700) (of_Z 20) (mkTransaction tallSecondPage 0 ∅) 0
     = OutOfFuel.
Proof.
  split; [vm_compute; reflexivity|].
  apply (splitDocument_stalls Node id sampleIds emptyStepEditor sampleTable
           sampleSchema (of_Z 700) (of_Z 20) tallSecondPage (blockType PAGE)
           9 (mkResolvedPos 9 (resolveFrom tallSecondPage 9 0))).
  - vm_compute. reflexivity.
  - vm_compute. reflexivity.
  - vm_compute. reflexivity.
  - intros tr Hdoc. eexists. split; [reflexivity|exact Hdoc].
  - reflexivity.
Defined.

(** An insertion into the last page of [threeBlocks], which still fits
    800 pixels. *)
Lemma run_fits_witness :
  run idleReplay
    (fun tr =>
       fst <$> splitDocument Node id sampleTable sampleIds refusingEditor 1
                 sampleSchema (of_Z 800) (of_Z 20) tr 0)
    (checkNodeAndFix (fun _ p => p) (fun _ _ _ => Thrown) sampleSchema)
    filledWithDefaults (mkPageState a4Options false true false)
    stateInThreeBlocks stateInThreeBlocks
  = Done (mkTransaction threeBlocks 0 ∅).
Proof.
  apply (run_fits Node sampleBlockHeight sampleZero sampleZero sampleNoPoint
           id sampleIds refusingEditor idleReplay (fun _ p => p)
           (fun _ _ _ => Thrown) filledWithDefaults 1 0 (of_Z 800) (of_Z 20)
           (mkPageState a4Options false true false)
           stateInThreeBlocks stateInThreeBlocks
           [pageNode (JStr "p1") 1 [paragraph (JStr "a") "Hello"]]
           threeBlocksPage).
  - lia.
  - reflexivity.
  - apply (bool_decide_unpack _). vm_compute. exact I.
  - exact threeBlocks_last_page.
  - split.
    + apply (bool_decide_unpack _); vm_compute; exact I.
    + vm_compute. repeat split.
  - vm_compute. reflexivity.
  - vm_compute. reflexivity.
  - vm_compute. reflexivity.
Defined.

(** A reflow of the single page of [singleBlocksPage], which fits 800
    pixels. *)
Lemma run_reflow_single_page_witness :
  run idleReplay
    (fun tr =>
       fst <$> splitDocument Node id sampleTable sampleIds refusingEditor 1
                 sampleSchema (of_Z 800) (of_Z 20) tr 0)
    idlePass filledWithDefaults (mkPageState a4Options false false true)
    (mkEditorState singleBlocksPage (mkSelection 3 3) sampleSchema)
    (mkEditorState singleBlocksPage (mkSelection 3 3) sampleSchema)
  = Done (mkTransaction singleBlocksPage 0 ∅).
Proof.
  apply (run_reflow_single_page Node sampleBlockHeight sampleZero sampleZero
           sampleNoPoint id sampleIds refusingEditor idleReplay idlePass
           filledWithDefaults 1 0 (of_Z 800) (of_Z 20)
           (mkPageState a4Options false false true)
           (mkEditorState singleBlocksPage (mkSelection 3 3) sampleSchema)
           (mkEditorState singleBlocksPage (mkSelection 3 3) sampleSchema)
           threeBlocksPage).
  - lia.
  - reflexivity.
  - apply (bool_decide_unpack _). vm_compute. exact I.
  - repeat split; try (vm_compute; congruence). constructor.
  - split.
    + apply (bool_decide_unpack _); vm_compute; exact I.
    + vm_compute. repeat split.
Defined.
